(** * mcp-proxy: the SSE listener and its authentication, verified

    A shallow embedding of
    - [startSSEServer] (the HTTP listener that admits, registers, serves and
      tears down SSE sessions), and
    - the command-line program [bin/mcp-proxy.ts] ([verifyApiKey], its
      [authHandler], its [createServer] and the start-up sequence [proxy]),
    followed by the properties the specification states about them. *)

From Stdlib Require Import String Ascii List ZArith Floats.
From stdpp Require Import base option list strings gmap fin_maps.
Import ListNotations.
Local Open Scope string_scope.
Set Warnings "-register-all".

(** ** JavaScript values as the program uses them

    A string is the sequence of its characters; the texts the properties
    speak of (addresses, header names, credentials) are ASCII. *)

Module JS.

(** A call either returns a value or throws.  An [await] on a promise is
    modelled by the outcome the promise settles with. *)
Inductive error :=
| TypeError (msg : string)
| ResponseError (status : nat) (statusText : string)   (* a thrown [Response] object *)
| OtherError (msg : string).

Inductive outcome (A : Type) :=
| Returns (a : A)
| Throws (e : error).
Arguments Returns {A} a.
Arguments Throws {A} e.

Definition obind {A B} (m : outcome A) (k : A -> outcome B) : outcome B :=
  match m with
  | Returns a => k a
  | Throws e => Throws e
  end.

(** [try { m } catch (error) { h error }] *)
Definition try_catch {A} (m : outcome A) (h : error -> outcome A) : outcome A :=
  match m with
  | Returns a => Returns a
  | Throws e => h e
  end.

(** Truthiness of a string: only the empty string is falsy. *)
Definition truthy_str (s : string) : bool :=
  match s with
  | EmptyString => false
  | String _ _ => true
  end.

(** Truthiness of a [string | undefined]. *)
Definition truthy_ostr (s : option string) : bool :=
  match s with
  | Some s => truthy_str s
  | None => false
  end.

(** [s.startsWith(p)] *)
Definition startsWith (s p : string) : bool := String.prefix p s.

(** [s.substring(0, n)]: the first [n] characters, or all of [s] when it
    is shorter. *)
Definition substring0 (n : nat) (s : string) : string := String.substring 0 n s.

(** [s.toLowerCase()] on the ASCII letters, the alphabet of header names. *)
Definition lower_ascii (c : ascii) : ascii :=
  let n := nat_of_ascii c in
  if (65 <=? n)%nat && (n <=? 90)%nat then ascii_of_nat (n + 32) else c.

Fixpoint toLowerCase (s : string) : string :=
  match s with
  | EmptyString => EmptyString
  | String c s' => String (lower_ascii c) (toLowerCase s')
  end.

(** The property names every object literal [{}] inherits from
    [Object.prototype].  Each of them reads as a function (or, for
    [__proto__], as the prototype object itself): a truthy value that has
    no own or inherited property named [transport]. *)
Definition object_prototype_keys : list string :=
  [ "constructor"; "__defineGetter__"; "__defineSetter__"; "hasOwnProperty";
    "__lookupGetter__"; "__lookupSetter__"; "isPrototypeOf";
    "propertyIsEnumerable"; "toString"; "valueOf"; "__proto__";
    "toLocaleString" ].

Definition is_object_prototype_key (k : string) : bool :=
  bool_decide (k ∈ object_prototype_keys).

(** The result of reading [obj[k]] on an object created by [{}] whose own
    properties are the finite map [own]. *)
Inductive property (V : Type) :=
| Own (v : V)          (* an own property *)
| Inherited            (* a member of [Object.prototype] *)
| Undefined.
Arguments Own {V} v.
Arguments Inherited {V}.
Arguments Undefined {V}.

Definition get_property {V} (own : gmap string V) (k : string) : property V :=
  match own !! k with
  | Some v => Own v
  | None => if is_object_prototype_key k then Inherited else Undefined
  end.

(** What the listener holds in [requestApiKey]: the text of a header or of
    a query parameter, or, when the configured header name is a member name
    of [Object.prototype], that member (a function, or the prototype object
    itself): a truthy value that is no string. *)
Inductive credential :=
| Text (s : string)
| Member (name : string).

(** Truthiness of a credential or [undefined]. *)
Definition truthy_credential (c : option credential) : bool :=
  match c with
  | Some (Text s) => truthy_str s
  | Some (Member _) => true
  | None => false
  end.

(** [c !== k] for a string [k]. *)
Definition differs (c : credential) (k : string) : bool :=
  match c with
  | Text s => negb (s =? k)
  | Member _ => true
  end.

(** Values produced by [JSON.parse] / [response.json()].  The fields of
    [JObj] are the own properties of the parsed object, in order, with
    distinct names. *)
Inductive json :=
| JNull
| JBool (b : bool)
| JNum (n : float)
| JStr (s : string)
| JArr (items : list json)
| JObj (fields : list (string * json)).

Fixpoint assoc (k : string) (fields : list (string * json)) : option json :=
  match fields with
  | [] => None
  | (k', v) :: rest => if String.eqb k k' then Some v else assoc k rest
  end.

(** [data.k] for a parsed JSON value [data] and a name [k] that no
    prototype defines (it is used at [valid], [userId], [permissions] and
    [env] only): [undefined] ([None]) unless [data] is an object with that
    own property; reading a property of [null] throws. *)
Definition member (data : json) (k : string) : outcome (option json) :=
  match data with
  | JNull => Throws (TypeError "Cannot read properties of null")
  | JObj fields => Returns (assoc k fields)
  | _ => Returns None
  end.

(** Truthiness of a JSON value or [undefined]. *)
Definition truthy (v : option json) : bool :=
  match v with
  | None => false
  | Some JNull => false
  | Some (JBool b) => b
  | Some (JNum n) => negb (PrimFloat.is_zero n || PrimFloat.is_nan n)
  | Some (JStr s) => truthy_str s
  | Some (JArr _) => true
  | Some (JObj _) => true
  end.

(** The entries of a [Record<string, string>] object, in the order in which
    [Object.entries] lists them, as [createServer] guards them: a value that
    is [null] or [undefined] at run time is [None], any other value is the
    string its [toString()] gives.  The names of an object's entries are
    pairwise distinct. *)
Abbreviation Env := (list (string * option string)).

(** A string as the operating system receives it, a C string: it ends at
    its first NUL character. *)
Fixpoint c_str (s : string) : string :=
  match s with
  | EmptyString => EmptyString
  | String c s' => if Ascii.eqb c Ascii.zero then EmptyString else String c (c_str s')
  end.

(** [s.includes(c)] for a character [c]. *)
Fixpoint includes (c : ascii) (s : string) : bool :=
  match s with
  | EmptyString => false
  | String c' s' => Ascii.eqb c c' || includes c s'
  end.

(** [v || d] *)
Definition or_default (v : option json) (d : json) : json :=
  match v with
  | Some x => if truthy v then x else d
  | None => d
  end.

End JS.


(** ** bin/mcp-proxy.ts *)

Module McpProxy.
Import JS.

(** What [verifyApiKey] and the program's [authHandler] return when they
    admit a credential.  The fields copied from the auth server's reply
    are untyped ([any]); [permissions] and [env] are absent from the
    object literal of the permissive fallback. *)
Record Identity := {
  userId : json;
  permissions : option json;
  env : option json
}.

(** The reply of [fetch]: [response.ok], [response.status] and the
    outcome of [await response.json()]. *)
Record FetchResponse := {
  ok : bool;
  status : nat;
  json_body : outcome json
}.

Definition derivedUserId (apiKey : string) : string :=
  "user-" ++ substring0 8 apiKey.

(** The address of line 81, [`${authServerUrl}?apiKey=${encoded}`]. *)
Definition lookupUrl (authServerUrl encoded : string) : string :=
  authServerUrl ++ "?apiKey=" ++ encoded.

Section Verification.
(** Platform functions: [encodeURIComponent] (throws on a lone
    surrogate) and [fetch] issued as a GET with [Accept:
    application/json] (rejects on a transport error). *)
Variable encodeURIComponent : string -> outcome string.
Variable fetch : string -> outcome FetchResponse.

(** [verifyApiKey], lines 77-108. *)
Definition verifyApiKey (apiKey authServerUrl : string) : outcome (option Identity) :=
  if negb (truthy_str authServerUrl) then Returns None
  else
    try_catch
      (obind (encodeURIComponent apiKey) (fun encoded =>
       obind (fetch (lookupUrl authServerUrl encoded)) (fun response =>
       if negb (ok response) then Returns None
       else
         obind (json_body response) (fun data =>
         obind (member data "valid") (fun valid =>
         if truthy valid then
           obind (member data "userId") (fun uid =>
           obind (member data "permissions") (fun perms =>
           obind (member data "env") (fun e =>
           Returns (Some {| userId := or_default uid (JStr (derivedUserId apiKey));
                            permissions := Some (or_default perms (JArr []));
                            env := Some (or_default e (JObj [])) |}))))
         else Returns None)))))
      (fun _ => Returns None).

(** The [authHandler] the program passes to [startSSEServer], lines
    177-187.  [authServerUrl] is [process.env.AUTH_SERVER_URL], and
    [remoteVerification] is set exactly when it is truthy (lines
    136-142). *)
Definition remoteVerification (authServerUrl : option string) : bool :=
  truthy_ostr authServerUrl.

Definition authHandler (authServerUrl : option string) (requestApiKey : string)
  : outcome (option Identity) :=
  if negb (truthy_str requestApiKey) then Returns None
  else if remoteVerification authServerUrl then
    verifyApiKey requestApiKey (default "" authServerUrl)
  else
    Returns (Some {| userId := JStr (derivedUserId requestApiKey);
                     permissions := None;
                     env := None |}).
End Verification.

(** The per-session server the program builds: [new Server(serverVersion,
    {capabilities})], wired to the shared client by [proxyServer]. *)
Record ServerVersion := { name : string; version : string }.
Record Server := { serverInfo : ServerVersion }.

(** A name the environment of a process can hold: [setenv(3)] refuses the
    empty name and a name that contains ['=']. *)
Definition valid_name (name : string) : bool :=
  truthy_str name && negb (includes "=" name).

(** [process.env[key] = value] on a POSIX system: Node hands both strings
    to [setenv(3)] as C strings and ignores its refusal. *)
Definition setenv (key value : string) (penv : gmap string string) : gmap string string :=
  if valid_name (c_str key) then <[c_str key := c_str value]> penv else penv.

(** The operating-system view of the program: its own environment
    ([process.env]) and the upstream worker process, once started. *)
Record Process (Worker : Type) := {
  process_env : gmap string string;
  worker : option Worker
}.
Arguments process_env {Worker}.
Arguments worker {Worker}.

Section Upstream.
(** [StdioClientTransport] is not among the sources; [spawn] stands for the
    child process it starts from the environment it is handed.  A process
    receives its environment when it is created. *)
Context {Worker : Type}.
Variable spawn : gmap string string -> Worker.

(** [connect], lines 60-74: the transport is built with [env: process.env]
    and started by [client.connect(transport)].  [proxy] awaits it (line
    121) and reads the worker's version and capabilities (lines 123-128)
    before it calls [startSSEServer]. *)
Definition connect (p : Process Worker) : Process Worker :=
  {| process_env := process_env p;
     worker := Some (spawn (process_env p)) |}.

(** The [forEach] of lines 153-157 over [Object.entries(env)]; a string's
    [toString()] is the string. *)
Definition applyEnv (env : Env) (penv : gmap string string) : gmap string string :=
  foldl (fun acc entry =>
           match entry.2 with
           | Some v => setenv entry.1 v acc
           | None => acc
           end) penv env.

(** The value the entries [env] leave in the variable [name], if they set
    it: the last entry that writes the variable decides. *)
Fixpoint assigned (env : Env) (name : string) : option string :=
  match env with
  | [] => None
  | (key, value) :: rest =>
      match assigned rest name with
      | Some v => Some v
      | None =>
          match value with
          | Some v =>
              if valid_name (c_str key) && (c_str key =? name) then Some (c_str v)
              else None
          | None => None
          end
      end
  end.

(** [createServer], lines 145-172. *)
Definition createServer (serverVersion : ServerVersion)
    (userId : option string) (env : option Env) (p : Process Worker)
  : Server * Process Worker :=
  let p' :=
    match env with
    | Some e => {| process_env := applyEnv e (process_env p);
                   worker := worker p |}
    | None => p
    end in
  ({| serverInfo := serverVersion |}, p').

(** [proxy], lines 110-144, up to the call of [startSSEServer], followed by
    the creation of one session. *)
Definition proxyThenSession (serverVersion : ServerVersion)
    (userId : option string) (env : option Env) (p : Process Worker)
  : Server * Process Worker :=
  createServer serverVersion userId env (connect p).
End Upstream.

End McpProxy.

(** ** startSSEServer *)

Module SSE.
Import JS.

(** [AuthResult]: what an [AuthHandler] resolves to when it admits the
    credential; [null] is [None] at the use sites. *)
Module AuthResult.
Record t := {
  userId : string;
  permissions : option (list string);
  env : option Env
}.
End AuthResult.

(** The parts of [http.IncomingMessage] the listener reads.  [headers] are
    the own properties of the plain object [req.headers]; Node stores header
    names in lower case. *)
Record IncomingMessage := {
  method : string;
  url : string;
  headers : gmap string string
}.

(** The SDK's [SSEServerTransport]; its identity is its [sessionId]. *)
Record SSEServerTransport := { sessionId : string }.

#[global] Instance transport_eq_dec : EqDecision SSEServerTransport.
Proof. solve_decision. Defined.

(** An entry of [activeTransports]. *)
Module Session.
Record t := {
  transport : SSEServerTransport;
  userId : option string;
  env : option Env;
  apiKey : credential
}.
End Session.

(** The [http.ServerResponse] of the request being served: the headers the
    listener set on it, the status it passed to [writeHead], the text it
    passed to [end], and whether the head of the response has been sent
    ([res.headersSent]), by the listener or by the SDK's transport. *)
Record ServerResponse := {
  responseHeaders : list (string * string);
  statusCode : option nat;
  body : option string;
  headersSent : bool
}.

Definition freshResponse : ServerResponse :=
  {| responseHeaders := []; statusCode := None; body := None; headersSent := false |}.

(** What [setHeader] and [writeHead] throw once the head has been sent. *)
Definition ERR_HTTP_HEADERS_SENT : error :=
  OtherError "ERR_HTTP_HEADERS_SENT".

(** Calls the listener makes on its collaborators, in program order, and
    ([Relayed]) what the per-session server writes to a push-channel. *)
Inductive event (T : Type) :=
| AuthHandlerCalled (requestApiKey : credential)
| TransportCreated (transport : SSEServerTransport)
| CreateServerCalled (req : IncomingMessage) (userId : option string) (env : option Env)
| CloseListenerAdded (server : T) (transport : SSEServerTransport)
| ServerConnect (server : T) (transport : SSEServerTransport)
| TransportSend (transport : SSEServerTransport) (message : json)
| OnConnect (server : T) (userId : option string)
| ServerClose (server : T)
| OnClose (server : T)
| HandlePostMessage (transport : SSEServerTransport) (req : IncomingMessage)
| OnUnhandledRequest (req : IncomingMessage)
| Relayed (server : T) (transport : SSEServerTransport) (message : json).
Arguments AuthHandlerCalled {T}.
Arguments TransportCreated {T}.
Arguments CreateServerCalled {T}.
Arguments CloseListenerAdded {T}.
Arguments ServerConnect {T}.
Arguments TransportSend {T}.
Arguments OnConnect {T}.
Arguments ServerClose {T}.
Arguments OnClose {T}.
Arguments HandlePostMessage {T}.
Arguments OnUnhandledRequest {T}.
Arguments Relayed {T}.

(** [ServerLike]: the interface the per-session server must offer.  A
    server is an object: [===] tells two servers apart. *)
Class ServerLike (T : Type) := {
  connect : T -> SSEServerTransport -> outcome unit;
  close : T -> outcome unit;
  server_eq_dec :: EqDecision T
}.

(** The options of [startSSEServer].  [apiKeyHeaderName] is [None] when the
    caller leaves it out.  [AuthHandler] is declared on strings; at run time
    it is handed whatever line 90 read. *)
Record Config (T : Type) := {
  port : N;
  endpoint : string;
  createServer : IncomingMessage -> option string -> option Env -> outcome T;
  onConnect : option (T -> option string -> outcome unit);
  onClose : option (T -> outcome unit);
  onUnhandledRequest : option (IncomingMessage -> outcome unit);
  apiKey : option string;
  apiKeyHeaderName : option string;
  authHandler : option (credential -> outcome (option AuthResult.t))
}.
Arguments port {T}.
Arguments endpoint {T}.
Arguments createServer {T}.
Arguments onConnect {T}.
Arguments onClose {T}.
Arguments onUnhandledRequest {T}.
Arguments apiKey {T}.
Arguments apiKeyHeaderName {T}.
Arguments authHandler {T}.

(** When the response of a connect request emits [close] while its handler
    is still running.  A response emits [close] once.
    - [BeforeListener]: while the handler awaits [authHandler] (line 117) or
      [createServer] (line 137), before line 152 attaches the listener: the
      listener is never called;
    - [DuringConnect], [DuringSend]: while the handler awaits
      [server.connect] (line 167) or [transport.send] (line 169). *)
Inductive moment := BeforeListener | DuringConnect | DuringSend.

(** What the platform and the SDK answer while one request is served:
    - [URL_searchParams input base] is [new URL(input, base)]: [None] when
      the constructor throws, else the [searchParams.get] of the result;
    - [URL_origin input] is [new URL(input).origin];
    - [randomUUID] is the [sessionId] the next [SSEServerTransport] draws;
    - [send] and [handlePostMessage] are the transport's methods;
    - [connectSendsHead]: by the time [server.connect] settles it has
      started the transport, whose [start] writes the head of the event
      stream to the response;
    - [closes]: when, if at all, the response emits [close] before the
      handler ends. *)
Record Platform := {
  URL_searchParams : string -> string -> option (string -> option string);
  URL_origin : string -> option string;
  randomUUID : string;
  send : SSEServerTransport -> json -> outcome unit;
  handlePostMessage : SSEServerTransport -> IncomingMessage -> outcome unit;
  connectSendsHead : bool;
  closes : option moment
}.

Definition closesBeforeListener (pf : Platform) : bool :=
  match closes pf with
  | Some BeforeListener => true
  | _ => false
  end.

Definition closesDuringConnect (pf : Platform) : bool :=
  match closes pf with
  | Some DuringConnect => true
  | _ => false
  end.

Definition closesDuringSend (pf : Platform) : bool :=
  match closes pf with
  | Some DuringSend => true
  | _ => false
  end.

(** The state the handlers act on:
    - the registry [activeTransports];
    - the [closed] flags of the connect closures (one per transport, held
      here as the set of transports whose flag is [true]);
    - [listening]: the close listeners attached to responses that have not
      emitted [close] yet, each with the [server] and [transport] of its
      closure;
    - [attached]: the transports handed to a server by [server.connect];
    - the response of the request being served and the calls made so far. *)
Record State (T : Type) := {
  activeTransports : gmap string Session.t;
  closed : gset string;
  listening : list (T * SSEServerTransport);
  attached : list (T * SSEServerTransport);
  res : ServerResponse;
  log : list (event T)
}.
Arguments activeTransports {T}.
Arguments closed {T}.
Arguments listening {T}.
Arguments attached {T}.
Arguments res {T}.
Arguments log {T}.

(** *** The handler monad: state, and exceptions that keep the state *)

Definition M (T A : Type) : Type := State T -> outcome A * State T.

#[global] Instance M_ret {T} : MRet (M T) := fun A a σ => (Returns a, σ).
#[global] Instance M_bind {T} : MBind (M T) := fun A B k m σ =>
  match m σ with
  | (Returns a, σ') => k a σ'
  | (Throws e, σ') => (Throws e, σ')
  end.

(** [await p], where the promise settles with the outcome [o]. *)
Definition await {T A} (o : outcome A) : M T A := fun σ => (o, σ).

(** [try { m } catch (error) { h error }] *)
Definition try_M {T A} (m : M T A) (h : error -> M T A) : M T A := fun σ =>
  match m σ with
  | (Returns a, σ') => (Returns a, σ')
  | (Throws e, σ') => h e σ'
  end.

(** Runs [m] and hands its outcome to the continuation. *)
Definition attempt {T A} (m : M T A) : M T (outcome A) := fun σ =>
  match m σ with
  | (o, σ') => (Returns o, σ')
  end.

Definition modify {T} (f : State T -> State T) : M T unit := fun σ => (Returns tt, f σ).

Definition gets {T A} (f : State T -> A) : M T A := fun σ => (Returns (f σ), σ).

Definition emit {T} (e : event T) : M T unit :=
  modify (fun σ => {| activeTransports := activeTransports σ; closed := closed σ;
                      listening := listening σ; attached := attached σ;
                      res := res σ; log := log σ ++ [e] |}).

Definition withRes {T} (f : ServerResponse -> ServerResponse) : M T unit :=
  modify (fun σ => {| activeTransports := activeTransports σ; closed := closed σ;
                      listening := listening σ; attached := attached σ;
                      res := f (res σ); log := log σ |}).

(** [res.setHeader(name, value)]: throws once the head has been sent. *)
Definition setHeader {T} (name value : string) : M T unit :=
  sent ← gets (fun σ => headersSent (res σ)) ;
  if sent : bool then await (Throws ERR_HTTP_HEADERS_SENT)
  else withRes (fun r => {| responseHeaders := responseHeaders r ++ [(name, value)];
                            statusCode := statusCode r; body := body r;
                            headersSent := false |}).

(** [res.writeHead(status)]: throws once the head has been sent; otherwise
    the head is now fixed. *)
Definition writeHead {T} (status : nat) : M T unit :=
  sent ← gets (fun σ => headersSent (res σ)) ;
  if sent : bool then await (Throws ERR_HTTP_HEADERS_SENT)
  else withRes (fun r => {| responseHeaders := responseHeaders r;
                            statusCode := Some status; body := body r;
                            headersSent := true |}).

(** [res.end(data)], which the listener calls right after [writeHead]. *)
Definition end_ {T} (data : string) : M T unit :=
  withRes (fun r => {| responseHeaders := responseHeaders r;
                       statusCode := statusCode r; body := Some data;
                       headersSent := true |}).

(** The SDK's transport has written the head of the event stream. *)
Definition streamStarted {T} (sent : bool) : M T unit :=
  if sent then
    withRes (fun r => {| responseHeaders := responseHeaders r;
                         statusCode := statusCode r; body := body r;
                         headersSent := true |})
  else mret tt.

(** [activeTransports[key] = session] *)
Definition setTransport {T} (key : string) (session : Session.t) : M T unit :=
  modify (fun σ => {| activeTransports := <[key := session]> (activeTransports σ);
                      closed := closed σ;
                      listening := listening σ; attached := attached σ;
                      res := res σ; log := log σ |}).

(** [delete activeTransports[key]] *)
Definition deleteTransport {T} (key : string) : M T unit :=
  modify (fun σ => {| activeTransports := delete key (activeTransports σ);
                      closed := closed σ;
                      listening := listening σ; attached := attached σ;
                      res := res σ; log := log σ |}).

(** [closed = b] in the closure of the connect that created [transport]. *)
Definition setClosed {T} (transport : SSEServerTransport) (b : bool) : M T unit :=
  modify (fun σ => {| activeTransports := activeTransports σ;
                      closed := if b then {[sessionId transport]} ∪ closed σ
                                else closed σ ∖ {[sessionId transport]};
                      listening := listening σ; attached := attached σ;
                      res := res σ; log := log σ |}).

Definition isClosed {T} (transport : SSEServerTransport) : M T bool :=
  gets (fun σ => bool_decide (sessionId transport ∈ closed σ)).

(** [l] without the first occurrence of [x]. *)
Fixpoint without {A} `{EqDecision A} (x : A) (l : list A) : list A :=
  match l with
  | [] => []
  | y :: l' => if decide (x = y) then l' else y :: without x l'
  end.

(** [res.on("close", listener)], line 152, for the listener of [server]
    and [transport].  On a response that has emitted [close] already
    ([live = false]) the listener is attached in vain. *)
Definition listen {T} (live : bool) (server : T) (transport : SSEServerTransport)
  : M T unit :=
  if live then
    modify (fun σ => {| activeTransports := activeTransports σ; closed := closed σ;
                        listening := (server, transport) :: listening σ;
                        attached := attached σ;
                        res := res σ; log := log σ |})
  else mret tt.

(** The response emits [close]: its listener is no longer pending. *)
Definition unlisten {T} `{EqDecision T} (server : T) (transport : SSEServerTransport)
  : M T unit :=
  modify (fun σ => {| activeTransports := activeTransports σ; closed := closed σ;
                      listening := without (server, transport) (listening σ);
                      attached := attached σ;
                      res := res σ; log := log σ |}).

(** [server.connect(transport)] hands [transport] to [server]. *)
Definition attach {T} (server : T) (transport : SSEServerTransport) : M T unit :=
  modify (fun σ => {| activeTransports := activeTransports σ; closed := closed σ;
                      listening := listening σ;
                      attached := (server, transport) :: attached σ;
                      res := res σ; log := log σ |}).

(** *** The request listener (lines 57-223)

    A handler is run to its end against the outcomes its [await]s settle
    with.  The one task that is let in while a handler is suspended is the
    close listener of the same connection, whose [closed] flag the handler
    reads.  [console] output is not modelled. *)

Section Listener.
Context {T : Type} `{ServerLike T}.
Variable cfg : Config T.
Variable pf : Platform.

Definition headerName : string := default "x-api-key" (apiKeyHeaderName cfg).

(** Lines 58-69: the CORS headers of a request that carries [Origin]. *)
Definition cors (req : IncomingMessage) : M T unit :=
  if truthy_ostr (headers req !! "origin") then
    try_M
      (match URL_origin pf (default "" (headers req !! "origin")) with
       | Some origin =>
           setHeader "Access-Control-Allow-Origin" origin ;;
           setHeader "Access-Control-Allow-Credentials" "true" ;;
           setHeader "Access-Control-Allow-Methods" "GET, POST, OPTIONS" ;;
           setHeader "Access-Control-Allow-Headers" "*"
       | None => await (Throws (TypeError "Invalid URL"))
       end)
      (fun _ => mret tt)
  else mret tt.

(** Line 90: [req.headers[apiKeyHeaderName.toLowerCase()]], a property read
    on a plain object: an own property (a header of the request), else a
    member of [Object.prototype] when the name is one, else [undefined]. *)
Definition headerCredential (req : IncomingMessage) : option credential :=
  match get_property (headers req) (toLowerCase headerName) with
  | Own value => Some (Text value)
  | Inherited => Some (Member (toLowerCase headerName))
  | Undefined => None
  end.

(** Lines 90-105: the credential of a connect request, from the header or,
    failing that, from the [apiKey] query parameter. *)
Definition extractApiKey (req : IncomingMessage) : option credential :=
  let requestApiKey := headerCredential req in
  if negb (truthy_credential requestApiKey) && negb (url req =? endpoint cfg) then
    match URL_searchParams pf (url req)
            ("http://" ++ default "undefined" (headers req !! "host")) with
    | Some get =>
        let found := get "apiKey" in
        Some (Text (if truthy_ostr found then default "" found else ""))
    | None => requestApiKey
    end
  else requestApiKey.

(** Lines 152-164: the listener of the response's [close] event, for the
    [server] and [transport] of one connect. *)
Definition closeListener (server : T) (transport : SSEServerTransport) : M T unit :=
  setClosed transport true ;;
  try_M (emit (ServerClose server) ;; await (close server))
        (fun _ => mret tt) ;;
  deleteTransport (sessionId transport) ;;
  match onClose cfg with
  | Some f => emit (OnClose server) ;; await (f server)
  | None => mret tt
  end.

(** The response for which the listener of [server] and [transport] was
    attached emits [close].  The listener, if it is still pending, runs as
    a task of its own; a response emits [close] once. *)
Definition deliver (server : T) (transport : SSEServerTransport) : M T unit :=
  pending ← gets listening ;
  if bool_decide ((server, transport) ∈ pending) then
    unlisten server transport ;;
    try_M (closeListener server transport) (fun _ => mret tt)
  else mret tt.

(** While the handler is suspended at an [await], the response may emit
    [close]. *)
Definition suspended (fires : bool) (server : T) (transport : SSEServerTransport)
  : M T unit :=
  if fires then deliver server transport else mret tt.

(** The notification of lines 169-173. *)
Definition connectionEstablished : json :=
  JObj [ ("jsonrpc", JStr "2.0");
         ("method", JStr "sse/connection");
         ("params", JObj [ ("message", JStr "SSE Connection established") ]) ].

(** Lines 167-175, the body of the [try]: the server is attached to the
    transport, the connection is announced, [onConnect] is told. *)
Definition announce (server : T) (transport : SSEServerTransport)
    (userId : option string) : M T unit :=
  emit (ServerConnect server transport) ;;
  attach server transport ;;
  streamStarted (connectSendsHead pf) ;;
  suspended (closesDuringConnect pf) server transport ;;
  await (connect server transport) ;;
  emit (TransportSend transport connectionEstablished) ;;
  suspended (closesDuringSend pf) server transport ;;
  await (send pf transport connectionEstablished) ;;
  match onConnect cfg with
  | Some f => emit (OnConnect server userId) ;; await (f server userId)
  | None => mret tt
  end.

(** Lines 176-181, the [catch]. *)
Definition connectFailed (transport : SSEServerTransport) : M T unit :=
  wasClosed ← isClosed transport ;
  if negb wasClosed then
    writeHead 500 ;; end_ "Error connecting to server"
  else mret tt.

(** Lines 148-181: the session is registered, its close listener attached,
    and the server connected. *)
Definition register (server : T) (transport : SSEServerTransport)
    (userId : option string) (env : option Env) (requestApiKey : credential)
  : M T unit :=
  setTransport (sessionId transport)
    {| Session.transport := transport; Session.userId := userId;
       Session.env := env; Session.apiKey := requestApiKey |} ;;
  setClosed transport false ;;
  emit (CloseListenerAdded server transport) ;;
  listen (negb (closesBeforeListener pf)) server transport ;;
  try_M (announce server transport userId) (fun _ => connectFailed transport).

(** Lines 132-183: the session of an admitted connect request. *)
Definition establish (req : IncomingMessage) (userId : option string)
    (env : option Env) (requestApiKey : credential) : M T unit :=
  let transport := {| sessionId := randomUUID pf |} in
  emit (TransportCreated transport) ;;
  emit (CreateServerCalled req userId env) ;;
  created ← attempt (await (createServer cfg req userId env)) ;
  match created with
  | Throws (ResponseError status statusText) =>
      writeHead status ;; end_ statusText
  | Throws _ =>
      writeHead 500 ;; end_ "Error creating server"
  | Returns server => register server transport userId env requestApiKey
  end.

(** Lines 82-184: a connect request. *)
Definition handleConnect (req : IncomingMessage) : M T unit :=
  let requestApiKey := extractApiKey req in
  if negb (truthy_credential requestApiKey) then
    writeHead 401 ;; end_ "Unauthorized: Missing API key"
  else
    let key := default (Text "") requestApiKey in
    match authHandler cfg with
    | Some handler =>
        emit (AuthHandlerCalled key) ;;
        authResult ← await (handler key) ;
        match authResult with
        | None => writeHead 401 ;; end_ "Unauthorized: Invalid API key"
        | Some r => establish req (Some (AuthResult.userId r)) (AuthResult.env r) key
        end
    | None =>
        if truthy_ostr (apiKey cfg) && differs key (default "" (apiKey cfg)) then
          writeHead 401 ;; end_ "Unauthorized: Invalid API key"
        else establish req None None key
    end.

(** Lines 186-216: a message posted to a session. *)
Definition handleMessage (req : IncomingMessage) : M T unit :=
  match URL_searchParams pf (url req) "https://example.com" with
  | None => await (Throws (TypeError "Invalid URL"))
  | Some get =>
      let sessionId := get "sessionId" in
      if negb (truthy_ostr sessionId) then
        writeHead 400 ;; end_ "No sessionId"
      else
        registry ← gets activeTransports ;
        match get_property registry (default "" sessionId) with
        | Undefined => writeHead 400 ;; end_ "No active transport"
        | Inherited =>
            await (Throws (TypeError
              "Cannot read properties of undefined (reading 'handlePostMessage')"))
        | Own activeSession =>
            emit (HandlePostMessage (Session.transport activeSession) req) ;;
            await (handlePostMessage pf (Session.transport activeSession) req)
        end
  end.

(** Lines 57-223: the listener passed to [http.createServer]. *)
Definition requestListener (req : IncomingMessage) : M T unit :=
  cors req ;;
  if method req =? "OPTIONS" then
    writeHead 204 ;; end_ ""
  else if (method req =? "GET") && (url req =? "/ping") then
    writeHead 200 ;; end_ "pong"
  else if (method req =? "GET") && startsWith (url req) (endpoint cfg) then
    handleConnect req
  else if (method req =? "POST") && startsWith (url req) "/messages" then
    handleMessage req
  else
    match onUnhandledRequest cfg with
    | Some f => emit (OnUnhandledRequest req) ;; await (f req)
    | None => writeHead 404 ;; end_ ""
    end.

(** The state in which the listener starts serving a new request: the
    registry, the listeners and the record of calls carry over, the response
    is new. *)
Definition arrival (σ : State T) : State T :=
  {| activeTransports := activeTransports σ; closed := closed σ;
     listening := listening σ; attached := attached σ;
     res := freshResponse; log := log σ |}.

Definition serve (req : IncomingMessage) (σ : State T) : outcome unit * State T :=
  requestListener req (arrival σ).

(** Modelled from the spec: relayed application traffic (section 4.3,
    "every response or notification arriving from the Upstream Channel
    destined for this session is forwarded unchanged to the session's
    push-channel").  The relay is the per-session server that [createServer]
    returns, wired to the upstream by [proxyServer], which is not among the
    sources; it can write to a push-channel only through a transport it was
    handed by [server.connect]. *)
Definition relay (server : T) (transport : SSEServerTransport) (message : json)
  : M T unit :=
  wired ← gets attached ;
  if bool_decide ((server, transport) ∈ wired) then
    emit (Relayed server transport message)
  else mret tt.

End Listener.

(** What reaches the listener over its lifetime, each as a task of its
    own: a request, served while the platform answers as [pf]; the [close]
    event of the response for which the listener of [server] and
    [transport] was attached; a message that [server] relays down the
    push-channel of [transport]. *)
Inductive input (T : Type) :=
| Request (pf : Platform) (req : IncomingMessage)
| Close (server : T) (transport : SSEServerTransport)
| Relay (server : T) (transport : SSEServerTransport) (message : json).
Arguments Request {T}.
Arguments Close {T}.
Arguments Relay {T}.

Definition react {T : Type} `{ServerLike T} (cfg : Config T)
    (σ : State T) (i : input T) : State T :=
  match i with
  | Request pf req => (serve cfg pf req σ).2
  | Close server transport => (deliver cfg server transport σ).2
  | Relay server transport message => (relay server transport message σ).2
  end.

Definition runAll {T : Type} `{ServerLike T} (cfg : Config T)
    (σ : State T) (inputs : list (input T)) : State T :=
  foldl (react cfg) σ inputs.

(** The listener right after [startSSEServer] returns: no session yet. *)
Definition initial {T : Type} : State T :=
  {| activeTransports := ∅; closed := ∅; listening := []; attached := [];
     res := freshResponse; log := [] |}.

End SSE.

(** ** The message bridge *)

Module Bridge.

(** Modelled from the spec: a response as the bridge writes it to a
    push-channel.  ([proxyServer] and the SDK client it drives, which relay
    between the sessions and the upstream channel, are not among the
    sources.) *)
Record Response := {
  id : nat;            (* the identifier the session chose for its request *)
  result : string;
  answers : nat        (* the upstream identifier this response arrived under *)
}.

(** Modelled from the spec: the bridge's bookkeeping for the one shared
    upstream channel (section 4.3, correlation policy). *)
Record State := {
  nextId : nat;                              (* next identifier on the upstream channel *)
  owners : gmap nat (string * nat);          (* upstream identifier ↦ owning session and its identifier *)
  upstream : list (nat * string);            (* what was written to the upstream channel *)
  pushed : gmap string (list Response);      (* what was written to each push-channel *)
  dropped : list nat;                        (* unmatched responses *)
  forwarded : list (nat * (string * nat))    (* every request ever forwarded: upstream identifier, issuer, issuer's identifier *)
}.

Definition initial : State :=
  {| nextId := 0; owners := ∅; upstream := []; pushed := ∅; dropped := [];
     forwarded := [] |}.

(** Modelled from the spec: what happens on the bridge.  A session submits
    a request; the upstream channel emits a response; a session's
    push-channel closes. *)
Inductive action :=
| Submit (session : string) (requestId : nat) (payload : string)
| Respond (upstreamId : nat) (outcome : string)
| Detach (session : string).

(** Modelled from the spec: the relay of section 4.3.  A submitted request
    goes upstream under a fresh identifier, and its session is registered
    as the owner of that identifier; a response is forwarded, under the
    session's own identifier, only to the registered owner of the
    identifier it arrives under, and is dropped when there is none; a
    closing session's pending requests are discarded. *)
Definition step (s : State) (a : action) : State :=
  match a with
  | Submit session requestId payload =>
      {| nextId := S (nextId s);
         owners := <[nextId s := (session, requestId)]> (owners s);
         upstream := upstream s ++ [(nextId s, payload)];
         pushed := pushed s;
         dropped := dropped s;
         forwarded := forwarded s ++ [(nextId s, (session, requestId))] |}
  | Respond upstreamId outcome =>
      match owners s !! upstreamId with
      | Some (session, requestId) =>
          {| nextId := nextId s;
             owners := delete upstreamId (owners s);
             upstream := upstream s;
             pushed := <[session := (default [] (pushed s !! session) ++
                                     [{| id := requestId; result := outcome;
                                         answers := upstreamId |}])%list]> (pushed s);
             dropped := dropped s;
             forwarded := forwarded s |}
      | None =>
          {| nextId := nextId s; owners := owners s; upstream := upstream s;
             pushed := pushed s; dropped := dropped s ++ [upstreamId];
             forwarded := forwarded s |}
      end
  | Detach session =>
      {| nextId := nextId s;
         owners := filter (fun entry => fst (snd entry) ≠ session) (owners s);
         upstream := upstream s; pushed := pushed s; dropped := dropped s;
         forwarded := forwarded s |}
  end.

Definition run (s : State) (trace : list action) : State := foldl step s trace.

(** What session [session] has received on its push-channel. *)
Definition received (s : State) (session : string) : list Response :=
  default [] (pushed s !! session).

(** What holds of the bridge after the actions [trace].  The identifiers
    on the upstream channel are fresh, hence pairwise distinct.  Every
    registered owner submitted the request it owns, which went upstream
    under the identifier it is registered for.  Every response on a
    session's push-channel carries the outcome the upstream gave under the
    identifier under which a request of that very session went upstream,
    and the identifier that session chose for it. *)
Record invariant (trace : list action) : Prop := {
  upstream_below : ∀ u p,
    (u, p) ∈ upstream (run initial trace) -> u < nextId (run initial trace);
  upstream_once : NoDup (upstream (run initial trace)).*1;
  owners_submitted : ∀ u B i,
    owners (run initial trace) !! u = Some (B, i) ->
    ∃ payload before after,
      trace = (before ++ Submit B i payload :: after)%list
      ∧ u = nextId (run initial before);
  received_answered : ∀ B r,
    r ∈ received (run initial trace) B ->
    ∃ payload before middle after,
      trace = (before ++ Submit B (id r) payload
                 :: middle ++ Respond (answers r) (result r) :: after)%list
      ∧ answers r = nextId (run initial before)
}.

End Bridge.


(** ** Vocabulary of the listener's properties *)

Module Terms.
Import JS SSE.

Section Terms.
Context {T : Type}.
Variable cfg : Config T.

(** The request is a connect attempt: it reaches the branch of line 82. *)
Definition isConnect (req : IncomingMessage) : bool :=
  (method req =? "GET") && negb (url req =? "/ping")
  && startsWith (url req) (endpoint cfg).

(** The request is a message post: it reaches the branch of line 186. *)
Definition isMessage (req : IncomingMessage) : bool :=
  (method req =? "POST") && startsWith (url req) "/messages".

(** The configured authentication rejects the credential [key]: the auth
    handler resolves to [null], or, without a handler, the static key is set
    and differs. *)
Definition rejects (key : credential) : Prop :=
  match authHandler cfg with
  | Some handler => handler key = Returns None
  | None => ∃ k, apiKey cfg = Some k ∧ truthy_str k = true ∧ key ≠ Text k
  end.

(** The configured authentication admits the credential [key], and the
    session it opens carries [userId] and [env]. *)
Definition admits (key : credential) (userId : option string) (env : option Env) : Prop :=
  match authHandler cfg with
  | Some handler =>
      ∃ r, handler key = Returns (Some r)
           ∧ userId = Some (AuthResult.userId r) ∧ env = AuthResult.env r
  | None =>
      (truthy_ostr (apiKey cfg) = false ∨ Text <$> apiKey cfg = Some key)
      ∧ userId = None ∧ env = None
  end.

(** The calls made while authenticating the credential [key]. *)
Definition authCalls (key : credential) : list (event T) :=
  match authHandler cfg with
  | Some _ => [AuthHandlerCalled key]
  | None => []
  end.

(** The state after [headers] were set on the response. *)
Definition withHeaders (headers : list (string * string)) (σ : State T) : State T :=
  {| activeTransports := activeTransports σ; closed := closed σ;
     listening := listening σ; attached := attached σ;
     res := {| responseHeaders := responseHeaders (res σ) ++ headers;
               statusCode := statusCode (res σ); body := body (res σ);
               headersSent := headersSent (res σ) |};
     log := log σ |}.

(** The state after [status] and [text] were written to the response and
    [calls] were made. *)
Definition answered (status : nat) (text : string) (calls : list (event T))
    (σ : State T) : State T :=
  {| activeTransports := activeTransports σ; closed := closed σ;
     listening := listening σ; attached := attached σ;
     res := {| responseHeaders := responseHeaders (res σ);
               statusCode := Some status; body := Some text;
               headersSent := true |};
     log := log σ ++ calls |}.

(** The state after [calls] were made. *)
Definition called (calls : list (event T)) (σ : State T) : State T :=
  {| activeTransports := activeTransports σ; closed := closed σ;
     listening := listening σ; attached := attached σ;
     res := res σ; log := log σ ++ calls |}.

(** What lines 138-146 answer when the factory fails with [e]. *)
Definition factoryFailureStatus (e : error) : nat :=
  match e with
  | ResponseError status _ => status
  | _ => 500
  end.

Definition factoryFailureText (e : error) : string :=
  match e with
  | ResponseError _ statusText => statusText
  | _ => "Error creating server"
  end.

(** The calls a listener makes on [onClose] and [onConnect] when they are
    configured. *)
Definition onCloseCalls (server : T) : list (event T) :=
  match onClose cfg with
  | Some _ => [OnClose server]
  | None => []
  end.

Definition onConnectCalls (server : T) (userId : option string) : list (event T) :=
  match onConnect cfg with
  | Some _ => [OnConnect server userId]
  | None => []
  end.

(** The session [establish] registers for an admitted connect request. *)
Definition sessionOf (sid : string) (userId : option string) (env : option Env)
    (key : credential) : Session.t :=
  {| Session.transport := {| sessionId := sid |}; Session.userId := userId;
     Session.env := env; Session.apiKey := key |}.

(** The state after lines 148-152: the session is registered, its [closed]
    flag is down, and the close listener is pending unless the connection
    has closed already. *)
Definition registered (pf : Platform) (server : T) (transport : SSEServerTransport)
    (userId : option string) (env : option Env) (key : credential)
    (σ : State T) : State T :=
  {| activeTransports :=
       <[sessionId transport :=
           {| Session.transport := transport; Session.userId := userId;
              Session.env := env; Session.apiKey := key |}]> (activeTransports σ);
     closed := closed σ ∖ {[sessionId transport]};
     listening := if closesBeforeListener pf then listening σ
                  else (server, transport) :: listening σ;
     attached := attached σ;
     res := res σ;
     log := log σ ++ [CloseListenerAdded server transport] |}.

(** The state an admitted connect request is in once the handler has
    attached the server: the session is registered, the close listener is
    pending unless the connection has closed already, the server holds the
    transport. *)
Definition attaching (pf : Platform) (req : IncomingMessage) (userId : option string)
    (env : option Env) (key : credential) (server : T) (σ : State T) : State T :=
  let transport := {| sessionId := randomUUID pf |} in
  {| activeTransports :=
       <[randomUUID pf := sessionOf (randomUUID pf) userId env key]> (activeTransports σ);
     closed := closed σ ∖ {[randomUUID pf]};
     listening := if closesBeforeListener pf then listening σ
                  else (server, transport) :: listening σ;
     attached := (server, transport) :: attached σ;
     res := {| responseHeaders := responseHeaders (res σ);
               statusCode := statusCode (res σ); body := body (res σ);
               headersSent := headersSent (res σ) || connectSendsHead pf |};
     log := log σ ++
            [ TransportCreated transport;
              CreateServerCalled req userId env;
              CloseListenerAdded server transport;
              ServerConnect server transport ] |}.

(** The [sessionId] query parameter of a posted message, as line 190 reads
    it; [None] when the address does not parse. *)
Definition postedSessionId (pf : Platform) (req : IncomingMessage)
  : option (option string) :=
  match URL_searchParams pf (url req) "https://example.com" with
  | Some get => Some (get "sessionId")
  | None => None
  end.

(** Every session is registered under the [sessionId] of its own
    transport (line 148). *)
Definition registryKeyed (σ : State T) : Prop :=
  ∀ k s, activeTransports σ !! k = Some s -> sessionId (Session.transport s) = k.

(** From [σ] to [σ'], the registry only lost sessions or gained sessions
    stored under the id of their own transport. *)
Definition keyedStep (σ σ' : State T) : Prop :=
  ∀ k s, activeTransports σ' !! k = Some s ->
         activeTransports σ !! k = Some s ∨ sessionId (Session.transport s) = k.

(** The program [m] only ever takes such steps. *)
Definition keeps {A} (m : M T A) : Prop := ∀ σ, keyedStep σ (m σ).2.

(** [onConnect], when configured, returns normally. *)
Definition onConnectReturns (server : T) (userId : option string) : Prop :=
  match onConnect cfg with
  | Some f => f server userId = Returns tt
  | None => True
  end.

(** The number of [onClose] notifications among [calls]. *)
Definition isOnClose (e : event T) : bool :=
  match e with
  | OnClose _ => true
  | _ => false
  end.

Definition countOnClose (calls : list (event T)) : nat :=
  length (List.filter isOnClose calls).


End Terms.
End Terms.

(** ** Concrete scenarios *)

Module Scenario.
Import JS.

(** An auth server that answers every lookup with [{"valid": true}]. *)
Definition encodePlain (s : string) : outcome string := Returns s.

Definition replyValid : McpProxy.FetchResponse :=
  {| McpProxy.ok := true; McpProxy.status := 200;
     McpProxy.json_body := Returns (JObj [ ("valid", JBool true) ]) |}.

Definition fetchValid (_ : string) : outcome McpProxy.FetchResponse :=
  Returns replyValid.

(** A per-session server that attaches without fault; [Stubborn] throws
    when asked to close. *)
Inductive server := Healthy | Stubborn.

#[global] Instance server_eq_dec : EqDecision server.
Proof. solve_decision. Defined.

#[global] Instance server_like : SSE.ServerLike server := {|
  SSE.connect := fun _ _ => Returns tt;
  SSE.close := fun s =>
    match s with
    | Healthy => Returns tt
    | Stubborn => Throws (OtherError "close failed")
    end
|}.

(** A listener on [/sse] with no auth handler and no static key, whose
    factory is [factory]. *)
Definition listener
    (factory : SSE.IncomingMessage -> option string -> option Env -> outcome server)
  : SSE.Config server :=
  {| SSE.port := 8080%N; SSE.endpoint := "/sse"; SSE.createServer := factory;
     SSE.onConnect := None;
     SSE.onClose := Some (fun _ => Returns tt);
     SSE.onUnhandledRequest := None; SSE.apiKey := None;
     SSE.apiKeyHeaderName := None; SSE.authHandler := None |}.

Definition open : SSE.Config server := listener (fun _ _ _ => Returns Healthy).



(** The same listener with the static key ["secret"]. *)
Definition keyed : SSE.Config server :=
  {| SSE.port := 8080%N; SSE.endpoint := "/sse";
     SSE.createServer := fun _ _ _ => Returns Healthy;
     SSE.onConnect := None; SSE.onClose := None;
     SSE.onUnhandledRequest := None; SSE.apiKey := Some "secret";
     SSE.apiKeyHeaderName := None; SSE.authHandler := None |}.

(** A listener whose stream endpoint is [/p]. *)
Definition short : SSE.Config server :=
  {| SSE.port := 8080%N; SSE.endpoint := "/p";
     SSE.createServer := fun _ _ _ => Returns Healthy;
     SSE.onConnect := None; SSE.onClose := None;
     SSE.onUnhandledRequest := None; SSE.apiKey := None;
     SSE.apiKeyHeaderName := None; SSE.authHandler := None |}.

(** A platform that draws the session id [sid] and reads the query
    parameter [sessionId] of every address as [posted]. *)
Definition platform (sid : string) (posted : option string) : SSE.Platform :=
  {| SSE.URL_searchParams := fun _ _ =>
       Some (fun name => if name =? "sessionId" then posted else None);
     SSE.URL_origin := fun origin => Some origin;
     SSE.randomUUID := sid;
     SSE.send := fun _ _ => Returns tt;
     SSE.handlePostMessage := fun _ _ => Returns tt;
     SSE.connectSendsHead := true;
     SSE.closes := None |}.

Definition get (address : string) (key : option string) : SSE.IncomingMessage :=
  {| SSE.method := "GET"; SSE.url := address;
     SSE.headers := match key with
                    | Some k => {[ "x-api-key" := k ]}
                    | None => ∅
                    end |}.

Definition post (address : string) : SSE.IncomingMessage :=
  {| SSE.method := "POST"; SSE.url := address; SSE.headers := ∅ |}.

(** A listener with two active sessions, [sA] and [sB]; the server of
    [sA] is one that will not close. *)
Definition twoSessions : SSE.State server :=
  {| SSE.activeTransports :=
       {[ "sA" := Terms.sessionOf "sA" None None (Text "kA");
          "sB" := Terms.sessionOf "sB" None None (Text "kB") ]};
     SSE.closed := ∅;
     SSE.listening := [ (Stubborn, {| SSE.sessionId := "sA" |});
                        (Healthy, {| SSE.sessionId := "sB" |}) ];
     SSE.attached := [ (Stubborn, {| SSE.sessionId := "sA" |});
                       (Healthy, {| SSE.sessionId := "sB" |}) ];
     SSE.res := SSE.freshResponse; SSE.log := [] |}.

(** Two clients connect, and are given the session ids [sA] and [sB]. *)
Definition twoConnects : list (SSE.input server) :=
  [ SSE.Request (platform "sA" None) (get "/sse" (Some "kA"));
    SSE.Request (platform "sB" None) (get "/sse" (Some "kB")) ].

(** Two sessions submit a request under the same identifier 1; the
    upstream answers the second request first. *)
Definition crossing : list Bridge.action :=
  [ Bridge.Submit "sA" 1 "tools/list"; Bridge.Submit "sB" 1 "tools/call";
    Bridge.Respond 1 "for B"; Bridge.Respond 0 "for A" ].

(** The program starts with an environment that has no [T]; the auth
    resolver then supplies [{T: "v1"}] for a session.  The worker is
    identified with the environment it was started from. *)
Definition bare : McpProxy.Process (gmap string string) :=
  {| McpProxy.process_env := {[ "PATH" := "/usr/bin" ]}; McpProxy.worker := None |}.

Definition sessionEnv : Env := [ ("T", Some "v1") ].

Definition proxyVersion : McpProxy.ServerVersion :=
  {| McpProxy.name := "upstream"; McpProxy.version := "1.0.0" |}.

(** The listener's state right after start-up. *)
Definition started : SSE.State server := SSE.initial.

End Scenario.

(** ** Shutting the listener down *)

Module Shutdown.
Import JS SSE.

(** The calls [close] (lines 234-248) makes. *)
Inductive call :=
| TransportClose (transport : SSEServerTransport)
| HttpServerClose.

(** [Object.values(activeTransports)], the registry's sessions in the order
    [order] in which their keys were inserted (session ids are UUIDs, none
    is an array index). *)
Definition values (order : list string) (registry : gmap string Session.t)
  : list Session.t :=
  omap (fun key => registry !! key) order.

(** The call that closes the transport of [session]. *)
Definition closing (session : Session.t) : call :=
  TransportClose (Session.transport session).

(** The loop of lines 235-237: [await session.transport.close()] for each
    session in turn; a rejection ends the loop. *)
Fixpoint closeTransports (transportClose : SSEServerTransport -> outcome unit)
    (sessions : list Session.t) : outcome unit * list call :=
  match sessions with
  | [] => (Returns tt, [])
  | session :: rest =>
      match transportClose (Session.transport session) with
      | Returns _ =>
          let (o, calls) := closeTransports transportClose rest in
          (o, TransportClose (Session.transport session) :: calls)
      | Throws e => (Throws e, [TransportClose (Session.transport session)])
      end
  end.

(** [close], lines 234-248.  [httpServerClose] is the error, if any, that
    [httpServer.close] hands to its callback. *)
Definition close (transportClose : SSEServerTransport -> outcome unit)
    (httpServerClose : option error) (order : list string)
    (registry : gmap string Session.t) : outcome unit * list call :=
  match closeTransports transportClose (values order registry) with
  | (Returns _, calls) =>
      (match httpServerClose with
       | Some e => Throws e
       | None => Returns tt
       end, (calls ++ [HttpServerClose])%list)
  | (Throws e, calls) => (Throws e, calls)
  end.

(** [order] lists the keys of [registry], each once. *)
Definition enumerates (order : list string) (registry : gmap string Session.t) : Prop :=
  NoDup order ∧ ∀ key, key ∈ order ↔ is_Some (registry !! key).

(** Every session of [registry] is stored under the id of its transport
    (as line 148 stores it). *)
Definition keyed (registry : gmap string Session.t) : Prop :=
  ∀ key session, registry !! key = Some session ->
                 sessionId (Session.transport session) = key.

(** How often [transport] is closed among [calls]. *)
Definition closings (transport : SSEServerTransport) (calls : list call) : nat :=
  List.length
    (List.filter
       (fun c => match c with
                 | TransportClose t => String.eqb (sessionId t) (sessionId transport)
                 | HttpServerClose => false
                 end) calls).

End Shutdown.

(** ** More scenarios *)

Module Cases.
Import JS.

(** A per-session server that cannot attach. *)
Inductive refusing := Refusing.

#[global] Instance refusing_eq_dec : EqDecision refusing.
Proof. solve_decision. Defined.

#[global] Instance refusing_like : SSE.ServerLike refusing := {|
  SSE.connect := fun _ _ => Throws (OtherError "cannot attach");
  SSE.close := fun _ => Returns tt
|}.

(** The open listener of [Scenario], for servers of that kind. *)
Definition unattachable : SSE.Config refusing :=
  {| SSE.port := 8080%N; SSE.endpoint := "/sse";
     SSE.createServer := fun _ _ _ => Returns Refusing;
     SSE.onConnect := None;
     SSE.onClose := Some (fun _ => Returns tt);
     SSE.onUnhandledRequest := None; SSE.apiKey := None;
     SSE.apiKeyHeaderName := None; SSE.authHandler := None |}.

(** A platform on which [server.connect] settles before the transport has
    started the stream. *)
Definition silent (sid : string) : SSE.Platform :=
  {| SSE.URL_searchParams := fun _ _ => Some (fun _ => None);
     SSE.URL_origin := fun origin => Some origin;
     SSE.randomUUID := sid;
     SSE.send := fun _ _ => Returns tt;
     SSE.handlePostMessage := fun _ _ => Returns tt;
     SSE.connectSendsHead := false;
     SSE.closes := None |}.

(** A platform on which the client has hung up before the handler reaches
    line 152, while the auth handler or the factory was awaited. *)
Definition leavingEarly (sid : string) : SSE.Platform :=
  {| SSE.URL_searchParams := fun _ _ => Some (fun _ => None);
     SSE.URL_origin := fun origin => Some origin;
     SSE.randomUUID := sid;
     SSE.send := fun _ _ => Returns tt;
     SSE.handlePostMessage := fun _ _ => Returns tt;
     SSE.connectSendsHead := true;
     SSE.closes := Some SSE.BeforeListener |}.

(** A platform on which the response closes while the server attaches. *)
Definition hangingUp (sid : string) : SSE.Platform :=
  {| SSE.URL_searchParams := fun _ _ => Some (fun _ => None);
     SSE.URL_origin := fun origin => Some origin;
     SSE.randomUUID := sid;
     SSE.send := fun _ _ => Throws (OtherError "not connected");
     SSE.handlePostMessage := fun _ _ => Returns tt;
     SSE.connectSendsHead := true;
     SSE.closes := Some SSE.DuringConnect |}.

End Cases.

(** ** Laws of handler programs *)

Module Laws.
Import JS SSE.

Section Laws.
Context {T : Type}.

(** Every run of [m] takes the state along the relation [R]. *)
Definition respects {A} (R : State T -> State T -> Prop) (m : M T A) : Prop :=
  ∀ σ, R σ (m σ).2.

(** No run of [m] throws. *)
Definition returns {A} (m : M T A) : Prop :=
  ∀ σ, ∃ a, (m σ).1 = Returns a.

(** Every run of [m] from a state in [I] ends in [I]. *)
Definition maintains {A} (I : State T -> Prop) (m : M T A) : Prop :=
  ∀ σ, I σ -> I (m σ).2.

(** The connection of the transport [sid] has closed and was torn down:
    its session is gone, its [closed] flag is set, [server.close] was
    called, and the response reads [r]. *)
Definition tornDown (sid : string) (server : T) (r : ServerResponse) (σ : State T) : Prop :=
  activeTransports σ !! sid = None
  ∧ sid ∈ closed σ
  ∧ ServerClose server ∈ log σ
  ∧ res σ = r.

(** The registry entry under [key] is the same in both states. *)
Definition sameEntry (key : string) (σ σ' : State T) : Prop :=
  activeTransports σ' !! key = activeTransports σ !! key.


(** What the [catch] block of lines 176-181 does on a connection that is
    still open: it answers 500, which throws when the head has been sent. *)
Definition failedAttach (σ : State T) : outcome unit * State T :=
  if headersSent (res σ) then (Throws ERR_HTTP_HEADERS_SENT, σ)
  else (Returns tt, Terms.answered 500 "Error connecting to server" [] σ).


(** The headers set on the response are the same in both states. *)
Definition sameHeaders (σ σ' : State T) : Prop :=
  responseHeaders (res σ') = responseHeaders (res σ).

(** From [σ] to [σ'] calls were only added to the record. *)
Definition grows (σ σ' : State T) : Prop :=
  ∃ calls, log σ' = (log σ ++ calls)%list.



(** No close listener is pending for the transport [sid]: a [close] event
    of its response would find nothing to run. *)
Definition deaf (sid : string) (σ : State T) : Prop :=
  ∀ server, (server, {| sessionId := sid |}) ∉ listening σ.

(** The registry and the pending close listeners are the same in both
    states. *)
Definition sameSessions (σ σ' : State T) : Prop :=
  activeTransports σ' = activeTransports σ ∧ listening σ' = listening σ.

(** Every registered session has a close listener pending. *)
Definition allListening (σ : State T) : Prop :=
  ∀ key session,
    activeTransports σ !! key = Some session ->
    ∃ server, (server, {| sessionId := key |}) ∈ listening σ.

End Laws.

(** The input does not concern the session id [key]: it is neither the
    close event of that session's transport nor a request during which a
    new transport draws that id. *)
Definition passesBy {T : Type} (key : string) (i : input T) : Prop :=
  match i with
  | Request pf _ => randomUUID pf ≠ key
  | Close _ transport => sessionId transport ≠ key
  | Relay _ _ _ => True
  end.

(** The input is no request during which a new transport draws the session
    id [key]. *)
Definition drawsAnother {T : Type} (key : string) (i : input T) : Prop :=
  match i with
  | Request pf _ => randomUUID pf ≠ key
  | Close _ _ | Relay _ _ _ => True
  end.

(** The CORS headers of lines 62-65 for the origin [origin]. *)
Definition reflected (origin : string) : list (string * string) :=
  [ ("Access-Control-Allow-Origin", origin);
    ("Access-Control-Allow-Credentials", "true");
    ("Access-Control-Allow-Methods", "GET, POST, OPTIONS");
    ("Access-Control-Allow-Headers", "*") ].

(** The origin the listener reflects for a request (lines 58-61): the
    parsed [Origin] header, when there is one and it parses. *)
Definition allowedOrigin (pf : Platform) (req : IncomingMessage) : option string :=
  if truthy_ostr (headers req !! "origin") then
    URL_origin pf (default "" (headers req !! "origin"))
  else None.

Definition corsHeaders (pf : Platform) (req : IncomingMessage) : list (string * string) :=
  match allowedOrigin pf req with
  | Some origin => reflected origin
  | None => []
  end.

(** The base against which line 95 resolves the address of a connect
    request, [`http://${req.headers.host}`]. *)
Definition connectBase (req : IncomingMessage) : string :=
  "http://" ++ default "undefined" (headers req !! "host").

(** The [apiKey] query parameter of a connect request, as line 96 reads it;
    [None] when the address does not parse or has no such parameter. *)
Definition queryApiKey (pf : Platform) (req : IncomingMessage) : option string :=
  match URL_searchParams pf (url req) (connectBase req) with
  | Some get => get "apiKey"
  | None => None
  end.

(** The header read of line 90 finds nothing: the request carries the
    configured header with an empty value, or does not carry it and its
    name is no member name of [Object.prototype]. *)
Definition headerFindsNothing {T : Type} (cfg : Config T) (req : IncomingMessage) : Prop :=
  let name := toLowerCase (headerName cfg) in
  headers req !! name = Some ""
  ∨ (headers req !! name = None ∧ is_object_prototype_key name = false).

(** The configuration [cfg] with the header name [name]. *)
Definition withHeaderName {T : Type} (name : option string) (cfg : Config T) : Config T :=
  {| port := port cfg; endpoint := endpoint cfg; createServer := createServer cfg;
     onConnect := onConnect cfg; onClose := onClose cfg;
     onUnhandledRequest := onUnhandledRequest cfg; apiKey := apiKey cfg;
     apiKeyHeaderName := name; authHandler := authHandler cfg |}.

(** The request reaches none of the listener's own routes. *)
Definition isUnhandled {T : Type} (cfg : Config T) (req : IncomingMessage) : bool :=
  negb (method req =? "OPTIONS")
  && negb ((method req =? "GET") && (url req =? "/ping"))
  && negb ((method req =? "GET") && startsWith (url req) (endpoint cfg))
  && negb ((method req =? "POST") && startsWith (url req) "/messages").

End Laws.

(** * Properties *)

(** ** Authentication against the auth server *)

Section VerifyApiKeyFacts.
Import JS McpProxy.
Variable encodeURIComponent : string -> outcome string.
Variable fetch : string -> outcome FetchResponse.

Lemma try_catch_null {A} (m : outcome (option A)) :
  ∃ r, try_catch m (fun _ => Returns None) = Returns r.
Proof. destruct m as [a|e]; simpl; eauto. Qed.

Lemma verifyApiKey_returns apiKey authServerUrl :
  ∃ r, verifyApiKey encodeURIComponent fetch apiKey authServerUrl = Returns r.
Proof.
  unfold verifyApiKey.
  destruct (truthy_str authServerUrl); simpl; [apply try_catch_null | eauto].
Qed.

Lemma verifyApiKey_reply apiKey authServerUrl encoded response :
  truthy_str authServerUrl = true ->
  encodeURIComponent apiKey = Returns encoded ->
  fetch (lookupUrl authServerUrl encoded) = Returns response ->
  verifyApiKey encodeURIComponent fetch apiKey authServerUrl =
    try_catch
      (if negb (ok response) then Returns None
       else
         obind (json_body response) (fun data =>
         obind (member data "valid") (fun valid =>
         if truthy valid then
           obind (member data "userId") (fun uid =>
           obind (member data "permissions") (fun perms =>
           obind (member data "env") (fun e =>
           Returns (Some {| userId := or_default uid (JStr (derivedUserId apiKey));
                            permissions := Some (or_default perms (JArr []));
                            env := Some (or_default e (JObj [])) |}))))
         else Returns None)))
      (fun _ => Returns None).
Proof.
  intros Hurl Henc Hfetch. unfold verifyApiKey.
  rewrite Hurl, Henc. simpl. rewrite Hfetch. reflexivity.
Qed.

End VerifyApiKeyFacts.

(** C4.  [verifyApiKey] never throws.  It returns [null] when the request
    cannot be built or sent (a transport error), when the reply has a
    non-success status, when the reply's body cannot be read, and when the
    body's [valid] flag is false or absent.  On a successful reply whose
    [valid] flag is true it returns an identity: [userId] is the reply's, or
    ["user-"] followed by the first 8 characters of the credential when the
    reply omits it; [permissions] defaults to [[]] and [env] to [{}]. *)
Theorem C4_verifyApiKey_fails_closed
    (encodeURIComponent : string -> JS.outcome string)
    (fetch : string -> JS.outcome McpProxy.FetchResponse)
    (apiKey authServerUrl : string) :
  let verify := McpProxy.verifyApiKey encodeURIComponent fetch apiKey authServerUrl in
  (∃ r, verify = JS.Returns r)
  ∧ (∀ e, encodeURIComponent apiKey = JS.Throws e -> verify = JS.Returns None)
  ∧ (∀ encoded, encodeURIComponent apiKey = JS.Returns encoded ->
      (∀ e, fetch (McpProxy.lookupUrl authServerUrl encoded) = JS.Throws e ->
            verify = JS.Returns None)
      ∧ (∀ response,
          fetch (McpProxy.lookupUrl authServerUrl encoded) = JS.Returns response ->
          (McpProxy.ok response = false -> verify = JS.Returns None)
          ∧ (∀ e, McpProxy.json_body response = JS.Throws e -> verify = JS.Returns None)
          ∧ (∀ data, McpProxy.json_body response = JS.Returns data ->
               (∀ e, JS.member data "valid" = JS.Throws e -> verify = JS.Returns None)
               ∧ (∀ valid, JS.member data "valid" = JS.Returns valid ->
                    JS.truthy valid = false -> verify = JS.Returns None))
          ∧ (∀ fields,
               JS.truthy_str authServerUrl = true ->
               McpProxy.ok response = true ->
               McpProxy.json_body response = JS.Returns (JS.JObj fields) ->
               JS.truthy (JS.assoc "valid" fields) = true ->
               ∃ r, verify = JS.Returns (Some r)
                 ∧ McpProxy.userId r =
                     JS.or_default (JS.assoc "userId" fields)
                       (JS.JStr ("user-" ++ JS.substring0 8 apiKey))
                 ∧ McpProxy.permissions r =
                     Some (JS.or_default (JS.assoc "permissions" fields) (JS.JArr []))
                 ∧ McpProxy.env r =
                     Some (JS.or_default (JS.assoc "env" fields) (JS.JObj []))
                 ∧ (JS.assoc "userId" fields = None ->
                    McpProxy.userId r = JS.JStr ("user-" ++ JS.substring0 8 apiKey))
                 ∧ (JS.assoc "permissions" fields = None ->
                    McpProxy.permissions r = Some (JS.JArr []))
                 ∧ (JS.assoc "env" fields = None ->
                    McpProxy.env r = Some (JS.JObj []))))).
Proof.
  intros verify. split; [apply verifyApiKey_returns |].
  assert (Hempty : JS.truthy_str authServerUrl = false -> verify = JS.Returns None).
  { intros Hu. unfold verify, McpProxy.verifyApiKey. rewrite Hu. reflexivity. }
  split.
  - intros e Henc. destruct (JS.truthy_str authServerUrl) eqn:Hu; [| auto].
    unfold verify, McpProxy.verifyApiKey. rewrite Hu, Henc. reflexivity.
  - intros encoded Henc. split.
    + intros e Hf. destruct (JS.truthy_str authServerUrl) eqn:Hu; [| auto].
      unfold verify, McpProxy.verifyApiKey. rewrite Hu, Henc. simpl.
      rewrite Hf. reflexivity.
    + intros response Hf.
      assert (Hreply : JS.truthy_str authServerUrl = true -> verify = _)
        by (intros Hu; exact (verifyApiKey_reply _ _ _ _ _ _ Hu Henc Hf)).
      split; [| split; [| split]].
      * intros Hok. destruct (JS.truthy_str authServerUrl) eqn:Hu; [| auto].
        rewrite Hreply by reflexivity. rewrite Hok. reflexivity.
      * intros e Hbody. destruct (JS.truthy_str authServerUrl) eqn:Hu; [| auto].
        rewrite Hreply by reflexivity. rewrite Hbody.
        destruct (McpProxy.ok response); reflexivity.
      * intros data Hbody.
        destruct (JS.truthy_str authServerUrl) eqn:Hu; [| split; auto].
        rewrite Hreply by reflexivity. rewrite Hbody. simpl. split.
        -- intros e Hm. rewrite Hm. destruct (McpProxy.ok response); reflexivity.
        -- intros valid Hm Hv. rewrite Hm. simpl. rewrite Hv.
           destruct (McpProxy.ok response); reflexivity.
      * intros fields Hu Hok Hbody Hvalid.
        rewrite Hreply by assumption. rewrite Hok, Hbody. simpl.
        rewrite Hvalid. simpl. eexists. split; [reflexivity |].
        simpl. repeat split; intros ->; reflexivity.
Qed.

(** C4 at the auth server of [Scenario]: the reply [{"valid": true}] names
    no user, so the identity is derived from the credential. *)
Lemma C4_verifyApiKey_witness :
  ∃ r, McpProxy.verifyApiKey Scenario.encodePlain Scenario.fetchValid
         "abcdefghijkl" "http://auth.example/verify" = JS.Returns (Some r)
    ∧ McpProxy.userId r = JS.JStr "user-abcdefgh"
    ∧ McpProxy.permissions r = Some (JS.JArr [])
    ∧ McpProxy.env r = Some (JS.JObj []).
Proof.
  destruct (C4_verifyApiKey_fails_closed Scenario.encodePlain Scenario.fetchValid
              "abcdefghijkl" "http://auth.example/verify") as (_ & _ & Hk).
  destruct (Hk "abcdefghijkl" eq_refl) as [_ Hr].
  destruct (Hr Scenario.replyValid eq_refl) as (_ & _ & _ & Hok).
  destruct (Hok [ ("valid", JS.JBool true) ] eq_refl eq_refl eq_refl eq_refl)
    as (r & Hv & _ & _ & _ & Hu & Hp & He).
  exists r. repeat split; [exact Hv | apply Hu | apply Hp | apply He]; reflexivity.
Defined.

(** ** The listener *)

Section ListenerFacts.
Import JS SSE Terms.
Context {T : Type} `{ServerLike T}.
Variable cfg : Config T.
Variable pf : Platform.

Ltac run :=
  repeat (unfold mbind, M_bind, mret, M_ret, emit, writeHead, end_, withRes,
            setHeader, modify, gets, await, attempt, try_M, setTransport,
            deleteTransport, setClosed, isClosed, listen, unlisten, attach,
            streamStarted; simpl).

Lemma withHeaders_nil (σ : State T) : withHeaders [] σ = σ.
Proof.
  unfold withHeaders. rewrite app_nil_r. destruct σ as [? ? ? ? [] ?]. reflexivity.
Qed.

Lemma cors_run req (σ : State T) :
  ∃ hs, cors pf req σ = (Returns tt, withHeaders hs σ)
        ∧ (headersSent (res σ) = true -> hs = []).
Proof.
  unfold cors.
  destruct (truthy_ostr (headers req !! "origin"));
    [| exists []; rewrite withHeaders_nil; auto].
  destruct (URL_origin pf _) as [origin |];
    [| exists []; rewrite withHeaders_nil; auto].
  destruct (headersSent (res σ)) eqn:Hsent.
  - exists []. rewrite withHeaders_nil. run. rewrite Hsent. auto.
  - eexists. split; [| discriminate]. run. rewrite Hsent. run.
    unfold withHeaders. simpl. rewrite Hsent.
    repeat rewrite <- app_assoc. reflexivity.
Qed.

Lemma serve_connect req (σ : State T) :
  isConnect cfg req = true ->
  ∃ hs, serve cfg pf req σ = handleConnect cfg pf req (withHeaders hs (arrival σ)).
Proof.
  unfold isConnect. intros Hc.
  apply andb_prop in Hc as [Hc Hprefix]. apply andb_prop in Hc as [Hget Hping].
  apply String.eqb_eq in Hget. apply negb_true_iff in Hping.
  destruct (cors_run req (arrival σ)) as (hs & Hcors & _). exists hs.
  unfold serve, requestListener. unfold mbind at 1, M_bind at 1. rewrite Hcors.
  rewrite Hget, Hping, Hprefix. reflexivity.
Qed.

Lemma serve_message req (σ : State T) :
  isMessage req = true ->
  ∃ hs, serve cfg pf req σ = handleMessage pf req (withHeaders hs (arrival σ)).
Proof.
  unfold isMessage. intros Hc. apply andb_prop in Hc as [Hpost Hprefix].
  apply String.eqb_eq in Hpost.
  destruct (cors_run req (arrival σ)) as (hs & Hcors & _). exists hs.
  unfold serve, requestListener. unfold mbind at 1, M_bind at 1. rewrite Hcors.
  rewrite Hpost, Hprefix. reflexivity.
Qed.

Lemma answered_nil status text (σ : State T) :
  answered status text [] σ =
    {| activeTransports := activeTransports σ; closed := closed σ;
       listening := listening σ; attached := attached σ;
       res := {| responseHeaders := responseHeaders (res σ);
                 statusCode := Some status; body := Some text;
                 headersSent := true |};
       log := log σ |}.
Proof. unfold answered. rewrite app_nil_r. reflexivity. Qed.

Lemma called_nil (σ : State T) : called [] σ = σ.
Proof. unfold called. rewrite app_nil_r. destruct σ; reflexivity. Qed.

(** [res.writeHead(status).end(text)] on a response whose head has not
    been sent. *)
Lemma answer_run status text (σ : State T) :
  headersSent (res σ) = false ->
  (writeHead status ;; end_ text) σ = (Returns tt, answered status text [] σ).
Proof. intros Hsent. run. rewrite Hsent. run. rewrite answered_nil. reflexivity. Qed.

(** The same once the head has been sent: [writeHead] throws. *)
Lemma answer_throws status text (σ : State T) :
  headersSent (res σ) = true ->
  (writeHead status ;; end_ text) σ = (Throws ERR_HTTP_HEADERS_SENT, σ).
Proof. intros Hsent. run. rewrite Hsent. reflexivity. Qed.

Lemma handleConnect_missing req (σ : State T) :
  headersSent (res σ) = false ->
  truthy_credential (extractApiKey cfg pf req) = false ->
  handleConnect cfg pf req σ =
    (Returns tt, answered 401 "Unauthorized: Missing API key" [] σ).
Proof.
  intros Hsent Hk. unfold handleConnect. rewrite Hk. simpl.
  apply answer_run, Hsent.
Qed.

Lemma handleConnect_rejected req (σ : State T) :
  headersSent (res σ) = false ->
  truthy_credential (extractApiKey cfg pf req) = true ->
  rejects cfg (default (Text "") (extractApiKey cfg pf req)) ->
  handleConnect cfg pf req σ =
    (Returns tt, answered 401 "Unauthorized: Invalid API key"
                   (authCalls cfg (default (Text "") (extractApiKey cfg pf req))) σ).
Proof.
  intros Hsent Hk Hr. unfold handleConnect, rejects, authCalls in *. rewrite Hk. simpl.
  destruct (authHandler cfg) as [handler|].
  - run. rewrite Hr. run. rewrite Hsent. reflexivity.
  - destruct Hr as (k & Hcfg & Hkt & Hne). rewrite Hcfg. simpl. rewrite Hkt.
    assert (Hd : differs (default (Text "") (extractApiKey cfg pf req)) k = true).
    { destruct (default (Text "") (extractApiKey cfg pf req)) as [s | name]; simpl;
        [| reflexivity].
      apply negb_true_iff, String.eqb_neq. congruence. }
    rewrite Hd. simpl. rewrite answer_run by exact Hsent. reflexivity.
Qed.

(** The same once the head of the response has been sent: the 401 cannot
    be written, [writeHead] throws. *)
Lemma handleConnect_rejected_late req (σ : State T) :
  headersSent (res σ) = true ->
  truthy_credential (extractApiKey cfg pf req) = true ->
  rejects cfg (default (Text "") (extractApiKey cfg pf req)) ->
  handleConnect cfg pf req σ =
    (Throws ERR_HTTP_HEADERS_SENT,
     called (authCalls cfg (default (Text "") (extractApiKey cfg pf req))) σ).
Proof.
  intros Hsent Hk Hr. unfold handleConnect, rejects, authCalls in *. rewrite Hk. simpl.
  destruct (authHandler cfg) as [handler|].
  - run. rewrite Hr. run. rewrite Hsent. reflexivity.
  - destruct Hr as (k & Hcfg & Hkt & Hne). rewrite Hcfg. simpl. rewrite Hkt.
    assert (Hd : differs (default (Text "") (extractApiKey cfg pf req)) k = true).
    { destruct (default (Text "") (extractApiKey cfg pf req)) as [s | name]; simpl;
        [| reflexivity].
      apply negb_true_iff, String.eqb_neq. congruence. }
    rewrite Hd. simpl. rewrite answer_throws by exact Hsent. rewrite called_nil.
    reflexivity.
Qed.

Lemma handleConnect_admitted req userId env (σ : State T) :
  truthy_credential (extractApiKey cfg pf req) = true ->
  admits cfg (default (Text "") (extractApiKey cfg pf req)) userId env ->
  handleConnect cfg pf req σ =
    establish cfg pf req userId env (default (Text "") (extractApiKey cfg pf req))
      (called (authCalls cfg (default (Text "") (extractApiKey cfg pf req))) σ).
Proof.
  intros Hk Ha. unfold handleConnect, admits, authCalls in *. rewrite Hk. simpl.
  destruct (authHandler cfg) as [handler|].
  - destruct Ha as (r & Hr & -> & ->). run. rewrite Hr. reflexivity.
  - destruct Ha as ([Hnone | Hsame] & -> & ->); rewrite called_nil.
    + rewrite Hnone. reflexivity.
    + destruct (apiKey cfg) as [k |]; [| discriminate]. simpl in Hsame.
      injection Hsame as <-. simpl. rewrite String.eqb_refl, andb_false_r. reflexivity.
Qed.

Lemma establish_factory_fails req userId env key e (σ : State T) :
  headersSent (res σ) = false ->
  createServer cfg req userId env = Throws e ->
  establish cfg pf req userId env key σ =
    (Returns tt,
     answered (factoryFailureStatus e) (factoryFailureText e)
       [ TransportCreated {| sessionId := randomUUID pf |};
         CreateServerCalled req userId env ] σ).
Proof.
  intros Hsent Hc. unfold establish. run. rewrite Hc.
  unfold answered. rewrite <- app_assoc.
  destruct e; run; rewrite Hsent; reflexivity.
Qed.

Lemma closeListener_run server transport (σ : State T) :
  ∃ o, closeListener cfg server transport σ =
    (o, {| activeTransports := delete (sessionId transport) (activeTransports σ);
           closed := {[sessionId transport]} ∪ closed σ;
           listening := listening σ; attached := attached σ;
           res := res σ;
           log := log σ ++ ServerClose server :: onCloseCalls cfg server |}).
Proof.
  unfold closeListener, onCloseCalls. run.
  destruct (close server); simpl; destruct (onClose cfg) as [f|]; run;
    rewrite <- ?app_assoc; simpl; eauto.
  all: rewrite ?app_nil_r; eauto.
Qed.

Lemma establish_succeeds req userId env key server (σ : State T) :
  let transport := {| sessionId := randomUUID pf |} in
  createServer cfg req userId env = Returns server ->
  closesDuringConnect pf = false ->
  connect server transport = Returns tt ->
  closesDuringSend pf = false ->
  send pf transport connectionEstablished = Returns tt ->
  onConnectReturns cfg server userId ->
  establish cfg pf req userId env key σ =
    (Returns tt,
     called (TransportSend transport connectionEstablished
               :: onConnectCalls cfg server userId)
       (attaching pf req userId env key server σ)).
Proof.
  intros transport Hc Hcc Hconn Hcs Hsend Hon.
  unfold establish, register, announce, connectFailed, suspended, onConnectReturns,
    onConnectCalls, attaching, called in *.
  run. rewrite Hc. run. rewrite Hcc. fold transport. 
  assert (Hres : ∀ r : ServerResponse,
            (if connectSendsHead pf
             then {| responseHeaders := responseHeaders r; statusCode := statusCode r;
                     body := body r; headersSent := true |}
             else r)
            = {| responseHeaders := responseHeaders r; statusCode := statusCode r;
                 body := body r; headersSent := headersSent r || connectSendsHead pf |}).
  { intros [? ? ? sent]. destruct (connectSendsHead pf), sent; reflexivity. }
  destruct (closesBeforeListener pf), (connectSendsHead pf) eqn:Hhead; run;
    rewrite Hconn; run; rewrite Hcs; run; rewrite Hsend;
    destruct (onConnect cfg) as [f|]; run; rewrite ?Hon; unfold sessionOf;
    rewrite ?orb_true_r, ?orb_false_r; repeat rewrite <- app_assoc; simpl;
    try reflexivity; destruct σ as [? ? ? ? [] ?]; reflexivity.
Qed.

Lemma handleMessage_run req (σ : State T) :
  headersSent (res σ) = false ->
  handleMessage pf req σ =
    match postedSessionId pf req with
    | None => (Throws (TypeError "Invalid URL"), σ)
    | Some sessionId =>
        if negb (truthy_ostr sessionId) then
          (Returns tt, answered 400 "No sessionId" [] σ)
        else
          match get_property (activeTransports σ) (default "" sessionId) with
          | Undefined => (Returns tt, answered 400 "No active transport" [] σ)
          | Inherited =>
              (Throws (TypeError
                 "Cannot read properties of undefined (reading 'handlePostMessage')"), σ)
          | Own activeSession =>
              (handlePostMessage pf (Session.transport activeSession) req,
               called [HandlePostMessage (Session.transport activeSession) req] σ)
          end
    end.
Proof.
  intros Hsent. unfold handleMessage, postedSessionId.
  destruct (URL_searchParams pf (url req) "https://example.com") as [get|];
    [| reflexivity].
  destruct (truthy_ostr (get "sessionId")); simpl.
  - unfold mbind at 1, M_bind at 1, gets at 1.
    destruct (get_property _ _); [reflexivity | reflexivity |].
    apply answer_run, Hsent.
  - apply answer_run, Hsent.
Qed.

Lemma handleMessage_registry req (σ : State T) :
  activeTransports (handleMessage pf req σ).2 = activeTransports σ.
Proof.
  unfold handleMessage.
  destruct (URL_searchParams pf (url req) "https://example.com") as [get|];
    [| reflexivity].
  destruct (truthy_ostr (get "sessionId")); simpl.
  - unfold mbind at 1, M_bind at 1, gets at 1.
    destruct (get_property _ _); [reflexivity | reflexivity |].
    run. destruct (headersSent (res σ)); reflexivity.
  - run. destruct (headersSent (res σ)); reflexivity.
Qed.

End ListenerFacts.

(** C2.  A connect attempt whose extracted credential (what lines 90-105
    leave in [requestApiKey]) is empty, or is rejected by the configured
    authentication (the auth handler resolves to [null], or the static key
    differs), is answered 401 with a reason, and the registry is left as it
    was; beyond the auth handler, no collaborator is called and no close
    listener is attached. *)
Theorem C2_unauthenticated_connect_is_401 {T : Type} `{SSE.ServerLike T}
    (cfg : SSE.Config T) (pf : SSE.Platform) (req : SSE.IncomingMessage)
    (σ : SSE.State T) :
  Terms.isConnect cfg req = true ->
  JS.truthy_credential (SSE.extractApiKey cfg pf req) = false
  ∨ Terms.rejects cfg (default (JS.Text "") (SSE.extractApiKey cfg pf req)) ->
  ∃ σ' reason,
    SSE.serve cfg pf req σ = (JS.Returns tt, σ')
    ∧ SSE.statusCode (SSE.res σ') = Some 401
    ∧ SSE.body (SSE.res σ') = Some reason
    ∧ (reason = "Unauthorized: Missing API key"
       ∨ reason = "Unauthorized: Invalid API key")
    ∧ SSE.activeTransports σ' = SSE.activeTransports σ
    ∧ SSE.listening σ' = SSE.listening σ
    ∧ ∃ calls, SSE.log σ' = (SSE.log σ ++ calls)%list
        ∧ ∀ e, e ∈ calls -> ∃ key, e = SSE.AuthHandlerCalled key.
Proof.
  intros Hroute Hcred.
  destruct (serve_connect cfg pf req σ Hroute) as [hs Hserve].
  destruct (JS.truthy_credential (SSE.extractApiKey cfg pf req)) eqn:Hkey.
  - destruct Hcred as [Hcred | Hrej]; [discriminate |].
    rewrite (handleConnect_rejected cfg pf req (Terms.withHeaders hs (SSE.arrival σ))
               eq_refl Hkey Hrej) in Hserve.
    eexists _, _. split; [exact Hserve |]. simpl.
    repeat split; auto. eexists. split; [reflexivity |].
    unfold Terms.authCalls. destruct (SSE.authHandler cfg); intros e He.
    + apply list_elem_of_singleton in He. eauto.
    + apply elem_of_nil in He. contradiction.
  - rewrite (handleConnect_missing cfg pf req (Terms.withHeaders hs (SSE.arrival σ))
               eq_refl Hkey) in Hserve.
    eexists _, _. split; [exact Hserve |]. simpl.
    repeat split; auto. exists []. split; [reflexivity |].
    intros e He. apply elem_of_nil in He. contradiction.
Qed.

(** C2 for the spec's scenario: static key ["secret"], presented ["wrong"]. *)
Lemma C2_wrong_static_key_witness :
  ∃ σ', SSE.serve Scenario.keyed (Scenario.platform "s1" None)
          (Scenario.get "/sse" (Some "wrong")) Scenario.started = (JS.Returns tt, σ')
    ∧ SSE.statusCode (SSE.res σ') = Some 401
    ∧ SSE.activeTransports σ' = ∅.
Proof.
  destruct (C2_unauthenticated_connect_is_401 Scenario.keyed
              (Scenario.platform "s1" None) (Scenario.get "/sse" (Some "wrong"))
              Scenario.started eq_refl)
    as (σ' & reason & Hrun & Hstatus & _ & _ & Hreg & _).
  - right. exists "secret". repeat split. discriminate.
  - exists σ'. repeat split; assumption.
Defined.




(** ** Messages posted to a session *)

Section MessageFacts.
Import JS SSE Terms.
Context {T : Type} `{ServerLike T}.
Variable cfg : Config T.
Variable pf : Platform.

Ltac quiet Hserve :=
  eexists _, _, []; split; [exact Hserve |]; simpl; rewrite ?app_nil_r;
  repeat split; auto; try lia; intros ? He; apply elem_of_nil in He; contradiction.

(** A posted message that names no session, by a name [Object.prototype]
    does not define, is answered 400. *)
Lemma message_unknown_session req sessionId (σ : State T) :
  isMessage req = true ->
  postedSessionId pf req = Some sessionId ->
  truthy_ostr sessionId = false
  ∨ (activeTransports σ !! default "" sessionId = None
     ∧ is_object_prototype_key (default "" sessionId) = false) ->
  ∃ σ', serve cfg pf req σ = (Returns tt, σ')
        ∧ statusCode (res σ') = Some 400
        ∧ activeTransports σ' = activeTransports σ
        ∧ log σ' = log σ.
Proof.
  intros Hroute Hsid Hcase.
  destruct (serve_message cfg pf req σ Hroute) as [hs Hserve].
  rewrite (handleMessage_run pf req (withHeaders hs (arrival σ)) eq_refl), Hsid in Hserve.
  destruct (truthy_ostr sessionId) eqn:Ht; simpl in Hserve.
  - destruct Hcase as [Hf | [Hnone Hproto]]; [discriminate |].
    unfold get_property in Hserve. simpl in Hserve.
    rewrite Hnone, Hproto in Hserve.
    eexists. split; [exact Hserve |]. simpl. rewrite app_nil_r. auto.
  - eexists. split; [exact Hserve |]. simpl. rewrite app_nil_r. auto.
Qed.

(** A posted message that names a registered session is handed to that
    session's transport, and to nothing else. *)
Lemma message_known_session req sessionId session (σ : State T) :
  isMessage req = true ->
  postedSessionId pf req = Some (Some sessionId) ->
  truthy_str sessionId = true ->
  activeTransports σ !! sessionId = Some session ->
  ∃ σ', serve cfg pf req σ =
          (handlePostMessage pf (Session.transport session) req, σ')
        ∧ activeTransports σ' = activeTransports σ
        ∧ log σ' = (log σ ++ [HandlePostMessage (Session.transport session) req])%list.
Proof.
  intros Hroute Hsid Ht Hreg.
  destruct (serve_message cfg pf req σ Hroute) as [hs Hserve].
  rewrite (handleMessage_run pf req (withHeaders hs (arrival σ)) eq_refl), Hsid in Hserve. simpl in Hserve.
  rewrite Ht in Hserve. simpl in Hserve.
  unfold get_property in Hserve. simpl in Hserve. rewrite Hreg in Hserve.
  eexists. split; [exact Hserve |]. auto.
Qed.

(** Whatever is posted, the calls the listener makes are at most one
    [handlePostMessage], on the transport registered under the posted
    [sessionId]; the registry is not touched. *)
Lemma message_dispatch req (σ : State T) :
  isMessage req = true ->
  ∃ o σ' calls,
    serve cfg pf req σ = (o, σ')
    ∧ activeTransports σ' = activeTransports σ
    ∧ log σ' = (log σ ++ calls)%list
    ∧ (List.length calls ≤ 1)%nat
    ∧ ∀ e, e ∈ calls ->
        ∃ sessionId session,
          postedSessionId pf req = Some (Some sessionId)
          ∧ activeTransports σ !! sessionId = Some session
          ∧ e = HandlePostMessage (Session.transport session) req.
Proof.
  intros Hroute.
  destruct (serve_message cfg pf req σ Hroute) as [hs Hserve].
  rewrite (handleMessage_run pf req (withHeaders hs (arrival σ)) eq_refl) in Hserve.
  destruct (postedSessionId pf req) as [[sessionId|]|] eqn:Hsid; simpl in Hserve.
  - destruct (truthy_str sessionId) eqn:Ht; simpl in Hserve.
    + unfold get_property in Hserve. simpl in Hserve.
      destruct (activeTransports σ !! sessionId) as [session|] eqn:Hreg.
      * eexists _, _, _. split; [exact Hserve |]. simpl.
        do 2 (split; [reflexivity |]). split; [simpl; lia |].
        intros e He. apply list_elem_of_singleton in He. eauto.
      * destruct (is_object_prototype_key sessionId); quiet Hserve.
    + quiet Hserve.
  - quiet Hserve.
  - quiet Hserve.
Qed.

End MessageFacts.

(** C6 on the code, at [POST /messages?sessionId=constructor] with an empty
    registry.  The name is no session's, yet [activeTransports[sessionId]]
    finds [Object.prototype.constructor]: the guard of line 203 lets it
    pass, [activeSession.transport] is [undefined], and the call of line 213
    throws.  No status is written: the request is not answered 400. *)
Theorem C6_inherited_name_is_not_answered_400 :
  let pf := Scenario.platform "s1" (Some "constructor") in
  let req := Scenario.post "/messages?sessionId=constructor" in
  let run := SSE.serve Scenario.open pf req Scenario.started in
  Terms.isMessage req = true
  ∧ Terms.postedSessionId pf req = Some (Some "constructor")
  ∧ SSE.activeTransports Scenario.started !! "constructor" = None
  ∧ run.1 = JS.Throws (JS.TypeError
              "Cannot read properties of undefined (reading 'handlePostMessage')")
  ∧ SSE.statusCode (SSE.res run.2) = None
  ∧ SSE.activeTransports run.2 = SSE.activeTransports Scenario.started.
Proof. repeat split. Qed.

(** ** The registry stays keyed by session id *)

Section RegistryFacts.
Import JS SSE Terms.
Context {T : Type} `{ServerLike T}.
Variable cfg : Config T.
Variable pf : Platform.

Lemma keyedStep_refl (σ : State T) : keyedStep σ σ.
Proof. intros k s Hl. left. exact Hl. Qed.

Lemma keyedStep_trans (σ1 σ2 σ3 : State T) :
  keyedStep σ1 σ2 -> keyedStep σ2 σ3 -> keyedStep σ1 σ3.
Proof.
  intros H12 H23 k s Hl. destruct (H23 k s Hl) as [Hl2 | Hkey]; [| right; exact Hkey].
  exact (H12 k s Hl2).
Qed.

Lemma keeps_ret {A} (a : A) : keeps (T := T) (mret a).
Proof. intros σ. apply keyedStep_refl. Qed.

Lemma keeps_await {A} (o : outcome A) : keeps (T := T) (await o).
Proof. intros σ. apply keyedStep_refl. Qed.

Lemma keeps_gets {A} (f : State T -> A) : keeps (gets f).
Proof. intros σ. apply keyedStep_refl. Qed.

Lemma keeps_bind {A B} (m : M T A) (k : A -> M T B) :
  keeps m -> (∀ a, keeps (k a)) -> keeps (m ≫= k).
Proof.
  intros Hm Hk σ. unfold mbind, M_bind. specialize (Hm σ).
  destruct (m σ) as [[a | e] σ1]; simpl in *; [| exact Hm].
  eapply keyedStep_trans; [exact Hm | apply Hk].
Qed.

Lemma keeps_try {A} (m : M T A) (h : error -> M T A) :
  keeps m -> (∀ e, keeps (h e)) -> keeps (try_M m h).
Proof.
  intros Hm Hh σ. unfold try_M. specialize (Hm σ).
  destruct (m σ) as [[a | e] σ1]; simpl in *; [exact Hm |].
  eapply keyedStep_trans; [exact Hm | apply Hh].
Qed.

Lemma keeps_attempt {A} (m : M T A) : keeps m -> keeps (attempt m).
Proof.
  intros Hm σ. unfold attempt. specialize (Hm σ).
  destruct (m σ) as [o σ1]. exact Hm.
Qed.

Lemma keeps_emit (e : event T) : keeps (emit e).
Proof. intros σ k s Hl. left. exact Hl. Qed.

Lemma keeps_withRes f : keeps (T := T) (withRes f).
Proof. intros σ k s Hl. left. exact Hl. Qed.

Lemma keeps_setClosed transport b : keeps (T := T) (setClosed transport b).
Proof. intros σ k s Hl. left. exact Hl. Qed.

Lemma keeps_isClosed transport : keeps (T := T) (isClosed transport).
Proof. intros σ k s Hl. left. exact Hl. Qed.

Lemma keeps_deleteTransport key : keeps (T := T) (deleteTransport key).
Proof.
  intros σ k s Hl. simpl in Hl. apply lookup_delete_Some in Hl as [_ Hl]. left. exact Hl.
Qed.

Lemma keeps_listen live server transport : keeps (T := T) (listen live server transport).
Proof. intros σ k s Hl. left. destruct live; exact Hl. Qed.

Lemma keeps_unlisten (server : T) transport : keeps (unlisten server transport).
Proof. intros σ k s Hl. left. exact Hl. Qed.

Lemma keeps_attach server transport : keeps (T := T) (attach server transport).
Proof. intros σ k s Hl. left. exact Hl. Qed.

Lemma keeps_streamStarted sent : keeps (T := T) (streamStarted sent).
Proof. intros σ k s Hl. left. destruct sent; exact Hl. Qed.

Lemma keeps_setTransport sid userId env key :
  keeps (T := T) (setTransport sid (sessionOf sid userId env key)).
Proof.
  intros σ k s Hl. simpl in Hl.
  apply lookup_insert_Some in Hl as [[<- <-] | [_ Hl]]; [right; reflexivity | left; exact Hl].
Qed.

Create HintDb keeps.

Ltac keeping :=
  repeat first
    [ solve [auto 1 with keeps nocore]
    | apply keeps_ret | apply keeps_await | apply keeps_gets | apply keeps_emit
    | apply keeps_withRes | apply keeps_setClosed | apply keeps_isClosed
    | apply keeps_listen | apply keeps_unlisten | apply keeps_attach
    | apply keeps_streamStarted
    | apply keeps_deleteTransport | apply keeps_setTransport
    | apply keeps_attempt
    | apply keeps_bind; [| intros ?]
    | apply keeps_try; [| intros ?]
    | match goal with
      | |- keeps (match ?x with _ => _ end) => destruct x
      | |- keeps (if ?b then _ else _) => destruct b
      end ].

Lemma keeps_closeListener server transport : keeps (closeListener cfg server transport).
Proof. unfold closeListener. keeping. Qed.

Lemma keeps_deliver server transport : keeps (deliver cfg server transport).
Proof. unfold deliver, closeListener. keeping. Qed.

Lemma keeps_suspended fires server transport :
  keeps (suspended cfg fires server transport).
Proof. unfold suspended. destruct fires; [apply keeps_deliver | apply keeps_ret]. Qed.

Lemma keeps_relay (server : T) transport message :
  keeps (relay server transport message).
Proof. unfold relay. keeping. Qed.

#[local] Hint Resolve keeps_suspended : keeps.

Lemma keeps_establish req userId env key : keeps (establish cfg pf req userId env key).
Proof.
  unfold establish, register, announce, connectFailed.
  fold (sessionOf (randomUUID pf) userId env key).
  unfold writeHead, end_. keeping.
Qed.

#[local] Hint Resolve keeps_establish : keeps.

Lemma keeps_requestListener req : keeps (requestListener cfg pf req).
Proof.
  unfold requestListener, cors, handleConnect, handleMessage, setHeader, writeHead, end_.
  keeping.
Qed.

(** Serving a request, and running a close listener, leave every session
    registered under the id of its own transport. *)
Lemma keyed_after {A} (m : M T A) (σ : State T) :
  keeps m -> registryKeyed σ -> registryKeyed (m σ).2.
Proof.
  intros Hm Hk k s Hl. destruct (Hm σ k s Hl) as [Hold | Hnew]; [| exact Hnew].
  exact (Hk k s Hold).
Qed.

Lemma serve_keyed req (σ : State T) :
  registryKeyed σ -> registryKeyed (serve cfg pf req σ).2.
Proof.
  intros Hk. unfold serve. apply (keyed_after _ (arrival σ)).
  - apply keeps_requestListener.
  - exact Hk.
Qed.

Lemma closeListener_keyed server transport (σ : State T) :
  registryKeyed σ -> registryKeyed (closeListener cfg server transport σ).2.
Proof. apply keyed_after, keeps_closeListener. Qed.

Lemma deliver_keyed server transport (σ : State T) :
  registryKeyed σ -> registryKeyed (deliver cfg server transport σ).2.
Proof. apply keyed_after, keeps_deliver. Qed.

Lemma relay_keyed (server : T) transport message (σ : State T) :
  registryKeyed σ -> registryKeyed (relay server transport message σ).2.
Proof. apply keyed_after, keeps_relay. Qed.

End RegistryFacts.

(** In every state the listener reaches, each session is registered under
    the id of its own transport. *)
Lemma reachable_keyed {T : Type} `{SSE.ServerLike T} (cfg : SSE.Config T)
    (inputs : list (SSE.input T)) :
  Terms.registryKeyed (SSE.runAll cfg SSE.initial inputs).
Proof.
  assert (Hall : ∀ σ, Terms.registryKeyed σ ->
                      Terms.registryKeyed (SSE.runAll cfg σ inputs)).
  { induction inputs as [| i inputs IH]; intros σ Hσ; simpl; [exact Hσ |].
    apply IH. destruct i as [pf req | server transport | server transport message]; simpl.
    - apply serve_keyed, Hσ.
    - apply deliver_keyed, Hσ.
    - apply relay_keyed, Hσ. }
  apply Hall. intros k s Hl. simpl in Hl. rewrite lookup_empty in Hl. discriminate.
Qed.

(** ** The message bridge *)

Section BridgeFacts.
Import Bridge.

Lemma run_snoc s trace a : run s (trace ++ [a]) = step (run s trace) a.
Proof. unfold run. rewrite foldl_app. reflexivity. Qed.

Lemma submit_upstream before B i payload :
  upstream (run initial (before ++ [Submit B i payload]))
    = (upstream (run initial before) ++ [(nextId (run initial before), payload)])%list.
Proof. rewrite run_snoc. reflexivity. Qed.

Lemma invariant_nil : invariant [].
Proof.
  split; simpl.
  - intros u p Hin. apply elem_of_nil in Hin. contradiction.
  - apply NoDup_nil_2.
  - intros u B i Hin. rewrite lookup_empty in Hin. discriminate.
  - intros B r Hin. unfold received in Hin. simpl in Hin.
    rewrite lookup_empty in Hin. apply elem_of_nil in Hin. contradiction.
Qed.

(** An owner, or a response, accounted for by [trace] is accounted for by
    every extension of it. *)
Lemma submitted_snoc trace a B i u :
  (∃ payload before after,
     trace = (before ++ Submit B i payload :: after)%list
     ∧ u = nextId (run initial before)) ->
  ∃ payload before after,
    (trace ++ [a] = before ++ Submit B i payload :: after)%list
    ∧ u = nextId (run initial before).
Proof.
  intros (payload & before & after & -> & Hu).
  exists payload, before, (after ++ [a])%list. split; [| exact Hu].
  rewrite <- app_assoc. reflexivity.
Qed.

Lemma answered_snoc trace a B (r : Response) :
  (∃ payload before middle after,
     trace = (before ++ Submit B (id r) payload
                :: middle ++ Respond (answers r) (result r) :: after)%list
     ∧ answers r = nextId (run initial before)) ->
  ∃ payload before middle after,
    (trace ++ [a] = before ++ Submit B (id r) payload
                      :: middle ++ Respond (answers r) (result r) :: after)%list
    ∧ answers r = nextId (run initial before).
Proof.
  intros (payload & before & middle & after & -> & Hu).
  exists payload, before, middle, (after ++ [a])%list. split; [| exact Hu].
  rewrite <- !app_assoc. simpl. rewrite <- app_assoc. reflexivity.
Qed.

Lemma invariant_snoc trace a : invariant trace -> invariant (trace ++ [a]).
Proof.
  intros [Hbelow Honce Hown Hrecv].
  split; rewrite run_snoc;
    destruct a as [session rid payload | u outcome | session]; simpl.
  - (* upstream identifiers stay below the next one *)
    intros u p Hin. apply elem_of_app in Hin as [Hin | Hin].
    + apply Hbelow in Hin. lia.
    + apply list_elem_of_singleton in Hin. injection Hin as -> _. lia.
  - destruct (owners (run initial trace) !! u) as [[session rid] |]; exact Hbelow.
  - exact Hbelow.
  - (* and are pairwise distinct *)
    rewrite fmap_app. simpl. apply NoDup_app. split; [exact Honce |]. split.
    + intros u Hin Hnew. apply list_elem_of_singleton in Hnew. subst u.
      apply list_elem_of_fmap in Hin as ([u p] & Hu & Hin). simpl in Hu.
      apply Hbelow in Hin. lia.
    + apply NoDup_singleton.
  - destruct (owners (run initial trace) !! u) as [[session rid] |]; exact Honce.
  - exact Honce.
  - (* owners *)
    intros u B i Hlook.
    destruct (decide (u = nextId (run initial trace))) as [-> | Hne].
    + rewrite lookup_insert_eq in Hlook. injection Hlook as <- <-.
      exists payload, trace, []. auto.
    + rewrite lookup_insert_ne in Hlook by congruence.
      apply submitted_snoc, Hown, Hlook.
  - intros u' B i Hlook. apply submitted_snoc, Hown.
    destruct (owners (run initial trace) !! u) as [[session rid] |] eqn:Howner;
      simpl in Hlook; [| exact Hlook].
    apply lookup_delete_Some in Hlook as [_ Hlook]. exact Hlook.
  - intros u B i Hlook. apply submitted_snoc, Hown.
    apply map_lookup_filter_Some in Hlook as [Hlook _]. exact Hlook.
  - (* responses *)
    intros B r Hin. apply answered_snoc, Hrecv, Hin.
  - intros B r Hin.
    destruct (owners (run initial trace) !! u) as [[session rid] |] eqn:Howner;
      [| apply answered_snoc, Hrecv, Hin].
    unfold received in Hin. simpl in Hin.
    destruct (decide (B = session)) as [-> | Hne].
    + rewrite lookup_insert_eq in Hin. simpl in Hin.
      apply elem_of_app in Hin as [Hin | Hin];
        [apply answered_snoc, Hrecv, Hin |].
      apply list_elem_of_singleton in Hin. subst r. simpl.
      destruct (Hown u session rid Howner) as (payload & before & after & -> & Hu).
      exists payload, before, after, []. split; [| exact Hu].
      rewrite <- app_assoc. reflexivity.
    + rewrite lookup_insert_ne in Hin by congruence.
      apply answered_snoc, Hrecv, Hin.
  - intros B r Hin. apply answered_snoc, Hrecv, Hin.
Qed.

Lemma invariant_run trace : invariant trace.
Proof.
  induction trace as [| a trace IH] using rev_ind;
    [apply invariant_nil | apply invariant_snoc, IH].
Qed.

End BridgeFacts.

(** C1.  No cross-talk.  On the bridge: whatever the sessions and the
    upstream do, a response on session B's push-channel carries the
    identifier B chose for one of its own requests and the outcome the
    upstream gave under the very identifier under which that request of B
    was written to the upstream channel; no other request, of any session,
    was ever written there under that identifier, whatever identifiers the
    sessions chose (two sessions may use the same one).  On the listener,
    in every state it reaches from start-up: a posted message is handed to
    at most one transport, the one registered under the posted
    [sessionId], whose own [sessionId] that is. *)
Theorem C1_no_cross_talk :
  (∀ (trace : list Bridge.action) (B : string) (r : Bridge.Response),
      r ∈ Bridge.received (Bridge.run Bridge.initial trace) B ->
      ∃ u payload before middle after,
        trace = (before ++ Bridge.Submit B (Bridge.id r) payload
                   :: middle ++ Bridge.Respond u (Bridge.result r) :: after)%list
        ∧ Bridge.upstream
            (Bridge.run Bridge.initial (before ++ [Bridge.Submit B (Bridge.id r) payload]))
          = (Bridge.upstream (Bridge.run Bridge.initial before) ++ [(u, payload)])%list
        ∧ NoDup (Bridge.upstream (Bridge.run Bridge.initial trace)).*1)
  ∧ (∀ (T : Type) (L : SSE.ServerLike T) (cfg : SSE.Config T)
       (inputs : list (SSE.input T)) (pf : SSE.Platform) (req : SSE.IncomingMessage),
      let σ := SSE.runAll cfg SSE.initial inputs in
      Terms.isMessage req = true ->
      ∃ o σ' calls,
        SSE.serve cfg pf req σ = (o, σ')
        ∧ SSE.log σ' = (SSE.log σ ++ calls)%list
        ∧ (List.length calls ≤ 1)%nat
        ∧ ∀ e, e ∈ calls ->
            ∃ S session,
              Terms.postedSessionId pf req = Some (Some S)
              ∧ SSE.activeTransports σ !! S = Some session
              ∧ SSE.sessionId (SSE.Session.transport session) = S
              ∧ e = SSE.HandlePostMessage (SSE.Session.transport session) req).
Proof.
  split.
  - intros trace B r Hin.
    pose proof (invariant_run trace) as Hinv.
    destruct (Bridge.received_answered _ Hinv _ _ Hin)
      as (payload & before & middle & after & Htrace & Hu).
    exists (Bridge.answers r), payload, before, middle, after.
    split; [exact Htrace |]. split.
    + rewrite submit_upstream, Hu. reflexivity.
    + exact (Bridge.upstream_once _ Hinv).
  - intros T L cfg inputs pf req σ Hroute.
    pose proof (reachable_keyed cfg inputs) as Hkeyed. fold σ in Hkeyed.
    destruct (message_dispatch cfg pf req σ Hroute)
      as (o & σ' & calls & Hrun & _ & Hlog & Hone & Hcalls).
    exists o, σ', calls. repeat split; try assumption.
    intros e He. destruct (Hcalls e He) as (S & session & Hp & Hr & ->).
    exists S, session. split; [exact Hp |]. split; [exact Hr |].
    split; [exact (Hkeyed S session Hr) | reflexivity].
Qed.

(** C1 at two sessions that both use the identifier 1 and are answered in
    the opposite order: each gets the outcome of its own request.  And at a
    message posted to the first of two sessions the listener has admitted. *)
Lemma C1_no_cross_talk_witness :
  let s := Bridge.run Bridge.initial Scenario.crossing in
  let req := Scenario.post "/messages?sessionId=sA" in
  Bridge.result <$> Bridge.received s "sA" = ["for A"]
  ∧ Bridge.result <$> Bridge.received s "sB" = ["for B"]
  ∧ (∃ u payload before middle after,
       Scenario.crossing
         = (before ++ Bridge.Submit "sB" 1 payload
              :: middle ++ Bridge.Respond u "for B" :: after)%list
       ∧ Bridge.upstream (Bridge.run Bridge.initial (before ++ [Bridge.Submit "sB" 1 payload]))
         = (Bridge.upstream (Bridge.run Bridge.initial before) ++ [(u, payload)])%list)
  ∧ ∃ o σ' calls,
      SSE.serve Scenario.open (Scenario.platform "s9" (Some "sA")) req
        (SSE.runAll Scenario.open SSE.initial Scenario.twoConnects) = (o, σ')
      ∧ SSE.log σ' =
          (SSE.log (SSE.runAll Scenario.open SSE.initial Scenario.twoConnects)
           ++ calls)%list
      ∧ ∀ e, e ∈ calls -> e = SSE.HandlePostMessage {| SSE.sessionId := "sA" |} req.
Proof.
  intros s req. destruct C1_no_cross_talk as [Hbridge Hpost].
  split; [reflexivity |]. split; [reflexivity |]. split.
  - destruct (Hbridge Scenario.crossing "sB"
                {| Bridge.id := 1; Bridge.result := "for B"; Bridge.answers := 1 |})
      as (u & payload & before & middle & after & Htrace & Hup & _).
    + vm_compute. left.
    + exists u, payload, before, middle, after. split; assumption.
  - destruct (Hpost Scenario.server _ Scenario.open Scenario.twoConnects
                (Scenario.platform "s9" (Some "sA")) req eq_refl)
      as (o & σ' & calls & Hrun & Hlog & _ & Hcalls).
    exists o, σ', calls. repeat split; try assumption.
    intros e He. destruct (Hcalls e He) as (S & session & Hp & _ & Hs & ->).
    injection Hp as <-. destruct session as [[sid] ? ? ?]. simpl in Hs.
    subst sid. reflexivity.
Defined.

(** ** Admission *)

(** C3, as stated, fails at its last tier: with neither an auth handler nor
    a static key, the listener admits the credential ["anything"] but
    derives no [userId] from it; the session and the factory get
    [undefined]. *)
Lemma C3_permissive_listener_derives_no_userId :
  let req := Scenario.get "/sse" (Some "anything") in
  let σ' := (SSE.serve Scenario.open (Scenario.platform "s1" None) req
               Scenario.started).2 in
  SSE.authHandler Scenario.open = None
  ∧ SSE.apiKey Scenario.open = None
  ∧ SSE.extractApiKey Scenario.open (Scenario.platform "s1" None) req
      = Some (JS.Text "anything")
  ∧ SSE.Session.userId <$> SSE.activeTransports σ' !! "s1" = Some None
  ∧ SSE.Session.userId <$> SSE.activeTransports σ' !! "s1"
      ≠ Some (Some (McpProxy.derivedUserId "anything"))
  ∧ SSE.CreateServerCalled req None None ∈ SSE.log σ'.
Proof.
  repeat split; try reflexivity.
  - vm_compute. discriminate.
  - apply list_elem_of_In. vm_compute. tauto.
Qed.

(** C3, amended.  In the listener, for a non-empty credential: a configured
    auth handler alone decides ([null] is answered 401, anything else opens
    the session with the handler's [userId] and [env]; the static key is
    not consulted); otherwise a non-empty static key decides by string
    equality, and an admitted session has no [userId] and no [env];
    otherwise every credential is admitted, again with no [userId] and no
    [env].  (The 401 is written unless the head of the response has been
    sent, which it has not when the handler runs; [writeHead] would throw.)
    The [userId] made of ["user-"]
    and the credential's first 8 characters comes from the auth handler of
    the command-line program, which is always configured: it rejects the
    empty credential, asks the auth server when its address is set, and
    otherwise admits with that [userId] and nothing else. *)
Theorem C3_admission_tiers {T : Type} `{SSE.ServerLike T}
    (cfg : SSE.Config T) (pf : SSE.Platform) (req : SSE.IncomingMessage)
    (σ : SSE.State T) :
  let key := default (JS.Text "") (SSE.extractApiKey cfg pf req) in
  JS.truthy_credential (SSE.extractApiKey cfg pf req) = true ->
  (∀ handler, SSE.authHandler cfg = Some handler ->
     (handler key = JS.Returns None ->
      SSE.handleConnect cfg pf req σ =
        if SSE.headersSent (SSE.res σ)
        then (JS.Throws SSE.ERR_HTTP_HEADERS_SENT,
              Terms.called [SSE.AuthHandlerCalled key] σ)
        else (JS.Returns tt,
              Terms.answered 401 "Unauthorized: Invalid API key"
                [SSE.AuthHandlerCalled key] σ))
     ∧ (∀ r, handler key = JS.Returns (Some r) ->
        SSE.handleConnect cfg pf req σ =
          SSE.establish cfg pf req (Some (SSE.AuthResult.userId r))
            (SSE.AuthResult.env r) key
            (Terms.called [SSE.AuthHandlerCalled key] σ)))
  ∧ (∀ k, SSE.authHandler cfg = None -> SSE.apiKey cfg = Some k ->
          JS.truthy_str k = true ->
     (key = JS.Text k ->
      SSE.handleConnect cfg pf req σ = SSE.establish cfg pf req None None key σ)
     ∧ (key ≠ JS.Text k ->
        SSE.handleConnect cfg pf req σ =
          if SSE.headersSent (SSE.res σ)
          then (JS.Throws SSE.ERR_HTTP_HEADERS_SENT, σ)
          else (JS.Returns tt,
                Terms.answered 401 "Unauthorized: Invalid API key" [] σ)))
  ∧ (SSE.authHandler cfg = None -> JS.truthy_ostr (SSE.apiKey cfg) = false ->
     SSE.handleConnect cfg pf req σ = SSE.establish cfg pf req None None key σ)
  ∧ (∀ encodeURIComponent fetch authServerUrl requestApiKey,
     let resolve := McpProxy.authHandler encodeURIComponent fetch authServerUrl in
     (JS.truthy_str requestApiKey = false ->
      resolve requestApiKey = JS.Returns None)
     ∧ (JS.truthy_str requestApiKey = true ->
        JS.truthy_ostr authServerUrl = true ->
        resolve requestApiKey =
          McpProxy.verifyApiKey encodeURIComponent fetch requestApiKey
            (default "" authServerUrl))
     ∧ (JS.truthy_str requestApiKey = true ->
        JS.truthy_ostr authServerUrl = false ->
        resolve requestApiKey =
          JS.Returns (Some {|
            McpProxy.userId :=
              JS.JStr ("user-" ++ JS.substring0 8 requestApiKey);
            McpProxy.permissions := None;
            McpProxy.env := None |}))).
Proof.
  intros key Hkey.
  pose proof (fun Hsent => handleConnect_rejected cfg pf req σ Hsent Hkey) as Hrej.
  pose proof (fun Hsent => handleConnect_rejected_late cfg pf req σ Hsent Hkey) as Hlate.
  pose proof (fun u e => handleConnect_admitted cfg pf req u e σ Hkey) as Hadm.
  unfold Terms.rejects, Terms.admits, Terms.authCalls in Hrej, Hlate, Hadm.
  fold key in Hrej, Hlate, Hadm.
  split; [| split; [| split]].
  - intros handler Hh. rewrite Hh in Hrej, Hlate, Hadm. split.
    + intros Hnull. destruct (SSE.headersSent (SSE.res σ)) eqn:Hsent;
        [apply Hlate | apply Hrej]; auto.
    + intros r Hr. apply Hadm. eauto.
  - intros k Hnone Hcfg Hk. rewrite Hnone in Hrej, Hlate, Hadm. split.
    + intros Hsame. rewrite Hadm with (u := None) (e := None).
      * rewrite called_nil. reflexivity.
      * rewrite Hcfg, Hsame. auto.
    + intros Hne. destruct (SSE.headersSent (SSE.res σ)) eqn:Hsent.
      * rewrite Hlate by eauto. rewrite called_nil. reflexivity.
      * apply Hrej; eauto.
  - intros Hnone Hfalsy. rewrite Hnone in Hadm.
    rewrite Hadm with (u := None) (e := None); [| auto].
    rewrite called_nil. reflexivity.
  - intros enc fetch authServerUrl requestApiKey resolve.
    unfold resolve, McpProxy.authHandler, McpProxy.remoteVerification.
    split; [| split].
    + intros Hempty. rewrite Hempty. reflexivity.
    + intros Hk Hurl. rewrite Hk, Hurl. reflexivity.
    + intros Hk Hurl. rewrite Hk, Hurl. reflexivity.
Qed.

(** C3 at the permissive listener and at the program's auth handler without
    an auth server, both for the credential ["anything"]. *)
Lemma C3_admission_tiers_witness :
  let req := Scenario.get "/sse" (Some "anything") in
  let pf := Scenario.platform "s1" None in
  SSE.handleConnect Scenario.open pf req Scenario.started
    = SSE.establish Scenario.open pf req None None (JS.Text "anything") Scenario.started
  ∧ McpProxy.authHandler Scenario.encodePlain Scenario.fetchValid None "anything"
    = JS.Returns (Some {| McpProxy.userId := JS.JStr "user-anything";
                          McpProxy.permissions := None;
                          McpProxy.env := None |}).
Proof.
  intros req pf.
  destruct (C3_admission_tiers Scenario.open pf req Scenario.started eq_refl)
    as (_ & _ & Hopen & Hprogram).
  split.
  - apply Hopen; reflexivity.
  - destruct (Hprogram Scenario.encodePlain Scenario.fetchValid None "anything")
      as (_ & _ & Hderive).
    apply Hderive; reflexivity.
Defined.

(** ** The environment of a session *)

Section EnvironmentFacts.
Import JS McpProxy.
Context {Worker : Type}.
Variable spawn : gmap string string -> Worker.

Lemma setenv_lookup key value (penv : gmap string string) (k : string) :
  setenv key value penv !! k =
    if valid_name (c_str key) && (c_str key =? k) then Some (c_str value)
    else penv !! k.
Proof.
  unfold setenv. destruct (valid_name (c_str key)); simpl; [| reflexivity].
  destruct (String.eqb_spec (c_str key) k) as [-> | Hne].
  - apply lookup_insert_eq.
  - apply lookup_insert_ne, Hne.
Qed.

(** [createServer] leaves in every variable the value the last entry of
    [env] that writes it gives it, and leaves all other variables as they
    were. *)
Lemma applyEnv_lookup (env : Env) (penv : gmap string string) (k : string) :
  applyEnv env penv !! k =
    match assigned env k with
    | Some v => Some v
    | None => penv !! k
    end.
Proof.
  unfold applyEnv. revert penv.
  induction env as [| [key value] env IH]; intros penv; simpl; [reflexivity |].
  rewrite IH. destruct (assigned env k) as [v |]; [reflexivity |].
  destruct value as [v |]; simpl; [| reflexivity].
  rewrite setenv_lookup.
  destruct (valid_name (c_str key) && (c_str key =? k)); reflexivity.
Qed.

(** The worker is the one [connect] started: no session changes it. *)
Lemma createServer_worker serverVersion userId env (p : Process Worker) :
  worker (createServer serverVersion userId env p).2 = worker p.
Proof. destruct env; reflexivity. Qed.

Lemma proxyThenSession_worker serverVersion userId env (p : Process Worker) :
  worker (proxyThenSession spawn serverVersion userId env p).2
    = Some (spawn (process_env p)).
Proof. unfold proxyThenSession. rewrite createServer_worker. reflexivity. Qed.

End EnvironmentFacts.

(** C9 on the code, at a session whose [env] is [{T: "v1"}] while the
    program was started without [T].  [createServer] does write [T] into
    [process.env]; but the upstream worker was started by [connect], before
    any session existed, from the environment of that moment, in which [T]
    is not set: the entry is not visible to the worker. *)
Theorem C9_session_env_does_not_reach_the_worker :
  let p := (McpProxy.proxyThenSession (fun e => e) Scenario.proxyVersion
              (Some "u1") (Some Scenario.sessionEnv) Scenario.bare).2 in
  ("T", Some "v1") ∈ Scenario.sessionEnv
  ∧ McpProxy.process_env p !! "T" = Some "v1"
  ∧ McpProxy.worker p = Some (McpProxy.process_env Scenario.bare)
  ∧ (McpProxy.worker p ≫= fun e => e !! "T") = None.
Proof.
  intros p. split; [apply list_elem_of_singleton; reflexivity |]. split; [| split].
  - unfold p, McpProxy.proxyThenSession, McpProxy.createServer.
    cbn [snd McpProxy.process_env]. rewrite applyEnv_lookup. reflexivity.
  - apply proxyThenSession_worker.
  - unfold p. rewrite proxyThenSession_worker. reflexivity.
Qed.

(** ** Routing *)

(** C10, as stated, fails: [GET /ping] is answered before the stream
    endpoint is looked at.  With the endpoint [/p], the address [/ping]
    begins with the endpoint, yet the request is answered [pong] and is not
    a connect attempt (which, carrying no credential, would be answered
    401). *)
Lemma C10_ping_precedes_the_endpoint :
  let req := Scenario.get "/ping" None in
  let pf := Scenario.platform "s1" None in
  SSE.method req = "GET"
  ∧ JS.startsWith (SSE.url req) (SSE.endpoint Scenario.short) = true
  ∧ SSE.serve Scenario.short pf req Scenario.started
      = (JS.Returns tt, Terms.answered 200 "pong" [] Scenario.started)
  ∧ SSE.handleConnect Scenario.short pf req Scenario.started
      = (JS.Returns tt,
         Terms.answered 401 "Unauthorized: Missing API key" [] Scenario.started).
Proof. repeat split. Qed.

(** C10, amended.  Routes are matched by prefix, not exactly: every GET
    request, other than one for exactly [/ping], whose address begins with
    the configured stream endpoint is served as a connect attempt, and
    every POST request whose address begins with [/messages] is served as a
    message post.  (Only the CORS headers are set before.) *)
Theorem C10_routes_match_by_prefix {T : Type} `{SSE.ServerLike T}
    (cfg : SSE.Config T) (pf : SSE.Platform) (req : SSE.IncomingMessage)
    (σ : SSE.State T) :
  (SSE.method req = "GET" -> SSE.url req ≠ "/ping" ->
   JS.startsWith (SSE.url req) (SSE.endpoint cfg) = true ->
   ∃ hs, SSE.serve cfg pf req σ
         = SSE.handleConnect cfg pf req (Terms.withHeaders hs (SSE.arrival σ)))
  ∧ (SSE.method req = "POST" ->
     JS.startsWith (SSE.url req) "/messages" = true ->
     ∃ hs, SSE.serve cfg pf req σ
           = SSE.handleMessage pf req (Terms.withHeaders hs (SSE.arrival σ))).
Proof.
  split.
  - intros Hget Hping Hprefix. apply serve_connect.
    unfold Terms.isConnect. rewrite Hget, Hprefix.
    apply String.eqb_neq in Hping. rewrite Hping. reflexivity.
  - intros Hpost Hprefix. apply serve_message.
    unfold Terms.isMessage. rewrite Hpost, Hprefix. reflexivity.
Qed.

(** C10 at the endpoint [/sse]: [GET /sse2] and [GET /sse/extra] are connect
    attempts, [POST /messagesX] is a message post. *)
Lemma C10_routes_match_by_prefix_witness :
  let pf := Scenario.platform "s1" None in
  (∃ hs, SSE.serve Scenario.open pf (Scenario.get "/sse2" None) Scenario.started
         = SSE.handleConnect Scenario.open pf (Scenario.get "/sse2" None)
             (Terms.withHeaders hs (SSE.arrival Scenario.started)))
  ∧ (∃ hs, SSE.serve Scenario.open pf (Scenario.get "/sse/extra" None) Scenario.started
           = SSE.handleConnect Scenario.open pf (Scenario.get "/sse/extra" None)
               (Terms.withHeaders hs (SSE.arrival Scenario.started)))
  ∧ (∃ hs, SSE.serve Scenario.open pf (Scenario.post "/messagesX") Scenario.started
           = SSE.handleMessage pf (Scenario.post "/messagesX")
               (Terms.withHeaders hs (SSE.arrival Scenario.started))).
Proof.
  intros pf. split; [| split].
  - apply (C10_routes_match_by_prefix Scenario.open pf (Scenario.get "/sse2" None));
      [reflexivity | discriminate | reflexivity].
  - apply (C10_routes_match_by_prefix Scenario.open pf (Scenario.get "/sse/extra" None));
      [reflexivity | discriminate | reflexivity].
  - apply (C10_routes_match_by_prefix Scenario.open pf (Scenario.post "/messagesX"));
      reflexivity.
Defined.

(** * Further properties of the code *)

(** ** Laws of handler programs *)

Section RespectFacts.
Import JS SSE Laws.
Context {T : Type}.
Variable R : State T -> State T -> Prop.
Hypothesis R_refl : ∀ σ, R σ σ.
Hypothesis R_trans : ∀ σ1 σ2 σ3, R σ1 σ2 -> R σ2 σ3 -> R σ1 σ3.

Lemma respects_ret {A} (a : A) : respects R (mret a).
Proof. intros σ. apply R_refl. Qed.

Lemma respects_await {A} (o : outcome A) : respects R (await o).
Proof. intros σ. apply R_refl. Qed.

Lemma respects_gets {A} (f : State T -> A) : respects R (gets f).
Proof. intros σ. apply R_refl. Qed.

Lemma respects_modify (f : State T -> State T) :
  (∀ σ, R σ (f σ)) -> respects R (modify f).
Proof. intros Hf σ. apply Hf. Qed.

Lemma respects_bind {A B} (m : M T A) (k : A -> M T B) :
  respects R m -> (∀ a, respects R (k a)) -> respects R (m ≫= k).
Proof.
  intros Hm Hk σ. unfold mbind, M_bind. specialize (Hm σ).
  destruct (m σ) as [[a | e] σ1]; simpl in *; [| exact Hm].
  eapply R_trans; [exact Hm | apply Hk].
Qed.

Lemma respects_try {A} (m : M T A) (h : error -> M T A) :
  respects R m -> (∀ e, respects R (h e)) -> respects R (try_M m h).
Proof.
  intros Hm Hh σ. unfold try_M. specialize (Hm σ).
  destruct (m σ) as [[a | e] σ1]; simpl in *; [exact Hm |].
  eapply R_trans; [exact Hm | apply Hh].
Qed.

Lemma respects_attempt {A} (m : M T A) : respects R m -> respects R (attempt m).
Proof.
  intros Hm σ. unfold attempt. specialize (Hm σ).
  destruct (m σ) as [o σ1]. exact Hm.
Qed.

End RespectFacts.

Ltac respecting Hrefl Htrans prim :=
  repeat first
    [ apply (respects_ret _ Hrefl)
    | apply (respects_await _ Hrefl)
    | apply (respects_gets _ Hrefl)
    | apply respects_attempt
    | apply (respects_bind _ Htrans); [| intros ?]
    | apply (respects_try _ Htrans); [| intros ?]
    | apply respects_modify; intros ?; prim
    | match goal with
      | |- Laws.respects _ (match ?x with _ => _ end) => destruct x
      | |- Laws.respects _ (if ?b then _ else _) => destruct b
      end ].

(** ** Sessions do not disturb one another *)

Section IsolationFacts.
Import JS SSE Laws.
Context {T : Type} `{ServerLike T}.
Variable cfg : Config T.
Variable pf : Platform.

Lemma sameEntry_refl key (σ : State T) : sameEntry key σ σ.
Proof. reflexivity. Qed.

Lemma sameEntry_trans key (σ1 σ2 σ3 : State T) :
  sameEntry key σ1 σ2 -> sameEntry key σ2 σ3 -> sameEntry key σ1 σ3.
Proof. unfold sameEntry. intros H12 H23. rewrite H23. exact H12. Qed.

Ltac entry Hne :=
  unfold sameEntry; simpl;
  rewrite ?lookup_insert_ne, ?lookup_delete_ne by congruence; reflexivity.

Lemma requestListener_sameEntry req key :
  key ≠ randomUUID pf -> respects (sameEntry key) (requestListener cfg pf req).
Proof.
  intros Hne.
  unfold requestListener, cors, handleConnect, handleMessage, establish, register,
    announce, connectFailed, suspended, deliver, closeListener, setHeader, writeHead, end_, streamStarted, listen,
    unlisten, attach, emit, withRes, setTransport, deleteTransport, setClosed,
    isClosed.
  respecting (sameEntry_refl key) (sameEntry_trans key) ltac:(entry Hne).
Qed.

End IsolationFacts.

(** ** Routes that need no credential *)

Section RouteFacts.
Import JS SSE Laws Terms.
Context {T : Type} `{ServerLike T}.
Variable cfg : Config T.
Variable pf : Platform.

Ltac run :=
  repeat (unfold mbind, M_bind, mret, M_ret, emit, writeHead, end_, withRes,
            setHeader, modify, gets, await, attempt, try_M, setTransport,
            deleteTransport, setClosed, isClosed, listen, unlisten, attach,
            streamStarted; simpl).

Lemma cors_exact req (σ : State T) :
  headersSent (res σ) = false ->
  cors pf req σ = (Returns tt, withHeaders (corsHeaders pf req) σ).
Proof.
  intros Hsent. unfold cors, corsHeaders, allowedOrigin.
  destruct (truthy_ostr (headers req !! "origin"));
    [| rewrite withHeaders_nil; reflexivity].
  destruct (URL_origin pf _); [| rewrite withHeaders_nil; reflexivity].
  run. rewrite Hsent. run. unfold withHeaders, reflected. simpl. rewrite Hsent.
  repeat rewrite <- app_assoc. reflexivity.
Qed.

Lemma sameHeaders_refl (σ : State T) : sameHeaders σ σ.
Proof. reflexivity. Qed.

Lemma sameHeaders_trans (σ1 σ2 σ3 : State T) :
  sameHeaders σ1 σ2 -> sameHeaders σ2 σ3 -> sameHeaders σ1 σ3.
Proof. unfold sameHeaders. intros H12 H23. rewrite H23. exact H12. Qed.

Lemma handleConnect_sameHeaders req : respects sameHeaders (handleConnect cfg pf req).
Proof.
  unfold handleConnect, establish, register, announce, connectFailed, suspended,
    deliver, closeListener, writeHead, end_,
    streamStarted, listen, unlisten, attach, emit, withRes, setTransport,
    deleteTransport, setClosed, isClosed.
  respecting sameHeaders_refl sameHeaders_trans ltac:(reflexivity).
Qed.

Lemma handleMessage_sameHeaders req : respects sameHeaders (handleMessage (T := T) pf req).
Proof.
  unfold handleMessage, writeHead, end_, emit, withRes.
  respecting sameHeaders_refl sameHeaders_trans ltac:(reflexivity).
Qed.

Lemma serve_headers req (σ : State T) :
  responseHeaders (res (serve cfg pf req σ).2) = corsHeaders pf req.
Proof.
  unfold serve, requestListener. unfold mbind at 1. unfold M_bind at 1.
  rewrite cors_exact by reflexivity.
  assert (Hstart : responseHeaders (res (withHeaders (corsHeaders pf req) (arrival σ)))
                   = corsHeaders pf req) by reflexivity.
  revert Hstart. generalize (withHeaders (corsHeaders pf req) (arrival σ)). intros σ0 Hstart.
  rewrite <- Hstart.
  assert (Hanswer : ∀ status text, respects (T := T) sameHeaders (writeHead status ;; end_ text)).
  { intros status text. unfold writeHead, end_, withRes.
    respecting sameHeaders_refl sameHeaders_trans ltac:(reflexivity). }
  destruct (method req =? "OPTIONS"); [apply Hanswer |].
  destruct ((method req =? "GET") && (url req =? "/ping")); [apply Hanswer |].
  destruct ((method req =? "GET") && startsWith (url req) (endpoint cfg));
    [apply handleConnect_sameHeaders |].
  destruct ((method req =? "POST") && startsWith (url req) "/messages");
    [apply handleMessage_sameHeaders |].
  destruct (onUnhandledRequest cfg); [reflexivity | apply Hanswer].
Qed.

Lemma serve_after_cors req (σ : State T) :
  serve cfg pf req σ =
    (let σ0 := withHeaders (corsHeaders pf req) (arrival σ) in
     if method req =? "OPTIONS" then (Returns tt, answered 204 "" [] σ0)
     else if (method req =? "GET") && (url req =? "/ping") then
       (Returns tt, answered 200 "pong" [] σ0)
     else if (method req =? "GET") && startsWith (url req) (endpoint cfg) then
       handleConnect cfg pf req σ0
     else if (method req =? "POST") && startsWith (url req) "/messages" then
       handleMessage pf req σ0
     else
       match onUnhandledRequest cfg with
       | Some f => (f req, called [OnUnhandledRequest req] σ0)
       | None => (Returns tt, answered 404 "" [] σ0)
       end).
Proof.
  unfold serve, requestListener. unfold mbind at 1. unfold M_bind at 1.
  rewrite cors_exact by reflexivity. cbv zeta.
  destruct (method req =? "OPTIONS"); [apply answer_run; reflexivity |].
  destruct ((method req =? "GET") && (url req =? "/ping"));
    [apply answer_run; reflexivity |].
  destruct ((method req =? "GET") && startsWith (url req) (endpoint cfg)); [reflexivity |].
  destruct ((method req =? "POST") && startsWith (url req) "/messages"); [reflexivity |].
  destruct (onUnhandledRequest cfg) as [f |]; [reflexivity | apply answer_run; reflexivity].
Qed.

End RouteFacts.

(** X1.  The listener reflects the request's origin on every response,
    whatever the route and whatever the answer: when the [Origin] header is
    present and parses, the headers the listener sets are exactly the four
    CORS headers with that origin; otherwise the listener sets no header at
    all (an origin that does not parse is not an error of the request). *)
Theorem X1_cors_headers_on_every_response {T : Type} `{SSE.ServerLike T}
    (cfg : SSE.Config T) (pf : SSE.Platform) (req : SSE.IncomingMessage)
    (σ : SSE.State T) :
  let headers := SSE.responseHeaders (SSE.res (SSE.serve cfg pf req σ).2) in
  (∀ given origin,
     SSE.headers req !! "origin" = Some given -> JS.truthy_str given = true ->
     SSE.URL_origin pf given = Some origin ->
     headers = [ ("Access-Control-Allow-Origin", origin);
                 ("Access-Control-Allow-Credentials", "true");
                 ("Access-Control-Allow-Methods", "GET, POST, OPTIONS");
                 ("Access-Control-Allow-Headers", "*") ])
  ∧ (JS.truthy_ostr (SSE.headers req !! "origin") = false -> headers = [])
  ∧ (∀ given, SSE.headers req !! "origin" = Some given ->
              SSE.URL_origin pf given = None -> headers = []).
Proof.
  intros headers. unfold headers. rewrite serve_headers.
  unfold Laws.corsHeaders, Laws.allowedOrigin. split; [| split].
  - intros given origin Hgiven Htruthy Hparse. rewrite Hgiven. simpl.
    rewrite Htruthy, Hparse. reflexivity.
  - intros Hnone. rewrite Hnone. reflexivity.
  - intros given Hgiven Hparse. rewrite Hgiven. simpl. rewrite Hparse.
    destruct (JS.truthy_str given); reflexivity.
Qed.

(** X1 at a connect attempt without credential sent from a web page: the
    401 carries the CORS headers. *)
Lemma X1_cors_headers_on_every_response_witness :
  let req := {| SSE.method := "GET"; SSE.url := "/sse";
                SSE.headers := {[ "origin" := "https://app.example" ]} |} in
  let σ' := (SSE.serve Scenario.open (Scenario.platform "s1" None) req
               Scenario.started).2 in
  SSE.statusCode (SSE.res σ') = Some 401
  ∧ SSE.responseHeaders (SSE.res σ') = Laws.reflected "https://app.example".
Proof.
  intros req σ'. split; [reflexivity |].
  destruct (X1_cors_headers_on_every_response Scenario.open
              (Scenario.platform "s1" None) req Scenario.started) as (Hset & _ & _).
  apply (Hset "https://app.example"); reflexivity.
Defined.

(** X2.  A CORS preflight ([OPTIONS], to any address, the stream endpoint
    and [/messages] included) is answered 204, and [GET /ping] is answered
    200 with the text "pong"; in both cases before any credential is looked
    at: the auth handler and every other collaborator stay uncalled and the
    registry is left as it was. *)
Theorem X2_preflight_and_ping_need_no_credential {T : Type} `{SSE.ServerLike T}
    (cfg : SSE.Config T) (pf : SSE.Platform) (req : SSE.IncomingMessage)
    (σ : SSE.State T) :
  (SSE.method req = "OPTIONS" ->
   ∃ σ', SSE.serve cfg pf req σ = (JS.Returns tt, σ')
         ∧ SSE.statusCode (SSE.res σ') = Some 204
         ∧ SSE.activeTransports σ' = SSE.activeTransports σ
         ∧ SSE.log σ' = SSE.log σ)
  ∧ (SSE.method req = "GET" -> SSE.url req = "/ping" ->
     ∃ σ', SSE.serve cfg pf req σ = (JS.Returns tt, σ')
           ∧ SSE.statusCode (SSE.res σ') = Some 200
           ∧ SSE.body (SSE.res σ') = Some "pong"
           ∧ SSE.activeTransports σ' = SSE.activeTransports σ
           ∧ SSE.log σ' = SSE.log σ).
Proof.
  split.
  - intros Hm. rewrite serve_after_cors. cbv zeta. rewrite Hm. simpl.
    eexists. split; [reflexivity |]. simpl. rewrite app_nil_r. auto.
  - intros Hm Hu. rewrite serve_after_cors. cbv zeta. rewrite Hm, Hu. simpl.
    eexists. split; [reflexivity |]. simpl. rewrite app_nil_r. auto.
Qed.

(** X2 at a preflight for the stream endpoint of the keyed listener. *)
Lemma X2_preflight_and_ping_need_no_credential_witness :
  let req := {| SSE.method := "OPTIONS"; SSE.url := "/sse"; SSE.headers := ∅ |} in
  ∃ σ', SSE.serve Scenario.keyed (Scenario.platform "s1" None) req Scenario.started
        = (JS.Returns tt, σ')
    ∧ SSE.statusCode (SSE.res σ') = Some 204
    ∧ SSE.log σ' = [].
Proof.
  intros req.
  destruct (X2_preflight_and_ping_need_no_credential Scenario.keyed
              (Scenario.platform "s1" None) req Scenario.started) as [Hpre _].
  destruct (Hpre eq_refl) as (σ' & Hrun & Hstatus & _ & Hlog).
  exists σ'. repeat split; assumption.
Defined.

(** X3.  A request that is neither a preflight, nor [GET /ping], nor a GET
    under the stream endpoint, nor a POST under [/messages] (so also a POST
    to the stream endpoint, or a GET of [/messages]) is handed to
    [onUnhandledRequest] when that is configured, whose outcome is then the
    listener's; otherwise it is answered 404.  Either way the registry is
    left as it was and no credential is looked at. *)
Theorem X3_other_requests_are_delegated_or_404 {T : Type} `{SSE.ServerLike T}
    (cfg : SSE.Config T) (pf : SSE.Platform) (req : SSE.IncomingMessage)
    (σ : SSE.State T) :
  Laws.isUnhandled cfg req = true ->
  (∀ f, SSE.onUnhandledRequest cfg = Some f ->
     ∃ σ', SSE.serve cfg pf req σ = (f req, σ')
           ∧ SSE.activeTransports σ' = SSE.activeTransports σ
           ∧ SSE.log σ' = (SSE.log σ ++ [SSE.OnUnhandledRequest req])%list)
  ∧ (SSE.onUnhandledRequest cfg = None ->
     ∃ σ', SSE.serve cfg pf req σ = (JS.Returns tt, σ')
           ∧ SSE.statusCode (SSE.res σ') = Some 404
           ∧ SSE.activeTransports σ' = SSE.activeTransports σ
           ∧ SSE.log σ' = SSE.log σ).
Proof.
  unfold Laws.isUnhandled. intros Hu.
  apply andb_prop in Hu as [Hu Hmsg]. apply andb_prop in Hu as [Hu Hconn].
  apply andb_prop in Hu as [Hopt Hping].
  apply negb_true_iff in Hopt, Hping, Hconn, Hmsg.
  rewrite serve_after_cors. cbv zeta. rewrite Hopt, Hping, Hconn, Hmsg.
  split.
  - intros f Hf. rewrite Hf. eexists. split; [reflexivity |]. simpl. auto.
  - intros Hnone. rewrite Hnone. eexists. split; [reflexivity |]. simpl.
    rewrite app_nil_r. auto.
Qed.

(** X3 at a POST to the stream endpoint and at a GET of [/messages]. *)
Lemma X3_other_requests_are_delegated_or_404_witness :
  SSE.statusCode (SSE.res (SSE.serve Scenario.open (Scenario.platform "s1" None)
                             (Scenario.post "/sse") Scenario.started).2) = Some 404
  ∧ SSE.statusCode (SSE.res (SSE.serve Scenario.open (Scenario.platform "s1" None)
                               (Scenario.get "/messages?sessionId=s1" None)
                               Scenario.started).2) = Some 404.
Proof.
  split.
  - destruct (X3_other_requests_are_delegated_or_404 Scenario.open
                (Scenario.platform "s1" None) (Scenario.post "/sse") Scenario.started
                eq_refl) as [_ H404].
    destruct (H404 eq_refl) as (σ' & Hrun & Hstatus & _). rewrite Hrun. exact Hstatus.
  - destruct (X3_other_requests_are_delegated_or_404 Scenario.open
                (Scenario.platform "s1" None)
                (Scenario.get "/messages?sessionId=s1" None) Scenario.started
                eq_refl) as [_ H404].
    destruct (H404 eq_refl) as (σ' & Hrun & Hstatus & _). rewrite Hrun. exact Hstatus.
Defined.

(** ** Where the credential is read from *)

(** X4.  The credential of a connect request is the value of the configured
    header whenever the request carries that header with a non-empty value;
    the address is then not even parsed.  The [apiKey] query parameter is
    used only when the address is not exactly the endpoint and the header
    read of line 90 finds nothing: the header is empty, or it is absent and
    its name is no member name of [Object.prototype].  (When the header is
    absent but its name is such a member, that member is taken for the
    credential and the query parameter is not looked at.) *)
Theorem X4_header_before_query {T : Type} `{SSE.ServerLike T}
    (cfg : SSE.Config T) (pf : SSE.Platform) (req : SSE.IncomingMessage) :
  let name := JS.toLowerCase (SSE.headerName cfg) in
  (∀ key, SSE.headers req !! name = Some key -> JS.truthy_str key = true ->
          SSE.extractApiKey cfg pf req = Some (JS.Text key))
  ∧ (∀ key, Laws.headerFindsNothing cfg req -> SSE.url req ≠ SSE.endpoint cfg ->
            Laws.queryApiKey pf req = Some key -> JS.truthy_str key = true ->
            SSE.extractApiKey cfg pf req = Some (JS.Text key))
  ∧ (SSE.headers req !! name = None -> JS.is_object_prototype_key name = true ->
     SSE.extractApiKey cfg pf req = Some (JS.Member name)).
Proof.
  intros name. unfold SSE.extractApiKey, SSE.headerCredential, JS.get_property.
  fold name. split; [| split].
  - intros key Hh Ht. rewrite Hh. simpl. rewrite Ht. reflexivity.
  - intros key Hnothing Hurl Hq Ht.
    apply String.eqb_neq in Hurl.
    unfold Laws.queryApiKey, Laws.connectBase in Hq.
    unfold Laws.headerFindsNothing in Hnothing. cbv zeta in Hnothing.
    fold name in Hnothing. destruct Hnothing as [Hempty | [Habsent Hplain]].
    + rewrite Hempty. simpl. rewrite Hurl. simpl.
      destruct (SSE.URL_searchParams pf (SSE.url req) _) as [get |]; [| discriminate].
      rewrite Hq. simpl. rewrite Ht. reflexivity.
    + rewrite Habsent, Hplain. simpl. rewrite Hurl. simpl.
      destruct (SSE.URL_searchParams pf (SSE.url req) _) as [get |]; [| discriminate].
      rewrite Hq. simpl. rewrite Ht. reflexivity.
  - intros Habsent Hproto. rewrite Habsent, Hproto. reflexivity.
Qed.

(** X4 at a request that carries one key in the header and another in the
    address: the header's is used. *)
Lemma X4_header_before_query_witness :
  let pf := {| SSE.URL_searchParams := fun _ _ =>
                 Some (fun name => if name =? "apiKey" then Some "fromQuery" else None);
               SSE.URL_origin := fun o => Some o; SSE.randomUUID := "s1";
               SSE.send := fun _ _ => JS.Returns tt;
               SSE.handlePostMessage := fun _ _ => JS.Returns tt;
               SSE.connectSendsHead := true; SSE.closes := None |} in
  SSE.extractApiKey Scenario.open pf
    (Scenario.get "/sse?apiKey=fromQuery" (Some "fromHeader"))
    = Some (JS.Text "fromHeader")
  ∧ SSE.extractApiKey Scenario.open pf
      (Scenario.get "/sse?apiKey=fromQuery" None) = Some (JS.Text "fromQuery").
Proof.
  intros pf. split.
  - destruct (X4_header_before_query Scenario.open pf
                (Scenario.get "/sse?apiKey=fromQuery" (Some "fromHeader"))) as [Hh _].
    apply Hh; reflexivity.
  - destruct (X4_header_before_query Scenario.open pf
                (Scenario.get "/sse?apiKey=fromQuery" None)) as (_ & Hq & _).
    apply Hq; [right; split; reflexivity | discriminate | reflexivity | reflexivity].
Defined.

(** X5.  A connect attempt for which the header read of line 90 finds
    nothing (the header is empty, or absent under a name that is no member
    name of [Object.prototype]), and whose address is exactly the endpoint,
    or does not parse, or has no non-empty [apiKey] parameter, is answered
    401 "Unauthorized: Missing API key".  A parse failure of the address is
    not an error of its own: the listener does not throw, and it consults
    neither the auth handler nor the factory. *)
Theorem X5_no_credential_anywhere_is_401 {T : Type} `{SSE.ServerLike T}
    (cfg : SSE.Config T) (pf : SSE.Platform) (req : SSE.IncomingMessage)
    (σ : SSE.State T) :
  Terms.isConnect cfg req = true ->
  Laws.headerFindsNothing cfg req ->
  SSE.url req = SSE.endpoint cfg
  ∨ SSE.URL_searchParams pf (SSE.url req) (Laws.connectBase req) = None
  ∨ JS.truthy_ostr (Laws.queryApiKey pf req) = false ->
  ∃ σ', SSE.serve cfg pf req σ = (JS.Returns tt, σ')
        ∧ SSE.statusCode (SSE.res σ') = Some 401
        ∧ SSE.body (SSE.res σ') = Some "Unauthorized: Missing API key"
        ∧ SSE.activeTransports σ' = SSE.activeTransports σ
        ∧ SSE.log σ' = SSE.log σ.
Proof.
  intros Hroute Hnothing Hcase.
  assert (Hheader : JS.truthy_credential (SSE.headerCredential cfg req) = false).
  { unfold SSE.headerCredential, JS.get_property.
    destruct Hnothing as [Hempty | [Habsent Hplain]].
    - rewrite Hempty. reflexivity.
    - rewrite Habsent, Hplain. reflexivity. }
  assert (Hkey : JS.truthy_credential (SSE.extractApiKey cfg pf req) = false).
  { unfold SSE.extractApiKey. rewrite Hheader. simpl.
    destruct (SSE.url req =? SSE.endpoint cfg) eqn:Hurl; simpl; [exact Hheader |].
    destruct Hcase as [Heq | [Hparse | Hquery]].
    - apply String.eqb_neq in Hurl. contradiction.
    - unfold Laws.connectBase in Hparse. rewrite Hparse. exact Hheader.
    - unfold Laws.queryApiKey, Laws.connectBase in Hquery.
      destruct (SSE.URL_searchParams pf (SSE.url req) _) as [get |]; [| exact Hheader].
      rewrite Hquery. reflexivity. }
  destruct (serve_connect cfg pf req σ Hroute) as [hs Hserve].
  rewrite (handleConnect_missing cfg pf req (Terms.withHeaders hs (SSE.arrival σ))
             eq_refl Hkey) in Hserve.
  eexists. split; [exact Hserve |]. simpl. rewrite app_nil_r. auto.
Qed.

(** X5 at an address the platform cannot parse. *)
Lemma X5_no_credential_anywhere_is_401_witness :
  let pf := {| SSE.URL_searchParams := fun _ _ => None;
               SSE.URL_origin := fun o => Some o; SSE.randomUUID := "s1";
               SSE.send := fun _ _ => JS.Returns tt;
               SSE.handlePostMessage := fun _ _ => JS.Returns tt;
               SSE.connectSendsHead := true; SSE.closes := None |} in
  ∃ σ', SSE.serve Scenario.open pf (Scenario.get "/sse?apiKey=k1" None) Scenario.started
        = (JS.Returns tt, σ')
    ∧ SSE.statusCode (SSE.res σ') = Some 401.
Proof.
  intros pf.
  destruct (X5_no_credential_anywhere_is_401 Scenario.open pf
              (Scenario.get "/sse?apiKey=k1" None) Scenario.started eq_refl)
    as (σ' & Hrun & Hstatus & _).
  - right. split; reflexivity.
  - right. left. reflexivity.
  - exists σ'. split; assumption.
Defined.

(** ** Programs that keep an invariant, programs that do not throw *)

Section MaintainFacts.
Import JS SSE Laws.
Context {T : Type}.
Variable I : State T -> Prop.

Lemma maintains_ret {A} (a : A) : maintains I (mret a).
Proof. intros σ Hσ. exact Hσ. Qed.

Lemma maintains_await {A} (o : outcome A) : maintains I (await o).
Proof. intros σ Hσ. exact Hσ. Qed.

Lemma maintains_modify (f : State T -> State T) :
  (∀ σ, I σ -> I (f σ)) -> maintains I (modify f).
Proof. intros Hf σ Hσ. apply Hf, Hσ. Qed.

Lemma maintains_bind {A B} (m : M T A) (k : A -> M T B) :
  maintains I m -> (∀ a, maintains I (k a)) -> maintains I (m ≫= k).
Proof.
  intros Hm Hk σ Hσ. unfold mbind, M_bind. specialize (Hm σ Hσ).
  destruct (m σ) as [[a | e] σ1]; simpl in *; [| exact Hm].
  apply Hk, Hm.
Qed.

Lemma maintains_try {A} (m : M T A) (h : error -> M T A) :
  maintains I m -> (∀ e, maintains I (h e)) -> maintains I (try_M m h).
Proof.
  intros Hm Hh σ Hσ. unfold try_M. specialize (Hm σ Hσ).
  destruct (m σ) as [[a | e] σ1]; simpl in *; [exact Hm |].
  apply Hh, Hm.
Qed.

Lemma maintains_gets {A} (f : State T -> A) : maintains I (gets f).
Proof. intros σ Hσ. exact Hσ. Qed.

Lemma maintains_attempt {A} (m : M T A) : maintains I m -> maintains I (attempt m).
Proof.
  intros Hm σ Hσ. unfold attempt. specialize (Hm σ Hσ).
  destruct (m σ) as [o σ1]. exact Hm.
Qed.

(** A branch on what [gets] reads may rely on the invariant. *)
Lemma maintains_gets_bind {A B} (f : State T -> A) (k : A -> M T B) :
  (∀ σ, I σ -> I (k (f σ) σ).2) -> maintains I (gets f ≫= k).
Proof. intros Hk σ Hσ. apply Hk, Hσ. Qed.

End MaintainFacts.

Section ReturnFacts.
Import JS SSE Laws.
Context {T : Type}.

Lemma returns_ret {A} (a : A) : returns (T := T) (mret a).
Proof. intros σ. eexists. reflexivity. Qed.

Lemma returns_await {A} (a : A) : returns (T := T) (await (Returns a)).
Proof. intros σ. eexists. reflexivity. Qed.

Lemma returns_modify (f : State T -> State T) : returns (modify f).
Proof. intros σ. eexists. reflexivity. Qed.

Lemma returns_gets {A} (f : State T -> A) : returns (gets f).
Proof. intros σ. eexists. reflexivity. Qed.

Lemma returns_attempt {A} (m : M T A) : returns (attempt m).
Proof. intros σ. unfold attempt. destruct (m σ). eexists. reflexivity. Qed.

Lemma returns_bind {A B} (m : M T A) (k : A -> M T B) :
  returns m -> (∀ a, returns (k a)) -> returns (m ≫= k).
Proof.
  intros Hm Hk σ. unfold mbind, M_bind. destruct (Hm σ) as [a Ha].
  destruct (m σ) as [o σ1]. simpl in Ha. subst o. apply Hk.
Qed.

(** Whatever the body does, a [try] whose handler returns, returns. *)
Lemma returns_try {A} (m : M T A) (h : error -> M T A) :
  (∀ e, returns (h e)) -> returns (try_M m h).
Proof.
  intros Hh σ. unfold try_M. destruct (m σ) as [[a | e] σ1].
  - eexists. reflexivity.
  - apply Hh.
Qed.

End ReturnFacts.

Ltac returning :=
  repeat first
    [ apply returns_ret | apply returns_await | apply returns_modify
    | apply returns_gets | apply returns_attempt
    | apply returns_try; intros ?
    | apply returns_bind; [| intros ?]
    | match goal with
      | |- Laws.returns (match ?x with _ => _ end) => destruct x
      | |- Laws.returns (if ?b then _ else _) => destruct b
      end ].

Section ConnectOutcomeFacts.
Import JS SSE Laws Terms.
Context {T : Type} `{ServerLike T}.
Variable cfg : Config T.
Variable pf : Platform.

#[local] Arguments announce : simpl never.
#[local] Arguments connectFailed : simpl never.
#[local] Arguments register : simpl never.
#[local] Arguments establish : simpl never.

Ltac run :=
  repeat (unfold mbind, M_bind, mret, M_ret, emit, writeHead, end_, withRes,
            setHeader, modify, gets, await, attempt, try_M, setTransport,
            deleteTransport, setClosed, isClosed, listen, unlisten, attach,
            streamStarted; simpl).


Lemma connectFailed_run transport (σ : State T) :
  connectFailed transport σ =
    if bool_decide (sessionId transport ∈ closed σ) then (Returns tt, σ)
    else (writeHead 500 ;; end_ "Error connecting to server") σ.
Proof.
  unfold connectFailed, isClosed. unfold mbind at 1, M_bind at 1, gets at 1.
  destruct (bool_decide (sessionId transport ∈ closed σ)); reflexivity.
Qed.











End ConnectOutcomeFacts.



(** ** When attaching the session fails *)

Section AttachFacts.
Import JS SSE Laws Terms.
Context {T : Type} `{ServerLike T}.
Variable cfg : Config T.
Variable pf : Platform.

Ltac run :=
  repeat (unfold mbind, M_bind, mret, M_ret, emit, writeHead, end_, withRes,
            setHeader, modify, gets, await, attempt, try_M, setTransport,
            deleteTransport, setClosed, isClosed, listen, unlisten, attach,
            streamStarted; simpl).

Lemma not_in_closed (sid : string) (σ : State T) :
  bool_decide (sid ∈ closed σ ∖ {[sid]}) = false.
Proof.
  apply bool_decide_eq_false. intros Hin.
  apply elem_of_difference in Hin as [_ Hout]. apply Hout, elem_of_singleton. reflexivity.
Qed.

Lemma failedAttach_run transport (σ : State T) :
  sessionId transport ∉ closed σ ->
  connectFailed transport σ = failedAttach σ.
Proof.
  intros Hopen. rewrite connectFailed_run, bool_decide_eq_false_2 by exact Hopen.
  unfold failedAttach. destruct (headersSent (res σ)) eqn:Hsent.
  - apply answer_throws, Hsent.
  - apply answer_run, Hsent.
Qed.

Lemma establish_connect_fails req userId env key server e (σ : State T) :
  let transport := {| sessionId := randomUUID pf |} in
  createServer cfg req userId env = Returns server ->
  closesDuringConnect pf = false ->
  connect server transport = Throws e ->
  establish cfg pf req userId env key σ
    = failedAttach (attaching pf req userId env key server σ).
Proof.
  intros transport Hc Hcc Hconn.
  unfold establish.
  unfold mbind at 1 2 3, M_bind at 1 2 3, emit at 1 2, modify, attempt, await at 1. simpl.
  rewrite Hc. unfold register.
  unfold mbind at 1 2 3 4, M_bind at 1 2 3 4, setTransport, setClosed at 1, emit at 1,
    modify, listen, try_M. simpl. fold transport.
  assert (Hbody : ∀ σ1 : State T,
            announce cfg pf server transport userId σ1 =
              (Throws e,
               {| activeTransports := activeTransports σ1; closed := closed σ1;
                  listening := listening σ1;
                  attached := (server, transport) :: attached σ1;
                  res := {| responseHeaders := responseHeaders (res σ1);
                            statusCode := statusCode (res σ1); body := body (res σ1);
                            headersSent := headersSent (res σ1) || connectSendsHead pf |};
                  log := log σ1 ++ [ServerConnect server transport] |})).
  { intros σ1. unfold announce, suspended. rewrite Hcc, Hconn.
    destruct σ1 as [? ? ? ? [? ? ? sent] ?].
    destruct (connectSendsHead pf), sent; reflexivity. }
  destruct (closesBeforeListener pf) eqn:Hearly; simpl; rewrite Hbody; simpl;
    rewrite failedAttach_run
      by (simpl; intros Hin; apply elem_of_difference in Hin as [_ Hout];
          apply Hout, elem_of_singleton; reflexivity);
    unfold attaching, sessionOf; fold transport; rewrite Hearly;
    repeat rewrite <- app_assoc; reflexivity.
Qed.

Lemma establish_send_fails req userId env key server e (σ : State T) :
  let transport := {| sessionId := randomUUID pf |} in
  createServer cfg req userId env = Returns server ->
  closesDuringConnect pf = false ->
  connect server transport = Returns tt ->
  closesDuringSend pf = false ->
  send pf transport connectionEstablished = Throws e ->
  establish cfg pf req userId env key σ
    = failedAttach (called [TransportSend transport connectionEstablished]
                      (attaching pf req userId env key server σ)).
Proof.
  intros transport Hc Hcc Hconn Hcs Hsend.
  unfold establish.
  unfold mbind at 1 2 3, M_bind at 1 2 3, emit at 1 2, modify, attempt, await at 1. simpl.
  rewrite Hc. unfold register.
  unfold mbind at 1 2 3 4, M_bind at 1 2 3 4, setTransport, setClosed at 1, emit at 1,
    modify, listen, try_M. simpl. fold transport.
  assert (Hbody : ∀ σ1 : State T,
            announce cfg pf server transport userId σ1 =
              (Throws e,
               {| activeTransports := activeTransports σ1; closed := closed σ1;
                  listening := listening σ1;
                  attached := (server, transport) :: attached σ1;
                  res := {| responseHeaders := responseHeaders (res σ1);
                            statusCode := statusCode (res σ1); body := body (res σ1);
                            headersSent := headersSent (res σ1) || connectSendsHead pf |};
                  log := (log σ1 ++ [ServerConnect server transport])
                           ++ [TransportSend transport connectionEstablished] |})).
  { intros σ1. unfold announce, suspended. rewrite Hcc, Hconn, Hcs, Hsend.
    destruct σ1 as [? ? ? ? [? ? ? sent] ?].
    destruct (connectSendsHead pf), sent; reflexivity. }
  destruct (closesBeforeListener pf) eqn:Hearly; simpl; rewrite Hbody; simpl;
    rewrite failedAttach_run
      by (simpl; intros Hin; apply elem_of_difference in Hin as [_ Hout];
          apply Hout, elem_of_singleton; reflexivity);
    unfold attaching, called, sessionOf; fold transport; simpl; rewrite Hearly;
    repeat rewrite <- app_assoc; reflexivity.
Qed.

End AttachFacts.

(** X7.  When [server.connect], or after it [transport.send], throws on an
    admitted connect request whose connection is still open, [onConnect] is
    not called and the session stays in the registry with its close
    listener attached: the error path does not unregister it, only the
    close of the response will.  The [catch] block then answers 500 "Error
    connecting to server", provided [server.connect] has not started the
    event stream; when it has, the head of the response is sent already,
    [writeHead(500)] throws, the error escapes the listener and no 500 is
    written. *)
Theorem X7_failed_attach_leaves_the_session_registered {T : Type} `{SSE.ServerLike T}
    (cfg : SSE.Config T) (pf : SSE.Platform) (req : SSE.IncomingMessage)
    (userId : option string) (env : option JS.Env) (server : T) (e : JS.error)
    (σ : SSE.State T) :
  let key := default (JS.Text "") (SSE.extractApiKey cfg pf req) in
  let transport := {| SSE.sessionId := SSE.randomUUID pf |} in
  Terms.isConnect cfg req = true ->
  JS.truthy_credential (SSE.extractApiKey cfg pf req) = true ->
  Terms.admits cfg key userId env ->
  SSE.createServer cfg req userId env = JS.Returns server ->
  SSE.closesDuringConnect pf = false ->
  SSE.connect server transport = JS.Throws e
  ∨ (SSE.connect server transport = JS.Returns tt
     ∧ SSE.closesDuringSend pf = false
     ∧ SSE.send pf transport SSE.connectionEstablished = JS.Throws e) ->
  ∃ o σ' calls,
    SSE.serve cfg pf req σ = (o, σ')
    ∧ (SSE.connectSendsHead pf = false ->
       o = JS.Returns tt
       ∧ SSE.statusCode (SSE.res σ') = Some 500
       ∧ SSE.body (SSE.res σ') = Some "Error connecting to server")
    ∧ (SSE.connectSendsHead pf = true ->
       o = JS.Throws SSE.ERR_HTTP_HEADERS_SENT
       ∧ SSE.statusCode (SSE.res σ') = None
       ∧ SSE.body (SSE.res σ') = None)
    ∧ SSE.activeTransports σ' !! SSE.randomUUID pf
        = Some (Terms.sessionOf (SSE.randomUUID pf) userId env key)
    ∧ (SSE.closesBeforeListener pf = false -> (server, transport) ∈ SSE.listening σ')
    ∧ SSE.log σ' = (SSE.log σ ++ calls)%list
    ∧ SSE.CloseListenerAdded server transport ∈ calls
    ∧ ∀ s u, SSE.OnConnect s u ∉ calls.
Proof.
  intros key transport Hroute Hkey Hadm Hmake Hcc Hfail.
  destruct (serve_connect cfg pf req σ Hroute) as [hs Hserve].
  rewrite (handleConnect_admitted cfg pf req userId env _ Hkey Hadm) in Hserve.
  fold key in Hserve.
  assert (Hauth : ∀ s u, SSE.OnConnect s u ∉ Terms.authCalls cfg key).
  { intros s u Hin. unfold Terms.authCalls in Hin.
    destruct (SSE.authHandler cfg);
      [apply list_elem_of_singleton in Hin; discriminate |].
    apply elem_of_nil in Hin. contradiction. }
  assert (Hcalls : ∀ tail : list (SSE.event T),
            (∀ s u, SSE.OnConnect s u ∉ tail) ->
            ∀ s u, SSE.OnConnect s u ∉
              (Terms.authCalls cfg key ++
               [ SSE.TransportCreated transport; SSE.CreateServerCalled req userId env;
                 SSE.CloseListenerAdded server transport;
                 SSE.ServerConnect server transport ] ++ tail)%list).
  { intros tail Htail s u Hin. apply elem_of_app in Hin as [Hin | Hin];
      [exact (Hauth s u Hin) |].
    apply elem_of_app in Hin as [Hin | Hin]; [| exact (Htail s u Hin)].
    apply list_elem_of_In in Hin. simpl in Hin. intuition discriminate. }
  destruct Hfail as [Hconn | (Hconn & Hcs & Hsend)].
  - rewrite (establish_connect_fails cfg pf req userId env key server e _ Hmake Hcc Hconn)
      in Hserve.
    unfold Laws.failedAttach in Hserve. simpl in Hserve.
    exists (SSE.serve cfg pf req σ).1, (SSE.serve cfg pf req σ).2,
      (Terms.authCalls cfg key ++
       [ SSE.TransportCreated transport; SSE.CreateServerCalled req userId env;
         SSE.CloseListenerAdded server transport;
         SSE.ServerConnect server transport ] ++ [])%list.
    split; [destruct (SSE.serve cfg pf req σ); reflexivity |].
    rewrite Hserve. fold transport.
    destruct (SSE.connectSendsHead pf); simpl.
    + split; [discriminate |]. split; [auto |].
      split; [apply lookup_insert_eq |].
      split; [intros ->; left |].
      split; [rewrite <- !app_assoc; reflexivity |]. split.
      * apply elem_of_app. right. apply list_elem_of_In. simpl. tauto.
      * apply Hcalls. intros s u Hin. apply elem_of_nil in Hin. contradiction.
    + split; [auto |]. split; [discriminate |].
      split; [apply lookup_insert_eq |].
      split; [intros ->; left |].
      split; [rewrite app_nil_r, <- !app_assoc; reflexivity |]. split.
      * apply elem_of_app. right. apply list_elem_of_In. simpl. tauto.
      * apply Hcalls. intros s u Hin. apply elem_of_nil in Hin. contradiction.
  - rewrite (establish_send_fails cfg pf req userId env key server e _
               Hmake Hcc Hconn Hcs Hsend) in Hserve.
    unfold Laws.failedAttach in Hserve. simpl in Hserve.
    exists (SSE.serve cfg pf req σ).1, (SSE.serve cfg pf req σ).2,
      (Terms.authCalls cfg key ++
       [ SSE.TransportCreated transport; SSE.CreateServerCalled req userId env;
         SSE.CloseListenerAdded server transport;
         SSE.ServerConnect server transport ] ++
       [SSE.TransportSend transport SSE.connectionEstablished])%list.
    split; [destruct (SSE.serve cfg pf req σ); reflexivity |].
    rewrite Hserve. fold transport.
    assert (Hsend_only : ∀ (s : T) u,
              SSE.OnConnect s u
                ∉ [SSE.TransportSend (T := T) transport SSE.connectionEstablished]).
    { intros s u Hin. apply list_elem_of_singleton in Hin. discriminate. }
    destruct (SSE.connectSendsHead pf); simpl.
    + split; [discriminate |]. split; [auto |].
      split; [apply lookup_insert_eq |].
      split; [intros ->; left |].
      split; [rewrite <- !app_assoc; reflexivity |]. split.
      * apply elem_of_app. right. apply list_elem_of_In. simpl. tauto.
      * apply Hcalls, Hsend_only.
    + split; [auto |]. split; [discriminate |].
      split; [apply lookup_insert_eq |].
      split; [intros ->; left |].
      split; [rewrite app_nil_r, <- !app_assoc; reflexivity |]. split.
      * apply elem_of_app. right. apply list_elem_of_In. simpl. tauto.
      * apply Hcalls, Hsend_only.
Qed.

(** X7 at a server that cannot attach, once failing before and once after
    the transport has started the stream. *)
Lemma X7_failed_attach_leaves_the_session_registered_witness :
  (∃ σ', SSE.serve Cases.unattachable (Cases.silent "s1")
           (Scenario.get "/sse" (Some "k1")) SSE.initial = (JS.Returns tt, σ')
     ∧ SSE.statusCode (SSE.res σ') = Some 500
     ∧ is_Some (SSE.activeTransports σ' !! "s1"))
  ∧ (∃ σ', SSE.serve Cases.unattachable (Scenario.platform "s1" None)
             (Scenario.get "/sse" (Some "k1")) SSE.initial
           = (JS.Throws SSE.ERR_HTTP_HEADERS_SENT, σ')
       ∧ SSE.statusCode (SSE.res σ') = None
       ∧ is_Some (SSE.activeTransports σ' !! "s1")).
Proof.
  split.
  - destruct (X7_failed_attach_leaves_the_session_registered Cases.unattachable
                (Cases.silent "s1") (Scenario.get "/sse" (Some "k1"))
                None None Cases.Refusing (JS.OtherError "cannot attach") SSE.initial
                eq_refl eq_refl)
      as (o & σ' & calls & Hrun & Hquiet & _ & Hreg & _);
      [ split; [left |]; split; reflexivity | reflexivity | reflexivity
      | left; reflexivity | ].
    destruct (Hquiet eq_refl) as (-> & Hstatus & _).
    exists σ'. repeat split; try assumption. simpl in Hreg. rewrite Hreg. eauto.
  - destruct (X7_failed_attach_leaves_the_session_registered Cases.unattachable
                (Scenario.platform "s1" None) (Scenario.get "/sse" (Some "k1"))
                None None Cases.Refusing (JS.OtherError "cannot attach") SSE.initial
                eq_refl eq_refl)
      as (o & σ' & calls & Hrun & _ & Hsent & Hreg & _);
      [ split; [left |]; split; reflexivity | reflexivity | reflexivity
      | left; reflexivity | ].
    destruct (Hsent eq_refl) as (-> & Hstatus & _).
    exists σ'. repeat split; try assumption. simpl in Hreg. rewrite Hreg. eauto.
Defined.

(** ** When the client hangs up while the session is attached *)

Ltac maintaining prim :=
  repeat first
    [ apply maintains_ret
    | apply maintains_await
    | apply maintains_gets
    | apply maintains_bind; [| intros ?]
    | apply maintains_try; [| intros ?]
    | apply maintains_modify; intros ? ?; prim
    | match goal with
      | |- Laws.maintains _ (match ?x with _ => _ end) => destruct x
      | |- Laws.maintains _ (if ?b then _ else _) => destruct b
      end ].

Section HangUpFacts.
Import JS SSE Laws Terms.
Context {T : Type} `{ServerLike T}.
Variable cfg : Config T.
Variable pf : Platform.

Ltac torn :=
  match goal with
  | Hσ : tornDown _ _ _ _ |- _ =>
      destruct Hσ as (Hgone & Hflag & Hcalled & Hres);
      unfold tornDown; simpl;
      repeat split;
      [ try (apply lookup_delete_None; right); exact Hgone
      | try (apply elem_of_union; right); exact Hflag
      | try (apply elem_of_app; left); exact Hcalled
      | exact Hres ]
  end.

Lemma closeListener_tornDown sid server r server' transport :
  maintains (tornDown sid server r) (closeListener cfg server' transport).
Proof.
  unfold closeListener, emit, deleteTransport, setClosed.
  maintaining ltac:(idtac; torn).
Qed.

Lemma deliver_tornDown sid server r server' transport :
  maintains (tornDown sid server r) (deliver cfg server' transport).
Proof.
  unfold deliver. apply maintains_gets_bind. intros σ Hσ.
  destruct (bool_decide _); [| exact Hσ].
  revert σ Hσ.
  change (maintains (tornDown sid server r)
            (unlisten server' transport ;;
             try_M (closeListener cfg server' transport) (fun _ => mret tt))).
  unfold unlisten.
  maintaining ltac:(idtac; torn); apply closeListener_tornDown.
Qed.

Lemma suspended_tornDown sid server r fires server' transport :
  maintains (tornDown sid server r) (suspended cfg fires server' transport).
Proof.
  unfold suspended. destruct fires; [apply deliver_tornDown | apply maintains_ret].
Qed.

(** The first thing the close listener does is what [tornDown] records. *)
Lemma closeListener_tears_down server transport (σ : State T) :
  tornDown (sessionId transport) server (res σ)
    (closeListener cfg server transport σ).2.
Proof.
  destruct (closeListener_run cfg server transport σ) as [o ->].
  unfold tornDown. simpl. repeat split.
  - apply lookup_delete_eq.
  - apply elem_of_union. left. apply elem_of_singleton. reflexivity.
  - apply elem_of_app. right. left.
Qed.

(** So it is when its response emits [close] while it is pending. *)
Lemma deliver_tears_down server transport (σ : State T) :
  (server, transport) ∈ listening σ ->
  tornDown (sessionId transport) server (res σ) (deliver cfg server transport σ).2.
Proof.
  intros Hin. unfold deliver. unfold mbind at 1, M_bind at 1, gets at 1.
  rewrite bool_decide_eq_true_2 by exact Hin.
  unfold mbind, M_bind, unlisten, modify, try_M. simpl.
  match goal with
  | |- context [closeListener cfg server transport ?s] =>
      pose proof (closeListener_tears_down server transport s) as Hdown;
      destruct (closeListener cfg server transport s) as [[[] | e] σ2]
  end; exact Hdown.
Qed.

Lemma closes_during_connect :
  closesDuringConnect pf = true -> closesBeforeListener pf = false.
Proof.
  unfold closesDuringConnect, closesBeforeListener.
  destruct (closes pf) as [[] |]; intros Hcc; (discriminate || reflexivity).
Qed.

(** The response as [server.connect] may leave it. *)
Lemma announce_hang_up server transport userId (σ : State T) :
  closesDuringConnect pf = true ->
  (server, transport) ∈ listening σ ->
  ∃ r, statusCode r = statusCode (res σ) ∧ body r = body (res σ)
       ∧ tornDown (sessionId transport) server r
           (announce cfg pf server transport userId σ).2.
Proof.
  intros Hcc Hin. unfold announce. rewrite Hcc.
  set (tail := (await (connect server transport) ;;
                emit (TransportSend transport connectionEstablished) ;;
                suspended cfg (closesDuringSend pf) server transport ;;
                await (send pf transport connectionEstablished) ;;
                match onConnect cfg with
                | Some f => emit (OnConnect server userId) ;; await (f server userId)
                | None => mret tt
                end) : M T unit).
  assert (Htail : ∀ r, maintains (tornDown (sessionId transport) server r) tail).
  { intros r. unfold tail, emit.
    maintaining ltac:(idtac; torn); apply suspended_tornDown. }
  unfold mbind at 1 2 3, M_bind at 1 2 3, emit at 1, attach, modify. simpl.
  set (σ1 := (streamStarted (connectSendsHead pf)
                {| activeTransports := activeTransports σ; closed := closed σ;
                   listening := listening σ;
                   attached := (server, transport) :: attached σ;
                   res := res σ; log := log σ ++ [ServerConnect server transport] |}).2).
  assert (H1 : listening σ1 = listening σ
               ∧ statusCode (res σ1) = statusCode (res σ)
               ∧ body (res σ1) = body (res σ)).
  { unfold σ1, streamStarted. destruct (connectSendsHead pf); simpl; auto. }
  destruct H1 as (Hlisten & Hstatus & Hbody).
  exists (res σ1). split; [exact Hstatus |]. split; [exact Hbody |].
  assert (Hdown : tornDown (sessionId transport) server (res σ1)
                    (deliver cfg server transport σ1).2).
  { apply deliver_tears_down. rewrite Hlisten. exact Hin. }
  assert (Hstep : ∀ σ0 : State T,
            (streamStarted (connectSendsHead pf) σ0).1 = Returns tt).
  { intros σ0. unfold streamStarted. destruct (connectSendsHead pf); reflexivity. }
  match goal with
  | |- context [streamStarted (connectSendsHead pf) ?s] =>
      fold σ1; specialize (Hstep s);
      destruct (streamStarted (connectSendsHead pf) s) as [o0 σ0] eqn:Hstream
  end.
  simpl in Hstep. subst o0. simpl in σ1. subst σ1.
  unfold suspended, mbind, M_bind.
  destruct (deliver cfg server transport σ0) as [[[] | e] σ2]; simpl in Hdown |- *;
    [| exact Hdown].
  apply (Htail _ σ2 Hdown).
Qed.

Lemma connectFailed_tornDown sid server r transport :
  sid = sessionId transport ->
  maintains (tornDown sid server r) (connectFailed (T := T) transport).
Proof.
  intros -> σ Hσ. rewrite connectFailed_run.
  pose proof Hσ as (_ & Hflag & _).
  rewrite bool_decide_eq_true_2 by exact Hflag. exact Hσ.
Qed.

Lemma establish_hang_up req userId env key server (σ : State T) :
  createServer cfg req userId env = Returns server ->
  closesDuringConnect pf = true ->
  ∃ r, statusCode r = statusCode (res σ) ∧ body r = body (res σ)
       ∧ tornDown (randomUUID pf) server r (establish cfg pf req userId env key σ).2.
Proof.
  intros Hc Hcc. unfold establish.
  unfold mbind at 1 2 3, M_bind at 1 2 3, emit at 1 2, modify, attempt, await at 1. simpl.
  rewrite Hc. unfold register. rewrite (closes_during_connect Hcc).
  unfold mbind at 1 2 3 4, M_bind at 1 2 3 4, setTransport, setClosed at 1, emit at 1,
    modify, listen. simpl.
  set (transport := {| sessionId := randomUUID pf |}).
  match goal with
  | |- context [try_M _ _ ?s] =>
      destruct (announce_hang_up server transport userId s Hcc) as (r & Hstatus & Hbody & Hdown);
        [simpl; left |]; exists r; split; [exact Hstatus |]; split; [exact Hbody |];
        unfold try_M;
        destruct (announce cfg pf server transport userId s) as [[[] | e] σ2]
  end; simpl in Hdown |- *; [exact Hdown |].
  apply (connectFailed_tornDown (randomUUID pf) server r transport eq_refl σ2 Hdown).
Qed.

End HangUpFacts.

(** X8.  When the client's connection closes while the admitted session is
    being attached (during [server.connect]), the close listener runs at
    once and the handler ends quietly, whatever [server.connect],
    [transport.send] and [onConnect] then do: [server.close] was called, the
    session is no longer registered, and the handler writes no status on
    the closed response (the 500 of the error path is withheld). *)
Theorem X8_hang_up_while_attaching {T : Type} `{SSE.ServerLike T}
    (cfg : SSE.Config T) (pf : SSE.Platform) (req : SSE.IncomingMessage)
    (userId : option string) (env : option JS.Env) (server : T)
    (σ : SSE.State T) :
  let key := default (JS.Text "") (SSE.extractApiKey cfg pf req) in
  Terms.isConnect cfg req = true ->
  JS.truthy_credential (SSE.extractApiKey cfg pf req) = true ->
  Terms.admits cfg key userId env ->
  SSE.createServer cfg req userId env = JS.Returns server ->
  SSE.closesDuringConnect pf = true ->
  ∃ σ',
    SSE.serve cfg pf req σ = (JS.Returns tt, σ')
    ∧ SSE.activeTransports σ' !! SSE.randomUUID pf = None
    ∧ SSE.statusCode (SSE.res σ') = None
    ∧ SSE.body (SSE.res σ') = None
    ∧ SSE.ServerClose server ∈ SSE.log σ'.
Proof.
  intros key Hroute Hkey Hadm Hmake Hcc.
  destruct (serve_connect cfg pf req σ Hroute) as [hs Hserve].
  rewrite (handleConnect_admitted cfg pf req userId env _ Hkey Hadm) in Hserve.
  fold key in Hserve.
  set (σ0 := Terms.called (Terms.authCalls cfg key)
               (Terms.withHeaders hs (SSE.arrival σ))) in Hserve.
  destruct (establish_hang_up cfg pf req userId env key server σ0 Hmake Hcc)
    as (r & Hstatus & Hbody & Hgone & Hflag & Hcalled & Hres).
  assert (Hret : (SSE.establish cfg pf req userId env key σ0).1 = JS.Returns tt).
  { unfold SSE.establish.
    unfold mbind at 1 2 3, SSE.M_bind at 1 2 3, SSE.emit at 1 2, SSE.modify,
      SSE.attempt, SSE.await at 1. simpl.
    rewrite Hmake. unfold SSE.register.
    unfold mbind at 1 2 3 4, SSE.M_bind at 1 2 3 4, SSE.setTransport,
      SSE.setClosed at 1, SSE.emit at 1, SSE.modify. simpl.
    rewrite (closes_during_connect pf Hcc). unfold SSE.listen, SSE.modify, SSE.try_M.
    simpl.
    match goal with
    | |- context [SSE.announce cfg pf server ?t userId ?s] =>
        destruct (announce_hang_up cfg pf server t userId s Hcc)
          as (r' & _ & _ & _ & Hflag' & _); [simpl; left |];
        destruct (SSE.announce cfg pf server t userId s) as [[[] | e] σ2]
    end; simpl in Hflag' |- *; [reflexivity |].
    rewrite connectFailed_run, bool_decide_eq_true_2 by exact Hflag'. reflexivity. }
  destruct (SSE.establish cfg pf req userId env key σ0) as [o σ'] eqn:Hrun.
  simpl in Hgone, Hcalled, Hres, Hret. subst o.
  exists σ'. split; [exact Hserve |]. rewrite Hres, Hstatus, Hbody. auto.
Qed.

(** X8 at a client that hangs up at once; the transport then refuses the
    notification. *)
Lemma X8_hang_up_while_attaching_witness :
  ∃ σ', SSE.serve Scenario.open (Cases.hangingUp "s1")
          (Scenario.get "/sse" (Some "k1")) SSE.initial = (JS.Returns tt, σ')
    ∧ SSE.activeTransports σ' !! "s1" = None
    ∧ SSE.statusCode (SSE.res σ') = None.
Proof.
  destruct (X8_hang_up_while_attaching Scenario.open (Cases.hangingUp "s1")
              (Scenario.get "/sse" (Some "k1")) None None Scenario.Healthy
              SSE.initial eq_refl eq_refl)
    as (σ' & Hrun & Hgone & Hstatus & _).
  - split; [left |]; split; reflexivity.
  - reflexivity.
  - reflexivity.
  - exists σ'. repeat split; assumption.
Defined.

(** ** Every registered session can be torn down *)

Section ListeningFacts.
Import JS SSE Laws Terms.
Context {T : Type} `{ServerLike T}.
Variable cfg : Config T.

Lemma elem_of_without {A} `{EqDecision A} (x y : A) (l : list A) :
  y ≠ x -> y ∈ l -> y ∈ without x l.
Proof.
  intros Hne. induction l as [| z l IH]; intros Hin; simpl; [exact Hin |].
  destruct (decide (x = z)) as [-> | Hxz].
  - apply elem_of_cons in Hin as [-> | Hin]; [contradiction | exact Hin].
  - apply elem_of_cons in Hin as [-> | Hin]; [left | right; apply IH, Hin].
Qed.

(** The state in which [deliver] leaves the listener when the listener of
    [server] and [transport] was pending. *)
Lemma deliver_run server transport (σ : State T) :
  (server, transport) ∈ listening σ ->
  ∃ o, deliver cfg server transport σ =
    (o, {| activeTransports := delete (sessionId transport) (activeTransports σ);
           closed := {[sessionId transport]} ∪ closed σ;
           listening := without (server, transport) (listening σ);
           attached := attached σ;
           res := res σ;
           log := log σ ++ ServerClose server :: onCloseCalls cfg server |}).
Proof.
  intros Hin. unfold deliver. unfold mbind at 1, M_bind at 1, gets at 1.
  rewrite bool_decide_eq_true_2 by exact Hin.
  unfold mbind, M_bind, unlisten, modify, try_M. simpl.
  match goal with
  | |- context [closeListener cfg server transport ?s] =>
      destruct (closeListener_run cfg server transport s) as [o ->]
  end.
  destruct o as [[] | e]; eauto.
Qed.

(** A [close] event for which no listener is pending changes nothing. *)
Lemma deliver_idle server transport (σ : State T) :
  (server, transport) ∉ listening σ ->
  deliver cfg server transport σ = (Returns tt, σ).
Proof.
  intros Hout. unfold deliver. unfold mbind at 1, M_bind at 1, gets at 1.
  rewrite bool_decide_eq_false_2 by exact Hout. reflexivity.
Qed.

Lemma deliver_allListening server transport :
  maintains allListening (deliver cfg server transport).
Proof.
  intros σ Hσ.
  destruct (decide ((server, transport) ∈ listening σ)) as [Hin | Hout];
    [| rewrite deliver_idle by exact Hout; exact Hσ].
  destruct (deliver_run server transport σ Hin) as [o ->]. simpl.
  intros key session Hl. simpl in Hl.
  apply lookup_delete_Some in Hl as [Hne Hl].
  destruct (Hσ key session Hl) as [server' Hpending]. exists server'. simpl.
  apply elem_of_without; [| exact Hpending].
  intros Heq. injection Heq as _ Ht. apply Hne. rewrite <- Ht. reflexivity.
Qed.

(** A [close] event does not touch the sessions of other transports. *)
Lemma deliver_entry key server transport (σ : State T) :
  sessionId transport ≠ key ->
  activeTransports (deliver cfg server transport σ).2 !! key = activeTransports σ !! key.
Proof.
  intros Hne.
  destruct (decide ((server, transport) ∈ listening σ)) as [Hin | Hout];
    [| rewrite deliver_idle by exact Hout; reflexivity].
  destruct (deliver_run server transport σ Hin) as [o ->]. simpl.
  apply lookup_delete_ne. exact Hne.
Qed.

Lemma suspended_allListening fires server transport :
  maintains allListening (suspended cfg fires server transport).
Proof.
  unfold suspended. destruct fires; [apply deliver_allListening | apply maintains_ret].
Qed.

Ltac quiet :=
  match goal with
  | Hσ : allListening ?σ |- allListening _ =>
      let key := fresh "key" in
      let session := fresh "session" in
      let Hl := fresh "Hl" in
      let server := fresh "server" in
      let Hin := fresh "Hin" in
      intros key session Hl; simpl in Hl;
      try (apply lookup_delete_Some in Hl as [_ Hl]);
      destruct (Hσ key session Hl) as [server Hin]; exists server; simpl;
      try right; exact Hin
  end.

Ltac listening_with unit :=
  repeat first
    [ unit
    | apply suspended_allListening
    | apply maintains_attempt
    | apply maintains_ret
    | apply maintains_await
    | apply maintains_gets
    | apply maintains_bind; [| intros ?]
    | apply maintains_try; [| intros ?]
    | apply maintains_modify; intros ? ?; quiet
    | match goal with
      | |- maintains _ (match ?x with _ => _ end) => destruct x
      | |- maintains _ (if ?b then _ else _) => destruct b
      end ].

Ltac listening := listening_with fail.

Lemma answer_allListening status text :
  maintains (T := T) allListening (writeHead status ;; end_ text).
Proof. unfold writeHead, end_, withRes. listening. Qed.

(** Lines 148-152: between the registration of the session and the
    attachment of its close listener the handler does not pause. *)
Lemma register_allListening pf server transport userId env key :
  closesBeforeListener pf = false ->
  maintains allListening (register cfg pf server transport userId env key).
Proof.
  intros Hearly σ Hσ. unfold register. rewrite Hearly.
  unfold mbind at 1 2 3 4, M_bind at 1 2 3 4, setTransport, setClosed at 1, emit at 1,
    modify, listen. simpl.
  match goal with
  | |- allListening (try_M ?body ?handler ?s).2 =>
      apply (maintains_try allListening body handler)
  end.
  - unfold announce, emit, attach, streamStarted, withRes. listening.
  - intros e. unfold connectFailed, isClosed, writeHead, end_, withRes. listening.
  - intros k s Hl. simpl in Hl. simpl.
    apply lookup_insert_Some in Hl as [[<- <-] | [_ Hl]].
    + exists server. destruct transport. left.
    + destruct (Hσ k s Hl) as [server' Hin]. exists server'. right. exact Hin.
Qed.

Lemma requestListener_allListening pf req :
  closesBeforeListener pf = false ->
  maintains allListening (requestListener cfg pf req).
Proof.
  intros Hearly.
  unfold requestListener, cors, handleConnect, handleMessage, establish,
    setHeader, writeHead, end_, withRes, emit.
  cbv zeta.
  listening_with ltac:(apply register_allListening; exact Hearly).
Qed.

Lemma relay_allListening (server : T) transport message :
  maintains allListening (relay server transport message).
Proof. unfold relay, emit. listening. Qed.

End ListeningFacts.

(** X9.  As long as no client hangs up before line 152 has attached the
    close listener, in every state the listener reaches from start-up every
    registered session has a close listener pending, and the [close] event
    of that listener's response removes the session: no session is
    registered that the close of its connection could not remove. *)
Theorem X9_registered_sessions_have_a_close_listener {T : Type} `{SSE.ServerLike T}
    (cfg : SSE.Config T) (inputs : list (SSE.input T)) (key : string)
    (session : SSE.Session.t) :
  (∀ pf req, SSE.Request pf req ∈ inputs -> SSE.closesBeforeListener pf = false) ->
  SSE.activeTransports (SSE.runAll cfg SSE.initial inputs) !! key = Some session ->
  ∃ server,
    (server, {| SSE.sessionId := key |}) ∈ SSE.listening (SSE.runAll cfg SSE.initial inputs)
    ∧ SSE.activeTransports
        (SSE.react cfg (SSE.runAll cfg SSE.initial inputs)
           (SSE.Close server {| SSE.sessionId := key |})) !! key = None.
Proof.
  intros Hprompt.
  assert (Hall : ∀ σ, Laws.allListening σ -> Laws.allListening (SSE.runAll cfg σ inputs)).
  { induction inputs as [| i inputs IH]; intros σ Hσ; simpl; [exact Hσ |].
    apply IH; [intros pf req Hin; apply (Hprompt pf req); right; exact Hin |].
    destruct i as [pf req | server transport | server transport message]; simpl.
    - unfold SSE.serve. apply requestListener_allListening.
      + apply (Hprompt pf req). left.
      + intros k s Hl. exact (Hσ k s Hl).
    - apply deliver_allListening, Hσ.
    - apply relay_allListening, Hσ. }
  intros Hreg.
  assert (Hinit : Laws.allListening (SSE.initial (T := T))).
  { intros k s Hl. simpl in Hl. rewrite lookup_empty in Hl. discriminate. }
  destruct (Hall _ Hinit key session Hreg) as [server Hpending].
  exists server. split; [exact Hpending |]. simpl.
  destruct (deliver_run cfg server {| SSE.sessionId := key |} _ Hpending) as [o ->].
  simpl. apply lookup_delete_eq.
Qed.

(** X9 after two clients have connected. *)
Lemma X9_registered_sessions_have_a_close_listener_witness :
  ∃ server,
    (server, {| SSE.sessionId := "sB" |})
      ∈ SSE.listening (SSE.runAll Scenario.open SSE.initial Scenario.twoConnects)
    ∧ SSE.activeTransports
        (SSE.runAll Scenario.open SSE.initial
           (Scenario.twoConnects ++ [SSE.Close server {| SSE.sessionId := "sB" |}]))
        !! "sB" = None.
Proof.
  destruct (X9_registered_sessions_have_a_close_listener Scenario.open
              Scenario.twoConnects "sB" (Terms.sessionOf "sB" None None (JS.Text "kB")))
    as (server & Hpending & Hgone).
  - intros pf req Hin. apply list_elem_of_In in Hin. simpl in Hin.
    destruct Hin as [Heq | [Heq | []]]; injection Heq as <- _; reflexivity.
  - reflexivity.
  - exists server. split; [exact Hpending |].
    unfold SSE.runAll. rewrite foldl_app. exact Hgone.
Defined.

(** X10.  A session stays in the registry, unchanged, through everything
    that does not concern it: requests of other clients (whatever their
    route and outcome) and close events of other connections.  Only the
    close event of its own transport, or a new transport drawing the same
    id, can change its entry. *)
Theorem X10_a_session_outlives_what_passes_it_by {T : Type} `{SSE.ServerLike T}
    (cfg : SSE.Config T) (inputs : list (SSE.input T)) (key : string)
    (σ : SSE.State T) :
  (∀ i, i ∈ inputs -> Laws.passesBy key i) ->
  SSE.activeTransports (SSE.runAll cfg σ inputs) !! key = SSE.activeTransports σ !! key.
Proof.
  revert σ. induction inputs as [| i inputs IH]; intros σ Hpass; simpl; [reflexivity |].
  rewrite IH by (intros j Hj; apply Hpass; right; exact Hj).
  assert (Hi : Laws.passesBy key i) by (apply Hpass; left).
  destruct i as [pf req | server transport | server transport message]; simpl in *.
  - apply (requestListener_sameEntry cfg pf req key (not_eq_sym Hi) (SSE.arrival σ)).
  - apply deliver_entry, Hi.
  - unfold SSE.relay. unfold mbind, SSE.M_bind, SSE.gets.
    destruct (bool_decide _); reflexivity.
Qed.

(** X10 at session [sA] while [sB] closes and a third client connects. *)
Lemma X10_a_session_outlives_what_passes_it_by_witness :
  SSE.activeTransports
    (SSE.runAll Scenario.open Scenario.twoSessions
       [ SSE.Close Scenario.Healthy {| SSE.sessionId := "sB" |};
         SSE.Request (Scenario.platform "sC" None) (Scenario.get "/sse" (Some "kC")) ])
    !! "sA"
  = Some (Terms.sessionOf "sA" None None (JS.Text "kA")).
Proof.
  rewrite (X10_a_session_outlives_what_passes_it_by Scenario.open _ "sA").
  - reflexivity.
  - intros i Hi. apply list_elem_of_In in Hi. simpl in Hi.
    destruct Hi as [<- | [<- | []]]; simpl; discriminate.
Defined.

(** ** The life of a session id *)

(** X11.  A message posted without [sessionId], with an empty one, or with
    one that names no registered session and is not a member name of
    [Object.prototype], is answered 400; the transport of no session is
    called and registry and call record stay as they were. *)
Theorem X11_unknown_session_is_400 {T : Type} `{SSE.ServerLike T}
    (cfg : SSE.Config T) (pf : SSE.Platform) (req : SSE.IncomingMessage)
    (sessionId : option string) (σ : SSE.State T) :
  Terms.isMessage req = true ->
  Terms.postedSessionId pf req = Some sessionId ->
  JS.truthy_ostr sessionId = false
  ∨ (SSE.activeTransports σ !! default "" sessionId = None
     ∧ JS.is_object_prototype_key (default "" sessionId) = false) ->
  ∃ σ', SSE.serve cfg pf req σ = (JS.Returns tt, σ')
        ∧ SSE.statusCode (SSE.res σ') = Some 400
        ∧ (JS.truthy_ostr sessionId = false -> SSE.body (SSE.res σ') = Some "No sessionId")
        ∧ (JS.truthy_ostr sessionId = true ->
           SSE.body (SSE.res σ') = Some "No active transport")
        ∧ SSE.activeTransports σ' = SSE.activeTransports σ
        ∧ SSE.log σ' = SSE.log σ.
Proof.
  intros Hroute Hsid Hcase.
  destruct (serve_message cfg pf req σ Hroute) as [hs Hserve].
  rewrite (handleMessage_run pf req (Terms.withHeaders hs (SSE.arrival σ)) eq_refl), Hsid
    in Hserve.
  destruct (JS.truthy_ostr sessionId) eqn:Ht; simpl in Hserve.
  - destruct Hcase as [Hf | [Hnone Hproto]]; [discriminate |].
    unfold JS.get_property in Hserve. simpl in Hserve.
    rewrite Hnone, Hproto in Hserve.
    eexists. split; [exact Hserve |]. simpl. rewrite app_nil_r.
    repeat split; auto. discriminate.
  - eexists. split; [exact Hserve |]. simpl. rewrite app_nil_r.
    repeat split; auto. discriminate.
Qed.

(** X11 at a post for a session that does not exist. *)
Lemma X11_unknown_session_is_400_witness :
  ∃ σ', SSE.serve Scenario.open (Scenario.platform "s9" (Some "gone"))
          (Scenario.post "/messages?sessionId=gone") Scenario.twoSessions
        = (JS.Returns tt, σ')
    ∧ SSE.statusCode (SSE.res σ') = Some 400
    ∧ SSE.body (SSE.res σ') = Some "No active transport".
Proof.
  destruct (X11_unknown_session_is_400 Scenario.open (Scenario.platform "s9" (Some "gone"))
              (Scenario.post "/messages?sessionId=gone") (Some "gone")
              Scenario.twoSessions eq_refl eq_refl)
    as (σ' & Hrun & Hstatus & _ & Hbody & _).
  - right. split; reflexivity.
  - exists σ'. repeat split; try assumption. apply Hbody. reflexivity.
Defined.

(** X12.  A message posted to a registered session is handed to that
    session's transport without any authentication: neither the auth
    handler nor the static key is consulted, whatever credential the post
    carries.  The listener's outcome is the transport's: an error thrown by
    [handlePostMessage] is not caught. *)
Theorem X12_known_session_needs_no_credential {T : Type} `{SSE.ServerLike T}
    (cfg : SSE.Config T) (pf : SSE.Platform) (req : SSE.IncomingMessage)
    (sessionId : string) (session : SSE.Session.t) (σ : SSE.State T) :
  Terms.isMessage req = true ->
  Terms.postedSessionId pf req = Some (Some sessionId) ->
  JS.truthy_str sessionId = true ->
  SSE.activeTransports σ !! sessionId = Some session ->
  ∃ σ', SSE.serve cfg pf req σ
          = (SSE.handlePostMessage pf (SSE.Session.transport session) req, σ')
        ∧ SSE.activeTransports σ' = SSE.activeTransports σ
        ∧ SSE.log σ'
            = (SSE.log σ ++ [SSE.HandlePostMessage (SSE.Session.transport session) req])%list
        ∧ ∀ key, SSE.AuthHandlerCalled key ∈ SSE.log σ' ->
                 SSE.AuthHandlerCalled key ∈ SSE.log σ.
Proof.
  intros Hroute Hsid Ht Hreg.
  destruct (message_known_session cfg pf req sessionId session σ Hroute Hsid Ht Hreg)
    as (σ' & Hrun & Hsame & Hlog).
  exists σ'. split; [exact Hrun |].
  split; [exact Hsame |]. split; [exact Hlog |].
  intros key Hin. rewrite Hlog in Hin. apply elem_of_app in Hin as [Hin | Hin]; [exact Hin |].
  apply list_elem_of_singleton in Hin. discriminate.
Qed.

(** X12 at a post without any credential to a session of the keyed
    listener. *)
Lemma X12_known_session_needs_no_credential_witness :
  let σ := {| SSE.activeTransports :=
                {[ "sA" := Terms.sessionOf "sA" None None (JS.Text "secret") ]};
              SSE.closed := ∅;
              SSE.listening := [(Scenario.Healthy, {| SSE.sessionId := "sA" |})];
              SSE.attached := [(Scenario.Healthy, {| SSE.sessionId := "sA" |})];
              SSE.res := SSE.freshResponse; SSE.log := [] |} in
  ∃ σ', SSE.serve Scenario.keyed (Scenario.platform "s9" (Some "sA"))
          (Scenario.post "/messages?sessionId=sA") σ = (JS.Returns tt, σ')
    ∧ SSE.log σ' = [SSE.HandlePostMessage {| SSE.sessionId := "sA" |}
                      (Scenario.post "/messages?sessionId=sA")].
Proof.
  intros σ.
  destruct (X12_known_session_needs_no_credential Scenario.keyed
              (Scenario.platform "s9" (Some "sA"))
              (Scenario.post "/messages?sessionId=sA") "sA"
              (Terms.sessionOf "sA" None None (JS.Text "secret")) σ
              eq_refl eq_refl eq_refl eq_refl)
    as (σ' & Hrun & _ & Hlog & _).
  exists σ'. split; [exact Hrun | exact Hlog].
Defined.

(** X13.  A session can be posted to under the id its transport drew: after
    a connect request that succeeded, a message posted with that id is
    handed to the transport created for that connect. *)
Theorem X13_posts_reach_the_session_just_opened {T : Type} `{SSE.ServerLike T}
    (cfg : SSE.Config T) (pf pf' : SSE.Platform) (req req' : SSE.IncomingMessage)
    (userId : option string) (env : option JS.Env) (server : T)
    (σ : SSE.State T) :
  let key := default (JS.Text "") (SSE.extractApiKey cfg pf req) in
  let transport := {| SSE.sessionId := SSE.randomUUID pf |} in
  Terms.isConnect cfg req = true ->
  JS.truthy_credential (SSE.extractApiKey cfg pf req) = true ->
  Terms.admits cfg key userId env ->
  SSE.createServer cfg req userId env = JS.Returns server ->
  SSE.closesDuringConnect pf = false ->
  SSE.connect server transport = JS.Returns tt ->
  SSE.closesDuringSend pf = false ->
  SSE.send pf transport SSE.connectionEstablished = JS.Returns tt ->
  Terms.onConnectReturns cfg server userId ->
  Terms.isMessage req' = true ->
  Terms.postedSessionId pf' req' = Some (Some (SSE.randomUUID pf)) ->
  JS.truthy_str (SSE.randomUUID pf) = true ->
  ∃ σ'',
    SSE.serve cfg pf' req' (SSE.serve cfg pf req σ).2
      = (SSE.handlePostMessage pf' transport req', σ'')
    ∧ SSE.log σ''
        = (SSE.log (SSE.serve cfg pf req σ).2 ++ [SSE.HandlePostMessage transport req'])%list.
Proof.
  intros key transport Hroute Hkey Hadm Hmake Hcc Hconn Hcs Hsend Hon Hroute' Hsid Ht.
  destruct (serve_connect cfg pf req σ Hroute) as [hs Hserve].
  rewrite (handleConnect_admitted cfg pf req userId env _ Hkey Hadm) in Hserve.
  rewrite (establish_succeeds cfg pf req userId env _ server _
             Hmake Hcc Hconn Hcs Hsend Hon) in Hserve.
  rewrite Hserve. simpl.
  match goal with
  | |- ∃ σ'', SSE.serve _ _ _ ?s = _ ∧ _ =>
      destruct (message_known_session cfg pf' req' (SSE.randomUUID pf)
                  (Terms.sessionOf (SSE.randomUUID pf) userId env key) s
                  Hroute' Hsid Ht) as (σ'' & Hrun & _ & Hlog);
        [simpl; apply lookup_insert_eq |]
  end.
  exists σ''. split; [exact Hrun | exact Hlog].
Qed.

(** X13 at a client that connects and then posts. *)
Lemma X13_posts_reach_the_session_just_opened_witness :
  let connected := (SSE.serve Scenario.open (Scenario.platform "s1" None)
                      (Scenario.get "/sse" (Some "k1")) SSE.initial).2 in
  ∃ σ'',
    SSE.serve Scenario.open (Scenario.platform "s2" (Some "s1"))
      (Scenario.post "/messages?sessionId=s1") connected = (JS.Returns tt, σ'')
    ∧ SSE.HandlePostMessage {| SSE.sessionId := "s1" |}
        (Scenario.post "/messages?sessionId=s1") ∈ SSE.log σ''.
Proof.
  intros connected.
  destruct (X13_posts_reach_the_session_just_opened Scenario.open
              (Scenario.platform "s1" None) (Scenario.platform "s2" (Some "s1"))
              (Scenario.get "/sse" (Some "k1")) (Scenario.post "/messages?sessionId=s1")
              None None Scenario.Healthy SSE.initial eq_refl eq_refl)
    as (σ'' & Hrun & Hlog);
    [ split; [left |]; split; reflexivity | reflexivity .. | exact I
    | reflexivity | reflexivity | reflexivity | ].
  exists σ''. split; [exact Hrun |].
  rewrite Hlog. apply elem_of_app. right. left.
Defined.

(** X14.  Once the close listener of a connection has run, its session id
    is no longer accepted: a message posted with it is answered 400 "No
    active transport" and reaches no transport (for an id that is not a
    member name of [Object.prototype], as no generated id is). *)
Theorem X14_posts_after_close_are_400 {T : Type} `{SSE.ServerLike T}
    (cfg : SSE.Config T) (pf : SSE.Platform) (req : SSE.IncomingMessage)
    (server : T) (transport : SSE.SSEServerTransport) (σ : SSE.State T) :
  Terms.isMessage req = true ->
  Terms.postedSessionId pf req = Some (Some (SSE.sessionId transport)) ->
  JS.truthy_str (SSE.sessionId transport) = true ->
  JS.is_object_prototype_key (SSE.sessionId transport) = false ->
  ∃ σ',
    SSE.serve cfg pf req (SSE.closeListener cfg server transport σ).2 = (JS.Returns tt, σ')
    ∧ SSE.statusCode (SSE.res σ') = Some 400
    ∧ SSE.body (SSE.res σ') = Some "No active transport"
    ∧ SSE.log σ' = SSE.log (SSE.closeListener cfg server transport σ).2.
Proof.
  intros Hroute Hsid Ht Hproto.
  destruct (serve_message cfg pf req (SSE.closeListener cfg server transport σ).2 Hroute)
    as [hs Hserve].
  rewrite (handleMessage_run pf req
             (Terms.withHeaders hs
                (SSE.arrival (SSE.closeListener cfg server transport σ).2)) eq_refl), Hsid
    in Hserve.
  simpl in Hserve. rewrite Ht in Hserve.
  simpl in Hserve. unfold JS.get_property in Hserve. simpl in Hserve.
  destruct (closeListener_run cfg server transport σ) as [o Hclose].
  rewrite Hclose in Hserve |- *. simpl in Hserve |- *.
  rewrite lookup_delete_eq, Hproto in Hserve.
  eexists. split; [exact Hserve |]. simpl. rewrite app_nil_r. auto.
Qed.

(** X14 at session [sA] after its connection has closed. *)
Lemma X14_posts_after_close_are_400_witness :
  let closed := (SSE.closeListener Scenario.open Scenario.Healthy
                   {| SSE.sessionId := "sA" |} Scenario.twoSessions).2 in
  ∃ σ',
    SSE.serve Scenario.open (Scenario.platform "s9" (Some "sA"))
      (Scenario.post "/messages?sessionId=sA") closed = (JS.Returns tt, σ')
    ∧ SSE.statusCode (SSE.res σ') = Some 400.
Proof.
  intros closed.
  destruct (X14_posts_after_close_are_400 Scenario.open
              (Scenario.platform "s9" (Some "sA"))
              (Scenario.post "/messages?sessionId=sA") Scenario.Healthy
              {| SSE.sessionId := "sA" |} Scenario.twoSessions
              eq_refl eq_refl eq_refl eq_refl)
    as (σ' & Hrun & Hstatus & _).
  exists σ'. split; [exact Hrun | exact Hstatus].
Defined.

(** ** Shutting down *)

Section ShutdownFacts.
Import JS SSE Shutdown.
Variable transportClose : SSEServerTransport -> outcome unit.

Lemma closeTransports_all (sessions : list Session.t) :
  (∀ s, s ∈ sessions -> transportClose (Session.transport s) = Returns tt) ->
  closeTransports transportClose sessions = (Returns tt, closing <$> sessions).
Proof.
  induction sessions as [| s rest IH]; intros Hall; simpl; [reflexivity |].
  rewrite (Hall s) by left.
  rewrite IH by (intros s' Hs'; apply Hall; right; exact Hs'). reflexivity.
Qed.

Lemma closeTransports_stops (before after : list Session.t) s e :
  (∀ s', s' ∈ before -> transportClose (Session.transport s') = Returns tt) ->
  transportClose (Session.transport s) = Throws e ->
  closeTransports transportClose (before ++ s :: after)
    = (Throws e, ((closing <$> before) ++ [closing s])%list).
Proof.
  intros Hall Hs. induction before as [| b before IH]; simpl.
  - rewrite Hs. reflexivity.
  - rewrite (Hall b) by left.
    rewrite IH by (intros s' Hs'; apply Hall; right; exact Hs'). reflexivity.
Qed.

Lemma values_app order1 order2 (registry : gmap string Session.t) :
  values (order1 ++ order2)%list registry
    = (values order1 registry ++ values order2 registry)%list.
Proof. unfold values. apply omap_app. Qed.

Lemma elem_of_values order (registry : gmap string Session.t) s :
  s ∈ values order registry ↔ ∃ key, key ∈ order ∧ registry !! key = Some s.
Proof. unfold values. apply list_elem_of_omap. Qed.

Lemma closings_cons c calls transport :
  closings transport (c :: calls) =
    (match c with
     | TransportClose t =>
         if String.eqb (sessionId t) (sessionId transport) then 1 else 0
     | HttpServerClose => 0
     end + closings transport calls)%nat.
Proof.
  unfold closings. simpl. destruct c as [t |]; [| reflexivity].
  destruct (String.eqb (sessionId t) (sessionId transport)); reflexivity.
Qed.

Lemma values_cons k order (registry : gmap string Session.t) :
  values (k :: order) registry
    = match registry !! k with
      | Some s => s :: values order registry
      | None => values order registry
      end.
Proof. unfold values. simpl. destruct (registry !! k); reflexivity. Qed.

Lemma closings_absent order (registry : gmap string Session.t) key0 :
  (∀ k s, registry !! k = Some s -> sessionId (Session.transport s) = k) ->
  key0 ∉ order ->
  closings {| sessionId := key0 |} (closing <$> values order registry) = 0.
Proof.
  intros Hkeyed. induction order as [| k order IH]; intros Hout; [reflexivity |].
  apply not_elem_of_cons in Hout as [Hne Hout]. rewrite values_cons.
  destruct (registry !! k) as [s |] eqn:Hreg; [| apply IH, Hout].
  rewrite fmap_cons, closings_cons. unfold closing at 1. simpl.
  rewrite (Hkeyed k s Hreg). apply not_eq_sym, String.eqb_neq in Hne. rewrite Hne.
  simpl. apply IH, Hout.
Qed.

Lemma closings_present order (registry : gmap string Session.t) key0 s0 :
  (∀ k s, registry !! k = Some s -> sessionId (Session.transport s) = k) ->
  NoDup order -> key0 ∈ order -> registry !! key0 = Some s0 ->
  closings {| sessionId := key0 |} (closing <$> values order registry) = 1.
Proof.
  intros Hkeyed Hnd. induction Hnd as [| k order Hk Hnd IH]; intros Hin Hreg0.
  - apply elem_of_nil in Hin. contradiction.
  - rewrite values_cons. apply elem_of_cons in Hin as [<- | Hin].
    + rewrite Hreg0, fmap_cons, closings_cons. unfold closing at 1. simpl.
      rewrite (Hkeyed key0 s0 Hreg0), String.eqb_refl.
      rewrite (closings_absent order registry key0 Hkeyed Hk). reflexivity.
    + assert (Hne : k ≠ key0) by (intros ->; contradiction).
      destruct (registry !! k) as [s |] eqn:Hreg; [| apply IH; assumption].
      rewrite fmap_cons, closings_cons. unfold closing at 1. simpl.
      rewrite (Hkeyed k s Hreg). apply String.eqb_neq in Hne. rewrite Hne.
      simpl. apply IH; assumption.
Qed.

Lemma closings_app transport calls1 calls2 :
  closings transport (calls1 ++ calls2)%list
    = (closings transport calls1 + closings transport calls2)%nat.
Proof. unfold closings. rewrite List.filter_app, List.length_app. reflexivity. Qed.

Lemma closings_of (session : Session.t) calls :
  closings (Session.transport session) calls
    = closings {| sessionId := sessionId (Session.transport session) |} calls.
Proof. reflexivity. Qed.

End ShutdownFacts.

Lemma twoSessions_enumerated :
  Shutdown.enumerates ["sA"; "sB"] (SSE.activeTransports Scenario.twoSessions).
Proof.
  split.
  - apply NoDup_cons. split; [| apply NoDup_singleton].
    intros Hin. apply list_elem_of_singleton in Hin. discriminate.
  - intros key. split.
    + intros Hin. apply list_elem_of_In in Hin. simpl in Hin.
      destruct Hin as [<- | [<- | []]]; eexists; reflexivity.
    + intros [s Hl]. simpl in Hl.
      apply lookup_insert_Some in Hl as [[<- _] | [_ Hl]]; [left |].
      apply lookup_singleton_Some in Hl as [<- _]. right. left.
Defined.

Lemma twoSessions_keyed : Shutdown.keyed (SSE.activeTransports Scenario.twoSessions).
Proof.
  intros key session Hl. simpl in Hl.
  apply lookup_insert_Some in Hl as [[<- <-] | [_ Hl]]; [reflexivity |].
  apply lookup_singleton_Some in Hl as [<- <-]. reflexivity.
Defined.

(** X15.  When every transport closes without error, [close] closes the
    transport of every registered session exactly once, closes no other
    transport, and only then closes the HTTP server, once; it resolves, or
    rejects with the error the HTTP server reports. *)
Theorem X15_close_closes_every_session_then_the_server
    (transportClose : SSE.SSEServerTransport -> JS.outcome unit)
    (httpServerClose : option JS.error) (order : list string)
    (registry : gmap string SSE.Session.t) :
  Shutdown.enumerates order registry ->
  Shutdown.keyed registry ->
  (∀ key session, registry !! key = Some session ->
                  transportClose (SSE.Session.transport session) = JS.Returns tt) ->
  ∃ calls,
    Shutdown.close transportClose httpServerClose order registry
      = (match httpServerClose with
         | Some e => JS.Throws e
         | None => JS.Returns tt
         end, (calls ++ [Shutdown.HttpServerClose])%list)
    ∧ (∀ key session, registry !! key = Some session ->
         Shutdown.closings (SSE.Session.transport session) calls = 1)
    ∧ (∀ transport, Shutdown.TransportClose transport ∈ calls ->
         ∃ session, registry !! SSE.sessionId transport = Some session
                    ∧ SSE.Session.transport session = transport)
    ∧ Shutdown.HttpServerClose ∉ calls.
Proof.
  intros [Hnd Hdom] Hkeyed Hall.
  exists (Shutdown.closing <$> Shutdown.values order registry).
  unfold Shutdown.close. rewrite closeTransports_all.
  2:{ intros s Hs. apply elem_of_values in Hs as (key & _ & Hreg). eauto. }
  split; [reflexivity |]. split; [| split].
  - intros key session Hreg. rewrite closings_of, (Hkeyed key session Hreg).
    apply (closings_present order registry key session Hkeyed Hnd); [| exact Hreg].
    apply Hdom. eauto.
  - intros transport Hin. apply list_elem_of_fmap in Hin as (session & Heq & Hs).
    apply elem_of_values in Hs as (key & _ & Hreg).
    injection Heq as ->. exists session. rewrite (Hkeyed key session Hreg). auto.
  - intros Hin. apply list_elem_of_fmap in Hin as (session & Heq & _). discriminate.
Qed.

(** X15 at a registry of two sessions. *)
Lemma X15_close_closes_every_session_then_the_server_witness :
  Shutdown.close (fun _ => JS.Returns tt) None ["sA"; "sB"]
    (SSE.activeTransports Scenario.twoSessions)
  = (JS.Returns tt,
     [ Shutdown.TransportClose {| SSE.sessionId := "sA" |};
       Shutdown.TransportClose {| SSE.sessionId := "sB" |};
       Shutdown.HttpServerClose ]).
Proof.
  destruct (X15_close_closes_every_session_then_the_server (fun _ => JS.Returns tt) None
              ["sA"; "sB"] (SSE.activeTransports Scenario.twoSessions))
    as (calls & Hrun & _).
  - exact twoSessions_enumerated.
  - exact twoSessions_keyed.
  - reflexivity.
  - reflexivity.
Defined.

(** X16.  When the transport of one session fails to close, [close]
    rejects with that error and stops there: the sessions later in the
    registry are not closed and the HTTP server is not closed, it keeps
    listening. *)
Theorem X16_a_failing_transport_aborts_the_shutdown
    (transportClose : SSE.SSEServerTransport -> JS.outcome unit)
    (httpServerClose : option JS.error) (before after : list string) (key : string)
    (session : SSE.Session.t) (e : JS.error) (registry : gmap string SSE.Session.t) :
  Shutdown.enumerates (before ++ key :: after)%list registry ->
  Shutdown.keyed registry ->
  registry !! key = Some session ->
  transportClose (SSE.Session.transport session) = JS.Throws e ->
  (∀ k s, k ∈ before -> registry !! k = Some s ->
          transportClose (SSE.Session.transport s) = JS.Returns tt) ->
  ∃ calls,
    Shutdown.close transportClose httpServerClose (before ++ key :: after)%list registry
      = (JS.Throws e, calls)
    ∧ (Shutdown.HttpServerClose ∉ calls)
    ∧ ∀ k s, k ∈ after -> registry !! k = Some s ->
             Shutdown.closings (SSE.Session.transport s) calls = 0.
Proof.
  intros [Hnd Hdom] Hkeyed Hreg Hfail Hbefore.
  unfold Shutdown.close.
  rewrite values_app, values_cons, Hreg.
  rewrite (closeTransports_stops transportClose _ _ session e); [| | exact Hfail].
  2:{ intros s Hs. apply elem_of_values in Hs as (k & Hk & Hl). eauto. }
  eexists. split; [reflexivity |]. split.
  - intros Hin. apply elem_of_app in Hin as [Hin | Hin].
    + apply list_elem_of_fmap in Hin as (s & Heq & _). discriminate.
    + apply list_elem_of_singleton in Hin. discriminate.
  - intros k s Hk Hl.
    apply NoDup_app in Hnd as (_ & Hdisjoint & Hnd2).
    apply NoDup_cons in Hnd2 as [Hkey _].
    rewrite closings_app, closings_of, (Hkeyed k s Hl).
    rewrite (closings_absent before registry k Hkeyed).
    2:{ intros Hin. apply (Hdisjoint k Hin). right. exact Hk. }
    rewrite closings_cons. unfold Shutdown.closing.
    assert (Hne : key ≠ k) by (intros ->; contradiction).
    apply String.eqb_neq in Hne.
    rewrite (Hkeyed key session Hreg), (Hkeyed k s Hl), Hne. reflexivity.
Qed.

(** X16 at two sessions, the first of which cannot be closed. *)
Lemma X16_a_failing_transport_aborts_the_shutdown_witness :
  Shutdown.close
    (fun t => if (SSE.sessionId t =? "sA") then JS.Throws (JS.OtherError "stuck")
              else JS.Returns tt)
    None ["sA"; "sB"] (SSE.activeTransports Scenario.twoSessions)
  = (JS.Throws (JS.OtherError "stuck"),
     [ Shutdown.TransportClose {| SSE.sessionId := "sA" |} ]).
Proof.
  destruct (X16_a_failing_transport_aborts_the_shutdown
              (fun t => if (SSE.sessionId t =? "sA") then JS.Throws (JS.OtherError "stuck")
                        else JS.Returns tt)
              None [] ["sB"] "sA" (Terms.sessionOf "sA" None None (JS.Text "kA"))
              (JS.OtherError "stuck") (SSE.activeTransports Scenario.twoSessions))
    as (calls & Hrun & _).
  - exact twoSessions_enumerated.
  - exact twoSessions_keyed.
  - reflexivity.
  - reflexivity.
  - intros k s Hk. apply elem_of_nil in Hk. contradiction.
  - reflexivity.
Defined.

(** ** The environment across sessions *)

Section EnvironmentMoreFacts.
Import JS McpProxy.

(** The empty name and a name with ['='] are never set. *)
Lemma assigned_refused (env : Env) (name : string) :
  valid_name name = false -> assigned env name = None.
Proof.
  intros Hbad. induction env as [| [key value] env IH]; simpl; [reflexivity |].
  rewrite IH. destruct value as [v |]; [| reflexivity].
  destruct (String.eqb_spec (c_str key) name) as [-> | Hne];
    [rewrite Hbad | rewrite andb_false_r]; reflexivity.
Qed.

(** A variable no entry writes is not set. *)
Lemma assigned_untouched (env : Env) (name : string) :
  (∀ key value, (key, Some value) ∈ env -> c_str key ≠ name) ->
  assigned env name = None.
Proof.
  induction env as [| [key value] env IH]; intros Hother; simpl; [reflexivity |].
  rewrite IH by (intros k v Hin; apply (Hother k v); right; exact Hin).
  destruct value as [v |]; [| reflexivity].
  destruct (String.eqb_spec (c_str key) name) as [Heq | Hne];
    [| rewrite andb_false_r; reflexivity].
  exfalso. apply (Hother key v); [left | exact Heq].
Qed.

(** Among entries with distinct names, none of which contains a NUL
    character, the entry of a valid name sets the variable of that name. *)
Lemma assigned_plain (env : Env) (name value : string) :
  NoDup env.*1 ->
  (∀ entry, entry ∈ env -> c_str entry.1 = entry.1) ->
  (name, Some value) ∈ env ->
  valid_name name = true ->
  assigned env name = Some (c_str value).
Proof.
  intros Hdistinct Hplain Hin Hvalid.
  induction env as [| [key v] env IH]; [apply elem_of_nil in Hin; contradiction |].
  simpl in Hdistinct. apply NoDup_cons in Hdistinct as [Hfresh Hdistinct].
  simpl. apply elem_of_cons in Hin as [Heq | Hin].
  - injection Heq as <- <-.
    rewrite assigned_untouched.
    + pose proof (Hplain (name, Some value) ltac:(left)) as Hname. simpl in Hname.
      rewrite Hname, Hvalid, String.eqb_refl. reflexivity.
    + intros k w Hk Heq. apply Hfresh.
      pose proof (Hplain (k, Some w) ltac:(right; exact Hk)) as Hname. simpl in Hname.
      rewrite <- Heq, Hname.
      apply list_elem_of_fmap. exists (k, Some w). split; [reflexivity | exact Hk].
  - rewrite IH; [reflexivity | exact Hdistinct | | exact Hin].
    intros entry Hentry. apply Hplain. right. exact Hentry.
Qed.

End EnvironmentMoreFacts.

(** X17.  What [createServer] does to the environment of the process for
    one session.  A variable no entry of [env] writes reads as before, and
    so does every name the operating system refuses (the empty name, a name
    containing ['=']): such entries are dropped silently.  No variable is
    ever removed.  When the names of [env] contain no NUL character, the
    entry of a valid name with a value that is not [null] sets the variable
    of that name to that value (up to its first NUL character).  Without an
    [env] nothing changes.  The worker is never touched. *)
Theorem X17_createServer_sets_only_what_env_names {Worker : Type}
    (serverVersion : McpProxy.ServerVersion) (userId : option string)
    (p : McpProxy.Process Worker) :
  (∀ (env : JS.Env) name,
     (∀ key value, (key, Some value) ∈ env -> JS.c_str key ≠ name) ->
     McpProxy.process_env (McpProxy.createServer serverVersion userId (Some env) p).2 !! name
       = McpProxy.process_env p !! name)
  ∧ (∀ (env : JS.Env) name,
       McpProxy.valid_name name = false ->
       McpProxy.process_env (McpProxy.createServer serverVersion userId (Some env) p).2 !! name
         = McpProxy.process_env p !! name)
  ∧ (∀ (env : JS.Env) name,
       is_Some (McpProxy.process_env p !! name) ->
       is_Some (McpProxy.process_env
                  (McpProxy.createServer serverVersion userId (Some env) p).2 !! name))
  ∧ (∀ (env : JS.Env) name value,
       NoDup env.*1 ->
       (∀ entry, entry ∈ env -> JS.c_str entry.1 = entry.1) ->
       (name, Some value) ∈ env ->
       McpProxy.valid_name name = true ->
       McpProxy.process_env (McpProxy.createServer serverVersion userId (Some env) p).2 !! name
         = Some (JS.c_str value))
  ∧ (McpProxy.createServer serverVersion userId None p).2 = p
  ∧ (∀ env, McpProxy.worker (McpProxy.createServer serverVersion userId env p).2
            = McpProxy.worker p).
Proof.
  split; [| split; [| split; [| split; [| split]]]].
  - intros env name Hother. simpl. rewrite applyEnv_lookup.
    rewrite assigned_untouched by exact Hother. reflexivity.
  - intros env name Hbad. simpl. rewrite applyEnv_lookup.
    rewrite assigned_refused by exact Hbad. reflexivity.
  - intros env name Hset. simpl. rewrite applyEnv_lookup.
    destruct (McpProxy.assigned env name); [eauto | exact Hset].
  - intros env name value Hdistinct Hplain Hin Hvalid. simpl. rewrite applyEnv_lookup.
    rewrite (assigned_plain env name value) by assumption. reflexivity.
  - reflexivity.
  - intros env. apply createServer_worker.
Qed.

(** X17 at the environment of [Scenario], extended by an entry with the
    empty name and one whose name contains ['=']: [T] is set, [PATH] is
    kept, the two other entries are dropped. *)
Lemma X17_createServer_sets_only_what_env_names_witness :
  let env := (Scenario.sessionEnv ++ [ ("", Some "x"); ("A=B", Some "y") ])%list in
  let p := (McpProxy.createServer (Worker := gmap string string) Scenario.proxyVersion
              (Some "u1") (Some env) Scenario.bare).2 in
  McpProxy.process_env p !! "T" = Some "v1"
  ∧ McpProxy.process_env p !! "PATH" = Some "/usr/bin"
  ∧ McpProxy.process_env p !! "" = None
  ∧ McpProxy.process_env p !! "A=B" = None.
Proof.
  intros env p.
  destruct (X17_createServer_sets_only_what_env_names (Worker := gmap string string)
              Scenario.proxyVersion (Some "u1") Scenario.bare)
    as (Hother & Hrefused & _ & Hset & _).
  unfold p. split; [| split; [| split]].
  - apply (Hset env "T" "v1").
    + apply NoDup_ListNoDup. repeat constructor; simpl; intuition discriminate.
    + intros entry Hin. apply list_elem_of_In in Hin. simpl in Hin.
      destruct Hin as [<- | [<- | [<- | []]]]; reflexivity.
    + left.
    + reflexivity.
  - rewrite (Hother env "PATH"); [reflexivity |].
    intros key value Hin. apply list_elem_of_In in Hin. simpl in Hin.
    destruct Hin as [Heq | [Heq | [Heq | []]]]; injection Heq as <- _; discriminate.
  - rewrite (Hrefused env ""); reflexivity.
  - rewrite (Hrefused env "A=B"); reflexivity.
Defined.

(** X18.  Sessions share one environment.  After two sessions were created
    one after the other, a variable set by the first session and not
    written by the second still carries the first session's value, and a
    variable set by the second carries the second session's value: the
    environment of a session is not undone when another session is
    created. *)
Theorem X18_session_environments_accumulate {Worker : Type}
    (v1 v2 : McpProxy.ServerVersion) (u1 u2 : option string) (env1 env2 : JS.Env)
    (p : McpProxy.Process Worker) (name value : string) :
  let after :=
    McpProxy.process_env
      (McpProxy.createServer v2 u2 (Some env2)
         (McpProxy.createServer v1 u1 (Some env1) p).2).2 in
  (McpProxy.assigned env1 name = Some value ->
   (∀ key w, (key, Some w) ∈ env2 -> JS.c_str key ≠ name) ->
   after !! name = Some value)
  ∧ (McpProxy.assigned env2 name = Some value -> after !! name = Some value).
Proof.
  intros after. unfold after. simpl. split.
  - intros Hfirst Hsecond. rewrite applyEnv_lookup.
    rewrite assigned_untouched by exact Hsecond.
    rewrite applyEnv_lookup, Hfirst. reflexivity.
  - intros Hsecond. rewrite applyEnv_lookup, Hsecond. reflexivity.
Qed.

(** X18 at a first session that sets [T] and a second that sets [U]. *)
Lemma X18_session_environments_accumulate_witness :
  McpProxy.process_env
    (McpProxy.createServer (Worker := gmap string string) Scenario.proxyVersion
       (Some "u2") (Some [ ("U", Some "v2") ])
       (McpProxy.createServer Scenario.proxyVersion (Some "u1")
          (Some Scenario.sessionEnv) Scenario.bare).2).2 !! "T" = Some "v1".
Proof.
  destruct (X18_session_environments_accumulate (Worker := gmap string string)
              Scenario.proxyVersion Scenario.proxyVersion (Some "u1") (Some "u2")
              Scenario.sessionEnv [ ("U", Some "v2") ] Scenario.bare "T" "v1")
    as [Hkept _].
  apply Hkept; [reflexivity |].
  intros key w Hin. apply list_elem_of_singleton in Hin. injection Hin as -> _.
  discriminate.
Defined.

(** ** What the auth handlers return *)

Section VerifyMoreFacts.
Import JS McpProxy.

Lemma or_default_truthy v d : truthy (Some d) = true -> truthy (Some (or_default v d)) = true.
Proof.
  intros Hd. unfold or_default. destruct v as [x |]; [| exact Hd].
  destruct (truthy (Some x)) eqn:Hx; [exact Hx | exact Hd].
Qed.

Lemma derivedUserId_truthy apiKey : truthy_str (derivedUserId apiKey) = true.
Proof. reflexivity. Qed.

Lemma verifyApiKey_identity encodeURIComponent fetch apiKey authServerUrl r :
  verifyApiKey encodeURIComponent fetch apiKey authServerUrl = Returns (Some r) ->
  ∃ uid perms e,
    r = {| userId := or_default uid (JStr (derivedUserId apiKey));
           permissions := Some (or_default perms (JArr []));
           env := Some (or_default e (JObj [])) |}.
Proof.
  unfold verifyApiKey.
  destruct (truthy_str authServerUrl); simpl; [| discriminate].
  destruct (encodeURIComponent apiKey) as [encoded |]; simpl; [| discriminate].
  destruct (fetch (lookupUrl authServerUrl encoded)) as [response |]; simpl;
    [| discriminate].
  destruct (ok response); simpl; [| discriminate].
  destruct (json_body response) as [data |]; simpl; [| discriminate].
  destruct (member data "valid") as [valid |]; simpl; [| discriminate].
  destruct (truthy valid); [| discriminate].
  destruct (member data "userId") as [uid |]; simpl; [| discriminate].
  destruct (member data "permissions") as [perms |]; simpl; [| discriminate].
  destruct (member data "env") as [e |]; simpl; [| discriminate].
  intros Heq. injection Heq as <-. eauto.
Qed.

End VerifyMoreFacts.

(** X19.  An identity returned by [verifyApiKey] is complete: its [userId],
    [permissions] and [env] are all present and truthy, whatever the auth
    server's reply left out or sent empty (a [userId] that is missing,
    [null], [""], [0] or [false] is replaced by the derived one). *)
Theorem X19_verified_identity_is_complete
    (encodeURIComponent : string -> JS.outcome string)
    (fetch : string -> JS.outcome McpProxy.FetchResponse)
    (apiKey authServerUrl : string) (r : McpProxy.Identity) :
  McpProxy.verifyApiKey encodeURIComponent fetch apiKey authServerUrl
    = JS.Returns (Some r) ->
  JS.truthy (Some (McpProxy.userId r)) = true
  ∧ JS.truthy (McpProxy.permissions r) = true
  ∧ JS.truthy (McpProxy.env r) = true.
Proof.
  intros Hrun.
  destruct (verifyApiKey_identity _ _ _ _ _ Hrun) as (uid & perms & e & ->). simpl.
  repeat split; apply or_default_truthy; reflexivity.
Qed.

(** X19 at a reply whose [userId] is the empty string. *)
Lemma X19_verified_identity_is_complete_witness :
  let reply := {| McpProxy.ok := true; McpProxy.status := 200;
                  McpProxy.json_body :=
                    JS.Returns (JS.JObj [ ("valid", JS.JBool true);
                                          ("userId", JS.JStr "") ]) |} in
  ∃ r, McpProxy.verifyApiKey Scenario.encodePlain (fun _ => JS.Returns reply)
         "abcdefghijkl" "http://auth" = JS.Returns (Some r)
       ∧ JS.truthy (Some (McpProxy.userId r)) = true.
Proof.
  intros reply. eexists. split; [reflexivity |].
  eapply (X19_verified_identity_is_complete Scenario.encodePlain
            (fun _ => JS.Returns reply) "abcdefghijkl" "http://auth").
  reflexivity.
Defined.

(** X20.  The auth handler of the command-line program never throws,
    admits no empty credential, and gives every identity a non-empty
    [userId]: an auth server that is unreachable, answers garbage or throws
    makes it return [null], which the listener answers 401. *)
Theorem X20_program_auth_handler_is_safe
    (encodeURIComponent : string -> JS.outcome string)
    (fetch : string -> JS.outcome McpProxy.FetchResponse)
    (authServerUrl : option string) (requestApiKey : string) :
  ∃ verdict,
    McpProxy.authHandler encodeURIComponent fetch authServerUrl requestApiKey
      = JS.Returns verdict
    ∧ ∀ r, verdict = Some r ->
           JS.truthy_str requestApiKey = true
           ∧ JS.truthy (Some (McpProxy.userId r)) = true.
Proof.
  unfold McpProxy.authHandler.
  destruct (JS.truthy_str requestApiKey) eqn:Hkey; simpl.
  - destruct (McpProxy.remoteVerification authServerUrl).
    + destruct (verifyApiKey_returns encodeURIComponent fetch requestApiKey
                  (default "" authServerUrl)) as [verdict Hrun].
      exists verdict. split; [exact Hrun |]. intros r ->. split; [reflexivity |].
      destruct (verifyApiKey_identity _ _ _ _ _ Hrun) as (uid & perms & e & ->).
      apply or_default_truthy. reflexivity.
    + eexists. split; [reflexivity |]. intros r Hr. injection Hr as <-.
      split; reflexivity.
  - exists None. split; [reflexivity |]. discriminate.
Qed.

(** X20 at the program without an auth server. *)
Lemma X20_program_auth_handler_is_safe_witness :
  ∃ r, McpProxy.authHandler Scenario.encodePlain Scenario.fetchValid None "k1"
         = JS.Returns (Some r)
       ∧ JS.truthy (Some (McpProxy.userId r)) = true.
Proof.
  destruct (X20_program_auth_handler_is_safe Scenario.encodePlain Scenario.fetchValid
              None "k1") as (verdict & Hrun & Hsafe).
  simpl in Hrun. injection Hrun as <-.
  eexists. split; [reflexivity |]. apply (Hsafe _ eq_refl).
Defined.

(** ** The derived user id *)

Section DerivedFacts.
Import JS.

Lemma substring0_length n s :
  String.length (substring0 n s) = Nat.min n (String.length s).
Proof.
  unfold substring0. revert s. induction n as [| n IH]; intros [| c s]; simpl; auto.
Qed.

Lemma substring0_all n s : (String.length s ≤ n)%nat -> substring0 n s = s.
Proof.
  unfold substring0. revert s. induction n as [| n IH]; intros [| c s] Hlen; simpl in *;
    try reflexivity; try lia.
  rewrite IH by lia. reflexivity.
Qed.

Lemma substring0_app p rest : substring0 (String.length p) (p ++ rest) = p.
Proof.
  unfold substring0. induction p as [| c p IH]; simpl.
  - destruct rest; reflexivity.
  - rewrite IH. reflexivity.
Qed.

Lemma lower_ascii_idempotent c : lower_ascii (lower_ascii c) = lower_ascii c.
Proof. destruct c as [[] [] [] [] [] [] [] []]; reflexivity. Qed.

Lemma toLowerCase_idempotent s : toLowerCase (toLowerCase s) = toLowerCase s.
Proof.
  induction s as [| c s IH]; simpl; [reflexivity |].
  rewrite lower_ascii_idempotent, IH. reflexivity.
Qed.

End DerivedFacts.

(** X21.  The derived user id is ["user-"] and at most 8 characters of the
    credential: a credential of 8 characters or fewer appears in it whole,
    and two credentials that share their first 8 characters get the same
    user id. *)
Theorem X21_derived_user_id (apiKey : string) :
  String.length (McpProxy.derivedUserId apiKey)
    = (5 + Nat.min 8 (String.length apiKey))%nat
  ∧ ((String.length apiKey ≤ 8)%nat ->
     McpProxy.derivedUserId apiKey = "user-" ++ apiKey)
  ∧ (∀ head rest1 rest2,
       String.length head = 8 ->
       McpProxy.derivedUserId (head ++ rest1) = McpProxy.derivedUserId (head ++ rest2)).
Proof.
  unfold McpProxy.derivedUserId. split; [| split].
  - rewrite <- substring0_length. reflexivity.
  - intros Hshort. rewrite substring0_all by exact Hshort. reflexivity.
  - intros head rest1 rest2 Hlen. rewrite <- Hlen, !substring0_app. reflexivity.
Qed.

(** X21 at a short credential and at two long ones. *)
Lemma X21_derived_user_id_witness :
  McpProxy.derivedUserId "secret" = "user-secret"
  ∧ McpProxy.derivedUserId "abcdefgh-one" = McpProxy.derivedUserId "abcdefgh-two".
Proof.
  destruct (X21_derived_user_id "secret") as (_ & Hshort & _).
  destruct (X21_derived_user_id "") as (_ & _ & Hshared).
  split.
  - apply Hshort. simpl. lia.
  - apply (Hshared "abcdefgh" "-one" "-two"). reflexivity.
Defined.

(** X22.  The letter case of the configured header name does not matter:
    the listener lower-cases it before it reads the request's headers, so
    a name and its lower-case form extract the same credential from every
    request. *)
Theorem X22_header_name_is_case_insensitive {T : Type} `{SSE.ServerLike T}
    (cfg : SSE.Config T) (pf : SSE.Platform) (req : SSE.IncomingMessage)
    (name : string) :
  SSE.extractApiKey (Laws.withHeaderName (Some name) cfg) pf req
    = SSE.extractApiKey (Laws.withHeaderName (Some (JS.toLowerCase name)) cfg) pf req.
Proof.
  unfold SSE.extractApiKey, SSE.headerCredential, SSE.headerName. simpl.
  rewrite toLowerCase_idempotent. reflexivity.
Qed.

(** ** The connection announcement *)

Section AnnouncementFacts.
Import JS SSE Laws Terms.
Context {T : Type} `{ServerLike T}.
Variable cfg : Config T.

Lemma grows_refl (σ : State T) : grows σ σ.
Proof. exists []. rewrite app_nil_r. reflexivity. Qed.

Lemma grows_trans (σ1 σ2 σ3 : State T) : grows σ1 σ2 -> grows σ2 σ3 -> grows σ1 σ3.
Proof.
  intros [c12 H12] [c23 H23]. exists (c12 ++ c23)%list.
  rewrite H23, H12, app_assoc. reflexivity.
Qed.














Lemma establish_created pf req userId env key server (σ : State T) :
  createServer cfg req userId env = Returns server ->
  establish cfg pf req userId env key σ =
    register cfg pf server {| sessionId := randomUUID pf |} userId env key
      (called [ TransportCreated {| sessionId := randomUUID pf |};
                CreateServerCalled req userId env ] σ).
Proof.
  intros Hc. unfold establish.
  unfold mbind at 1 2 3, M_bind at 1 2 3, emit at 1 2, modify, attempt, await at 1. simpl.
  rewrite Hc. unfold called. rewrite <- app_assoc. reflexivity.
Qed.

Lemma register_run pf server transport userId env key (σ : State T) :
  register cfg pf server transport userId env key σ =
    try_M (announce cfg pf server transport userId) (fun _ => connectFailed transport)
      (registered pf server transport userId env key σ).
Proof.
  unfold register, registered.
  unfold mbind at 1 2 3 4, M_bind at 1 2 3 4, setTransport, setClosed at 1, emit at 1,
    modify, listen. simpl.
  destruct (closesBeforeListener pf); reflexivity.
Qed.


End AnnouncementFacts.




(** ** A client that hangs up before the close listener is attached *)

Section EarlyHangUpFacts.
Import JS SSE Laws Terms.
Context {T : Type} `{ServerLike T}.
Variable cfg : Config T.

Lemma sameSessions_refl (σ : State T) : sameSessions σ σ.
Proof. split; reflexivity. Qed.

Lemma sameSessions_trans (σ1 σ2 σ3 : State T) :
  sameSessions σ1 σ2 -> sameSessions σ2 σ3 -> sameSessions σ1 σ3.
Proof. intros [Ha Hl] [Ha' Hl']. split; congruence. Qed.

(** Lines 166-181 neither register nor remove a session, and attach no
    listener, when no [close] event is delivered meanwhile. *)
Lemma attachment_sameSessions pf server transport userId :
  closes pf = Some BeforeListener ->
  respects sameSessions
    (try_M (announce cfg pf server transport userId) (fun _ => connectFailed transport)).
Proof.
  intros Hearly.
  unfold announce, connectFailed, suspended, closesDuringConnect, closesDuringSend.
  rewrite Hearly.
  unfold writeHead, end_, streamStarted, attach, emit, withRes, isClosed.
  respecting sameSessions_refl sameSessions_trans ltac:(split; reflexivity).
Qed.

Lemma without_elem_of {A} `{EqDecision A} (x y : A) (l : list A) :
  y ∈ without x l -> y ∈ l.
Proof.
  induction l as [| z l IH]; simpl; [auto |].
  destruct (decide (x = z)); intros Hin; [right; exact Hin |].
  apply elem_of_cons in Hin as [-> | Hin]; [left | right; apply IH, Hin].
Qed.

Lemma listen_deaf sid live (server : T) transport :
  sessionId transport ≠ sid -> maintains (deaf sid) (listen live server transport).
Proof.
  intros Hne σ Hσ. unfold listen. destruct live; [| exact Hσ].
  intros s Hin. simpl in Hin.
  apply elem_of_cons in Hin as [Heq | Hin]; [| exact (Hσ s Hin)].
  injection Heq as _ <-. apply Hne. reflexivity.
Qed.

Lemma unlisten_deaf sid (server : T) transport :
  maintains (deaf sid) (unlisten server transport).
Proof.
  intros σ Hσ s Hin. simpl in Hin. exact (Hσ s (without_elem_of _ _ _ Hin)).
Qed.

Ltac unheard :=
  match goal with
  | Hσ : deaf _ ?σ |- deaf _ _ => intros ? ?; eapply Hσ; eassumption
  end.

Ltac deafening unit :=
  repeat first
    [ unit
    | apply unlisten_deaf
    | apply maintains_attempt
    | apply maintains_ret
    | apply maintains_await
    | apply maintains_gets
    | apply maintains_bind; [| intros ?]
    | apply maintains_try; [| intros ?]
    | apply maintains_modify; intros ? ?; unheard
    | match goal with
      | |- maintains _ (match ?x with _ => _ end) => destruct x
      | |- maintains _ (if ?b then _ else _) => destruct b
      end ].

Lemma deliver_deaf sid server transport :
  maintains (deaf sid) (deliver cfg server transport).
Proof.
  unfold deliver, closeListener, setClosed, deleteTransport, emit.
  deafening fail.
Qed.

Lemma requestListener_deaf sid pf req :
  randomUUID pf ≠ sid -> maintains (deaf sid) (requestListener cfg pf req).
Proof.
  intros Hne.
  unfold requestListener, cors, handleConnect, handleMessage, establish, register,
    announce, connectFailed, suspended, setHeader, writeHead, end_, streamStarted,
    attach, emit, withRes, setTransport, setClosed, isClosed.
  cbv zeta.
  deafening ltac:(first [ apply deliver_deaf
                        | apply listen_deaf; simpl; exact Hne ]).
Qed.

Lemma react_deaf sid (σ : State T) (i : input T) :
  drawsAnother sid i -> deaf sid σ -> deaf sid (react cfg σ i).
Proof.
  destruct i as [pf req | server transport | server transport message]; simpl;
    intros Hi Hσ.
  - apply (requestListener_deaf sid pf req Hi (arrival σ)). exact Hσ.
  - apply deliver_deaf, Hσ.
  - unfold relay, emit. unfold mbind, M_bind, gets, modify.
    destruct (bool_decide _); exact Hσ.
Qed.

(** A session without a pending close listener stays in the registry
    through every input that draws another session id, close events of its
    own connection included. *)
Lemma react_stranded sid session (σ : State T) (i : input T) :
  drawsAnother sid i ->
  deaf sid σ -> activeTransports σ !! sid = Some session ->
  activeTransports (react cfg σ i) !! sid = Some session.
Proof.
  destruct i as [pf req | server transport | server transport message]; simpl;
    intros Hi Hσ Hl.
  - rewrite <- Hl.
    apply (requestListener_sameEntry cfg pf req sid (not_eq_sym Hi) (arrival σ)).
  - destruct (decide (sessionId transport = sid)) as [<- | Hne].
    + rewrite deliver_idle; [exact Hl |]. destruct transport. apply Hσ.
    + rewrite deliver_entry by exact Hne. exact Hl.
  - unfold relay, emit. unfold mbind, M_bind, gets, modify.
    destruct (bool_decide _); exact Hl.
Qed.

Lemma runAll_stranded sid session (inputs : list (input T)) (σ : State T) :
  (∀ i, i ∈ inputs -> drawsAnother sid i) ->
  deaf sid σ -> activeTransports σ !! sid = Some session ->
  deaf sid (runAll cfg σ inputs)
  ∧ activeTransports (runAll cfg σ inputs) !! sid = Some session.
Proof.
  revert σ. induction inputs as [| i inputs IH]; intros σ Hdraw Hσ Hl; simpl; [auto |].
  assert (Hi : drawsAnother sid i) by (apply Hdraw; left).
  apply IH.
  - intros j Hj. apply Hdraw. right. exact Hj.
  - apply react_deaf; assumption.
  - apply react_stranded; assumption.
Qed.

Lemma runAll_deaf sid (inputs : list (input T)) (σ : State T) :
  (∀ i, i ∈ inputs -> drawsAnother sid i) ->
  deaf sid σ -> deaf sid (runAll cfg σ inputs).
Proof.
  revert σ. induction inputs as [| i inputs IH]; intros σ Hdraw Hσ; simpl; [auto |].
  apply IH; [intros j Hj; apply Hdraw; right; exact Hj |].
  apply react_deaf; [apply Hdraw; left | exact Hσ].
Qed.

(** An admitted connect request whose client has hung up before line 152:
    the session is registered and no close listener is pending for it. *)
Lemma establish_stranded pf req userId env key server (σ : State T) :
  createServer cfg req userId env = Returns server ->
  closes pf = Some BeforeListener ->
  let σ' := (establish cfg pf req userId env key σ).2 in
  activeTransports σ'
    = <[randomUUID pf := sessionOf (randomUUID pf) userId env key]> (activeTransports σ)
  ∧ listening σ' = listening σ.
Proof.
  intros Hmake Hearly σ'. unfold σ'.
  rewrite (establish_created cfg pf req userId env key server σ Hmake), register_run.
  match goal with
  | |- context [try_M ?body ?handler ?s] =>
      destruct (attachment_sameSessions pf server {| sessionId := randomUUID pf |}
                  userId Hearly s) as [-> ->]
  end.
  unfold registered, closesBeforeListener. rewrite Hearly. split; reflexivity.
Qed.

End EarlyHangUpFacts.

(** C8 fails on the code for a client that hangs up while the handler of
    its connect request awaits [authHandler] (line 117) or [createServer]
    (line 137).  The response has emitted [close] before line 152 attaches
    the listener, so the listener never runs: the session registered at
    line 148 stays in the registry through everything that follows, close
    events of its own connection included, which change nothing at all.
    This holds whatever [server.connect] and [transport.send] do. *)
Theorem C8_early_hang_up_is_never_torn_down {T : Type} `{SSE.ServerLike T}
    (cfg : SSE.Config T) (earlier later : list (SSE.input T))
    (pf : SSE.Platform) (req : SSE.IncomingMessage)
    (userId : option string) (env : option JS.Env) (server : T) :
  let σ := SSE.runAll cfg SSE.initial earlier in
  let key := default (JS.Text "") (SSE.extractApiKey cfg pf req) in
  let sid := SSE.randomUUID pf in
  Terms.isConnect cfg req = true ->
  JS.truthy_credential (SSE.extractApiKey cfg pf req) = true ->
  Terms.admits cfg key userId env ->
  SSE.createServer cfg req userId env = JS.Returns server ->
  SSE.closes pf = Some SSE.BeforeListener ->
  (∀ i, i ∈ (earlier ++ later)%list -> Laws.drawsAnother sid i) ->
  let σ' := SSE.runAll cfg (SSE.serve cfg pf req σ).2 later in
  SSE.activeTransports σ' !! sid = Some (Terms.sessionOf sid userId env key)
  ∧ (∀ server', (server', {| SSE.sessionId := sid |}) ∉ SSE.listening σ')
  ∧ ∀ server', SSE.react cfg σ' (SSE.Close server' {| SSE.sessionId := sid |}) = σ'.
Proof.
  intros σ key sid Hroute Hkey Hadm Hmake Hearly Hdraw σ'.
  assert (Hσ : Laws.deaf sid σ).
  { apply runAll_deaf; [intros i Hi; apply Hdraw, elem_of_app; left; exact Hi |].
    intros s Hin. simpl in Hin. apply elem_of_nil in Hin. contradiction. }
  destruct (serve_connect cfg pf req σ Hroute) as [hs Hserve].
  rewrite (handleConnect_admitted cfg pf req userId env _ Hkey Hadm) in Hserve.
  fold key in Hserve.
  destruct (establish_stranded cfg pf req userId env key server
              (Terms.called (Terms.authCalls cfg key)
                 (Terms.withHeaders hs (SSE.arrival σ)))
              Hmake Hearly) as [Hreg Hlisten].
  rewrite <- Hserve in Hreg, Hlisten. simpl in Hreg, Hlisten.
  destruct (runAll_stranded cfg sid (Terms.sessionOf sid userId env key) later
              (SSE.serve cfg pf req σ).2) as [Hdeaf Hstays].
  - intros i Hi. apply Hdraw, elem_of_app. right. exact Hi.
  - intros s. rewrite Hlisten. apply Hσ.
  - rewrite Hreg. apply lookup_insert_eq.
  - split; [exact Hstays |]. split; [exact Hdeaf |].
    intros server'. simpl. rewrite deliver_idle by apply Hdeaf. reflexivity.
Qed.

(** C8 at the open listener of [Scenario]: the client of session [s1] hangs
    up while the factory is awaited; afterwards its connection's close
    event arrives again and another client connects and leaves.  Session
    [s1] is still registered and [onClose] was called once, for the other
    client. *)
Lemma C8_early_hang_up_is_never_torn_down_witness :
  let later :=
    [ SSE.Close Scenario.Healthy {| SSE.sessionId := "s1" |};
      SSE.Request (Scenario.platform "s2" None) (Scenario.get "/sse" (Some "k2"));
      SSE.Close Scenario.Healthy {| SSE.sessionId := "s2" |};
      SSE.Close Scenario.Healthy {| SSE.sessionId := "s1" |} ] in
  let σ' := SSE.runAll Scenario.open
              (SSE.serve Scenario.open (Cases.leavingEarly "s1")
                 (Scenario.get "/sse" (Some "k1")) Scenario.started).2 later in
  SSE.activeTransports σ' !! "s1"
    = Some (Terms.sessionOf "s1" None None (JS.Text "k1"))
  ∧ SSE.activeTransports σ' !! "s2" = None
  ∧ Terms.countOnClose (SSE.log σ') = 1%nat.
Proof.
  intros later σ'.
  destruct (C8_early_hang_up_is_never_torn_down Scenario.open [] later
              (Cases.leavingEarly "s1") (Scenario.get "/sse" (Some "k1"))
              None None Scenario.Healthy eq_refl eq_refl)
    as (Hstays & _ & _);
    [ split; [left |]; split; reflexivity | reflexivity | reflexivity | | ].
  - intros i Hi. apply list_elem_of_In in Hi. simpl in Hi.
    destruct Hi as [<- | [<- | [<- | [<- | []]]]]; simpl; try exact I. discriminate.
  - split; [exact Hstays |]. split; reflexivity.
Defined.

(** ** A header name that names a member of Object.prototype *)

Section MemberFacts.
Import JS SSE Laws Terms.
Context {T : Type} `{ServerLike T}.
Variable cfg : Config T.
Variable pf : Platform.

Ltac growing :=
  first [ exists []; simpl; rewrite app_nil_r; reflexivity
        | eexists; reflexivity ].

Lemma register_grows server transport userId env key :
  respects grows (register cfg pf server transport userId env key).
Proof.
  unfold register, announce, connectFailed, suspended, deliver, closeListener, writeHead,
    end_, streamStarted, listen, unlisten, attach, emit, withRes, setTransport,
    deleteTransport, setClosed, isClosed.
  respecting (grows_refl (T := T)) (grows_trans (T := T)) ltac:(growing).
Qed.

(** Once a connect request is admitted, the factory is called. *)
Lemma establish_calls_factory req userId env key (σ : State T) :
  headersSent (res σ) = false ->
  CreateServerCalled req userId env ∈ log (establish cfg pf req userId env key σ).2.
Proof.
  intros Hunsent.
  destruct (createServer cfg req userId env) as [server | e] eqn:Hmake.
  - rewrite (establish_created cfg pf req userId env key server σ Hmake).
    destruct (register_grows server {| sessionId := randomUUID pf |} userId env key
                (called [ TransportCreated {| sessionId := randomUUID pf |};
                          CreateServerCalled req userId env ] σ)) as [calls ->].
    simpl. apply elem_of_app. left. apply elem_of_app. right. right. left.
  - rewrite (establish_factory_fails cfg pf req userId env key e σ Hunsent Hmake).
    simpl. apply elem_of_app. right. right. left.
Qed.

Lemma member_credential req :
  headers req !! toLowerCase (headerName cfg) = None ->
  is_object_prototype_key (toLowerCase (headerName cfg)) = true ->
  extractApiKey cfg pf req = Some (Member (toLowerCase (headerName cfg))).
Proof.
  intros Habsent Hproto. unfold extractApiKey, headerCredential, get_property.
  rewrite Habsent, Hproto. reflexivity.
Qed.

Lemma NoDup_without {A} `{EqDecision A} (x : A) (l : list A) :
  NoDup l -> x ∉ without x l.
Proof.
  induction 1 as [| y l Hy Hl IH]; simpl; [apply not_elem_of_nil |].
  destruct (decide (x = y)) as [-> | Hne]; [exact Hy |].
  intros Hin. apply elem_of_cons in Hin as [-> | Hin]; [apply Hne; reflexivity |].
  exact (IH Hin).
Qed.

End MemberFacts.

(** X23.  When the configured header name, in lower case, names a member of
    [Object.prototype] (as ["constructor"] does), a connect request that
    does not carry the header still has a credential: line 90 reads the
    inherited member, which is truthy, so neither the query parameter nor
    the 401 of line 109 is reached.  With no auth handler and no static key
    such a request is admitted and the factory is called; with a static key
    it is answered 401 "Unauthorized: Invalid API key", the member being no
    string; an auth handler is called with the member. *)
Theorem X23_inherited_member_passes_for_a_credential {T : Type} `{SSE.ServerLike T}
    (cfg : SSE.Config T) (pf : SSE.Platform) (req : SSE.IncomingMessage)
    (σ : SSE.State T) :
  let name := JS.toLowerCase (SSE.headerName cfg) in
  Terms.isConnect cfg req = true ->
  SSE.headers req !! name = None ->
  JS.is_object_prototype_key name = true ->
  SSE.extractApiKey cfg pf req = Some (JS.Member name)
  ∧ (SSE.authHandler cfg = None -> JS.truthy_ostr (SSE.apiKey cfg) = false ->
     SSE.CreateServerCalled req None None ∈ SSE.log (SSE.serve cfg pf req σ).2)
  ∧ (SSE.authHandler cfg = None -> JS.truthy_ostr (SSE.apiKey cfg) = true ->
     ∃ σ', SSE.serve cfg pf req σ = (JS.Returns tt, σ')
           ∧ SSE.statusCode (SSE.res σ') = Some 401
           ∧ SSE.body (SSE.res σ') = Some "Unauthorized: Invalid API key"
           ∧ SSE.activeTransports σ' = SSE.activeTransports σ)
  ∧ (∀ handler, SSE.authHandler cfg = Some handler ->
       handler (JS.Member name) = JS.Returns None ->
       ∃ σ', SSE.serve cfg pf req σ = (JS.Returns tt, σ')
             ∧ SSE.statusCode (SSE.res σ') = Some 401
             ∧ SSE.log σ' = (SSE.log σ ++ [SSE.AuthHandlerCalled (JS.Member name)])%list).
Proof.
  intros name Hroute Habsent Hproto.
  pose proof (member_credential cfg pf req Habsent Hproto) as Hkey. fold name in Hkey.
  assert (Htruthy : JS.truthy_credential (SSE.extractApiKey cfg pf req) = true)
    by (rewrite Hkey; reflexivity).
  destruct (serve_connect cfg pf req σ Hroute) as [hs Hserve].
  split; [exact Hkey |]. split; [| split].
  - intros Hnone Hopen. rewrite Hserve.
    rewrite (handleConnect_admitted cfg pf req None None _ Htruthy).
    + apply establish_calls_factory. reflexivity.
    + unfold Terms.admits. rewrite Hnone. split; [left; exact Hopen | split; reflexivity].
  - intros Hnone Hstatic. rewrite Hserve.
    rewrite (handleConnect_rejected cfg pf req (Terms.withHeaders hs (SSE.arrival σ))
               eq_refl Htruthy).
    + eexists. split; [reflexivity |]. simpl. auto.
    + unfold Terms.rejects. rewrite Hnone, Hkey.
      destruct (SSE.apiKey cfg) as [k |]; [| discriminate].
      exists k. split; [reflexivity |]. split; [exact Hstatic | discriminate].
  - intros handler Hhandler Hnull. rewrite Hserve.
    rewrite (handleConnect_rejected cfg pf req (Terms.withHeaders hs (SSE.arrival σ))
               eq_refl Htruthy).
    + eexists. split; [reflexivity |]. simpl.
      unfold Terms.authCalls. rewrite Hhandler, Hkey. auto.
    + unfold Terms.rejects. rewrite Hhandler, Hkey. exact Hnull.
Qed.

(** X23 at the open listener of [Scenario], configured with the header name
    ["Constructor"]: a request with no header and no query parameter gets a
    session. *)
Lemma X23_inherited_member_passes_for_a_credential_witness :
  let cfg := Laws.withHeaderName (Some "Constructor") Scenario.open in
  let σ' := (SSE.serve cfg (Scenario.platform "s1" None)
               (Scenario.get "/sse" None) Scenario.started).2 in
  SSE.extractApiKey cfg (Scenario.platform "s1" None) (Scenario.get "/sse" None)
    = Some (JS.Member "constructor")
  ∧ SSE.CreateServerCalled (Scenario.get "/sse" None) None None ∈ SSE.log σ'
  ∧ SSE.activeTransports σ' !! "s1"
      = Some (Terms.sessionOf "s1" None None (JS.Member "constructor")).
Proof.
  intros cfg σ'.
  destruct (X23_inherited_member_passes_for_a_credential cfg
              (Scenario.platform "s1" None) (Scenario.get "/sse" None)
              Scenario.started eq_refl eq_refl eq_refl) as (Hkey & Hcalled & _).
  split; [exact Hkey |]. split; [exact (Hcalled eq_refl eq_refl) | reflexivity].
Defined.

(** X24.  The close event of a response whose listener is pending runs the
    teardown of lines 152-164 whatever [server.close] does, whether it
    resolves or rejects, and whether or not [onClose] is configured: the
    session leaves the registry, the [closed] flag is set, [server.close] is
    called, then [onClose] if there is one, once.  The listener is pending
    no longer: a further close event of that response changes nothing. *)
Theorem X24_a_close_event_tears_down_once {T : Type} `{SSE.ServerLike T}
    (cfg : SSE.Config T) (server : T) (transport : SSE.SSEServerTransport)
    (σ : SSE.State T) :
  (server, transport) ∈ SSE.listening σ ->
  NoDup (SSE.listening σ) ->
  let σ' := SSE.react cfg σ (SSE.Close server transport) in
  SSE.activeTransports σ' = delete (SSE.sessionId transport) (SSE.activeTransports σ)
  ∧ SSE.sessionId transport ∈ SSE.closed σ'
  ∧ SSE.log σ' = (SSE.log σ ++ SSE.ServerClose server
                    :: match SSE.onClose cfg with
                       | Some _ => [SSE.OnClose server]
                       | None => []
                       end)%list
  ∧ SSE.react cfg σ' (SSE.Close server transport) = σ'.
Proof.
  intros Hpending Hone σ'. unfold σ'. simpl.
  destruct (deliver_run cfg server transport σ Hpending) as [o Hrun].
  rewrite Hrun. simpl. split; [reflexivity |]. split; [set_solver |].
  split; [reflexivity |].
  rewrite deliver_idle; [reflexivity |]. simpl. apply NoDup_without, Hone.
Qed.

(** X24 at session [sA] of [Scenario.twoSessions], whose server throws when
    asked to close. *)
Lemma X24_a_close_event_tears_down_once_witness :
  let σ' := SSE.react Scenario.open Scenario.twoSessions
              (SSE.Close Scenario.Stubborn {| SSE.sessionId := "sA" |}) in
  SSE.close Scenario.Stubborn = JS.Throws (JS.OtherError "close failed")
  ∧ SSE.activeTransports σ' !! "sA" = None
  ∧ Terms.countOnClose (SSE.log σ') = 1%nat
  ∧ SSE.react Scenario.open σ' (SSE.Close Scenario.Stubborn {| SSE.sessionId := "sA" |})
    = σ'.
Proof.
  intros σ'.
  destruct (X24_a_close_event_tears_down_once Scenario.open Scenario.Stubborn
              {| SSE.sessionId := "sA" |} Scenario.twoSessions)
    as (Hreg & _ & Hlog & Hidle).
  - left.
  - apply NoDup_cons. split; [| apply NoDup_singleton].
    intros Hin. apply list_elem_of_singleton in Hin. discriminate.
  - split; [reflexivity |]. split; [| split].
    + fold σ' in Hreg. rewrite Hreg. apply lookup_delete_eq.
    + fold σ' in Hlog. rewrite Hlog. reflexivity.
    + exact Hidle.
Defined.
